(** * syster-diagram-ui: the layout pipeline

    A shallow embedding of the layout code of the repository:

    - [Sizing]           : [layout/sizing.ts]       (node sizes from content)
    - [SysMLNode]        : [nodes/SysMLNode.tsx]    (the sections of a node)
    - [GeneralView]      : [layout/general-view.ts] (graph builder)
    - [ElkLayout]        : [layout/elk-layout.ts]   (adapter of the engine)
    - [GeneralViewApply] : [layout/general-view.ts] ([apply], with the engine)
    - [LayoutUtils]      : [views/layoutUtils.ts]   (level and grid layout)
    - [ViewRenderer]     : [views/ViewRenderer.tsx] (the view for the frame)

    The first part holds the embedding, module by module, together with the
    notions in which the properties are stated; the second part holds the
    proofs, in the modules [SizingFacts], [GeneralViewFacts],
    [ElkLayoutFacts], [LayoutUtilsFacts] and [ViewRendererFacts].

    Conventions of the embedding.

    - A JS string is a [string]; the functions used by the code
      ([includes], [split], [replace], [toLowerCase]) are written out below.
    - An optional property [p?: T] is an [option T]; the truthiness tests of
      the code ([if (symbol.parent)], [a || b]) are written out.  The
      options of the level and grid layouts are spread over the defaults,
      which tells an absent property from one that is [undefined]: they are
      [Given T].
    - [Map<string, V>] is a [gmap string V], [Set<string>] a [gset string].
    - Sizes are integers ([Z]): they are sums of integer constants.  The
      coordinates of the level and grid layouts are rationals ([Q]) or
      [NaN]: the caller supplies the spacing and the code halves a width.
      The arithmetic of the rationals is that of the code, which is in
      doubles, for spacings that are whole numbers of moderate size; the
      statements about coordinates are made for these. *)

From Stdlib Require Import ZArith QArith Lqa Ascii String.
From stdpp Require Import gmap strings list pretty sorting.

Local Open Scope string_scope.
Local Open Scope list_scope.

#[local] Set Warnings "-clear-no-such-hyp".

(** * The embedding *)

(** ** JavaScript string functions used by the layout code *)

Module JsString.

(** [hay.startsWith(needle)] *)
Fixpoint startsWith (needle hay : string) : bool :=
  match needle, hay with
  | EmptyString, _ => true
  | String _ _, EmptyString => false
  | String a needle', String b hay' =>
      bool_decide (a = b) && startsWith needle' hay'
  end.

(** [hay.includes(needle)] *)
Fixpoint includes (needle hay : string) : bool :=
  startsWith needle hay ||
  match hay with
  | EmptyString => false
  | String _ rest => includes needle rest
  end.

Definition lower_ascii (c : ascii) : ascii :=
  let n := nat_of_ascii c in
  if (65 <=? n)%nat && (n <=? 90)%nat then ascii_of_nat (n + 32) else c.

(** [s.toLowerCase()], on the ASCII letters *)
Fixpoint toLowerCase (s : string) : string :=
  match s with
  | EmptyString => EmptyString
  | String c rest => String (lower_ascii c) (toLowerCase rest)
  end.

Definition colon : ascii := ":"%char.
Definition underscore : ascii := "_"%char.

Definition is_colon (c : ascii) : bool := bool_decide (c = colon).

(** [s.replace(/::/g, '_')]: the matches are taken from the left and do not
    overlap, so [":::"] becomes ["_:"]. *)
Fixpoint replace_colons (s : string) : string :=
  match s with
  | EmptyString => EmptyString
  | String c1 s1 =>
      match s1 with
      | String c2 s2 =>
          if is_colon c1 && is_colon c2
          then String underscore (replace_colons s2)
          else String c1 (replace_colons s1)
      | EmptyString => String c1 EmptyString
      end
  end.

(** The character [c] put in front of the first segment of [l]. *)
Definition consHead (c : ascii) (l : list string) : list string :=
  match l with
  | [] => [String c EmptyString]
  | seg :: rest => String c seg :: rest
  end.

(** [s.split('::')]: the separators are taken from the left and do not
    overlap, so ["A:::B"] gives ["A"] and [":B"]. *)
Fixpoint split_colons (s : string) : list string :=
  match s with
  | EmptyString => [EmptyString]
  | String c1 s1 =>
      match s1 with
      | String c2 s2 =>
          if is_colon c1 && is_colon c2
          then EmptyString :: split_colons s2
          else consHead c1 (split_colons s1)
      | EmptyString => [String c1 EmptyString]
      end
  end.

(** [l.join('::')] *)
Fixpoint join_colons (l : list string) : string :=
  match l with
  | [] => EmptyString
  | [x] => x
  | x :: rest => x +:+ "::" +:+ join_colons rest
  end.

(** [arr.pop()] on a fresh array: its last element, [undefined] when empty *)
Definition pop (l : list string) : option string := last l.

(** A string is truthy when it is not empty. *)
Definition truthy (s : string) : bool :=
  match s with EmptyString => false | _ => true end.

Definition startsWithColon (s : string) : bool :=
  match s with String c _ => is_colon c | EmptyString => false end.

(** [s.includes('_')] *)
Fixpoint hasUnderscore (s : string) : bool :=
  match s with
  | EmptyString => false
  | String c rest => bool_decide (c = underscore) || hasUnderscore rest
  end.

End JsString.

(** ** layout/sizing.ts *)

Module Sizing.
Import JsString.
Local Open Scope Z_scope.

(** [NODE_SIZING] *)
Definition headerHeight : Z := 60.
Definition sectionHeaderHeight : Z := 24.
Definition itemHeight : Z := 26.
Definition bottomPadding : Z := 20.
Definition childGap : Z := 20.
Definition minHeight : Z := 90.
Definition minContainerHeight : Z := 200.
Definition defaultWidth : Z := 200.
Definition minContainerWidth : Z := 300.

Record FeatureCounts := mkCounts { parts : Z; attrs : Z; actions : Z }.

Definition countFeature (c : FeatureCounts) (f : string) : FeatureCounts :=
  let lower := toLowerCase f in
  if includes "action" lower || includes ":action" lower then
    mkCounts (parts c) (attrs c) (actions c + 1)
  else if includes "attribute" lower || includes "attr" lower
          || negb (includes ":" f) then
    mkCounts (parts c) (attrs c + 1) (actions c)
  else
    mkCounts (parts c + 1) (attrs c) (actions c).

Definition groupFeatureCounts (features : list string) : FeatureCounts :=
  fold_left countFeature features (mkCounts 0 0 0).

Definition b2z (b : bool) : Z := if b then 1 else 0.

Definition calculateContentHeight (features : list string) : Z :=
  let c := groupFeatureCounts features in
  let featureCount := Z.of_nat (length features) in
  if featureCount =? 0 then headerHeight + 10
  else
    let sectionCount :=
      b2z (0 <? parts c) + b2z (0 <? attrs c) + b2z (0 <? actions c) in
    let featureHeight :=
      sectionCount * sectionHeaderHeight + featureCount * itemHeight
      + bottomPadding in
    headerHeight + featureHeight.

Record Size := mkSize { width : Z; height : Z }.

Definition calculateNodeSize (features : list string) (isContainer : bool)
  : Size :=
  let contentHeight := calculateContentHeight features in
  if isContainer then
    mkSize minContainerWidth (Z.max minContainerHeight (contentHeight + 60))
  else
    mkSize defaultWidth (Z.max minHeight contentHeight).

Definition calculateElkTopPadding (features : list string) : Z :=
  calculateContentHeight features + childGap.

(** *** Notions used in the statements *)

(** The section in which a content line is shown. *)
Definition isActionLine (f : string) : bool :=
  let lower := toLowerCase f in
  includes "action" lower || includes ":action" lower.

Definition isAttributeLine (f : string) : bool :=
  let lower := toLowerCase f in
  negb (isActionLine f)
  && (includes "attribute" lower || includes "attr" lower
      || negb (includes ":" f)).

Definition isPartLine (f : string) : bool :=
  negb (isActionLine f) && negb (isAttributeLine f).

(** The number of sections that have a line. *)
Definition sectionCountOf (c : FeatureCounts) : Z :=
  b2z (0 <? parts c) + b2z (0 <? attrs c) + b2z (0 <? actions c).

End Sizing.

(** ** nodes/SysMLNode.tsx: the sections of a node *)

Module SysMLNode.
Import JsString.

Record FeatureGroups := mkGroups {
  parts : list string;
  attributes : list string;
  actions : list string;
}.

(** The body of the loop of [groupFeatures]. *)
Definition groupFeature (groups : FeatureGroups) (f : string) : FeatureGroups :=
  let lower := toLowerCase f in
  if includes "action" lower || includes ":action" lower then
    mkGroups (parts groups) (attributes groups) (actions groups ++ [f])
  else if includes "attribute" lower || includes "attr" lower
          || negb (includes ":" f) then
    mkGroups (parts groups) (attributes groups ++ [f]) (actions groups)
  else
    mkGroups (parts groups ++ [f]) (attributes groups) (actions groups).

Definition groupFeatures (features : list string) : FeatureGroups :=
  fold_left groupFeature features (mkGroups [] [] []).

End SysMLNode.

(** ** Positions: [{ x, y }] *)

Record Position := mkPosition { pos_x : Q; pos_y : Q }.

(** ** layout/general-view.ts (with the input types of [types.ts]) *)

Module GeneralView.
Import JsString.

(** *** types.ts *)

Inductive Direction := DirIn | DirOut | DirInout.

Definition direction_text (d : Direction) : string :=
  match d with DirIn => "in" | DirOut => "out" | DirInout => "inout" end.

Record DiagramSymbol := mkSymbol {
  name : string;
  qualifiedName : string;
  nodeType : string;
  parent : option string;
  features : option (list string);
  typedBy : option string;
  direction : option Direction;
}.

Record DiagramRelationship := mkRelationship {
  rel_type : string;
  source : string;
  target : string;
  rel_label : option string;
  multiplicity : option string;
}.

Inductive ViewType :=
  GeneralViewT | InterconnectionView | ActionFlowView | StateTransitionView
| SequenceView.

Inductive ViewDirection := TB | BT | LR | RL.

Record ViewConfig := mkViewConfig {
  view_type : ViewType;
  view_direction : option ViewDirection;
  includeNodeTypes : option (list string);
  includeEdgeTypes : option (list string);
  showNesting : option bool;
}.

(** [!list || list.length === 0 ? true : list.includes(ty)] *)
Definition shouldShow (allow : option (list string)) (ty : string) : bool :=
  match allow with
  | None => true
  | Some [] => true
  | Some l => bool_decide (ty ∈ l)
  end.

Definition shouldShowNodeType (nodeType : string) (config : ViewConfig) : bool :=
  shouldShow (includeNodeTypes config) nodeType.

Definition shouldShowEdgeType (edgeType : string) (config : ViewConfig) : bool :=
  shouldShow (includeEdgeTypes config) edgeType.

(** *** The nodes and edges handed to React Flow *)

Record LayoutNodeData := mkData {
  d_name : string;
  d_qualifiedName : option string;
  d_features : option (list string);
  d_typedBy : option string;
  d_direction : option Direction;
}.

Record Style := mkStyle { style_width : option Z; style_height : option Z }.

Record Node := mkNode {
  id : string;
  type : string;
  position : Position;
  data : LayoutNodeData;
  style : option Style;
  measured : option Style;
  parentId : option string;
  extent : option string;
}.

Record Edge := mkEdge {
  edge_id : string;
  edge_source : string;
  edge_target : string;
  edge_type : option string;
  edge_label : option string;
}.

(** *** general-view.ts *)

Inductive NodeCategory := structural | property | port.

Definition getNodeCategory (nodeType : string) : NodeCategory :=
  if includes "Port" nodeType then port
  else if bool_decide
            (nodeType ∈ ["AttributeUsage"; "AttributeDef"; "ReferenceUsage";
                         "Feature"])
       then property
       else structural.

Definition toNodeId (qualifiedName : string) : string :=
  replace_colons qualifiedName.

(** [typedBy.split('::').pop()], as a template prints it *)
Definition lastSegment (typedBy : string) : string :=
  default "undefined" (pop (split_colons typedBy)).

(** The text of a property or port line:
    [name], then [direction + ' ' + text], then
    [text + ' : ' + typedBy.split('::').pop()]. *)
Definition lineText (symbol : DiagramSymbol) : string :=
  let text := name symbol in
  let text :=
    match direction symbol with
    | Some d => direction_text d +:+ " " +:+ text
    | None => text
    end in
  match typedBy symbol with
  | Some t => if truthy t then text +:+ " : " +:+ lastSegment t else text
  | None => text
  end.

(** [if (!map.has(p)) map.set(p, []); map.get(p).push(text)] *)
Definition pushLine (p text : string) (m : gmap string (list string))
  : gmap string (list string) :=
  <[p := default [] (m !! p) ++ [text]]> m.

(** The state of the first loop of [apply]. *)
Record Separated := mkSeparated {
  structuralSymbols : list DiagramSymbol;
  propertiesByParent : gmap string (list string);
  portsByParent : gmap string (list string);
}.

Definition separateStep (config : ViewConfig) (st : Separated)
  (symbol : DiagramSymbol) : Separated :=
  if negb (shouldShowNodeType (nodeType symbol) config) then st
  else
    match getNodeCategory (nodeType symbol) with
    | structural =>
        mkSeparated (structuralSymbols st ++ [symbol])
          (propertiesByParent st) (portsByParent st)
    | port =>
        match parent symbol with
        | Some p =>
            if truthy p
            then mkSeparated (structuralSymbols st) (propertiesByParent st)
                   (pushLine p (lineText symbol) (portsByParent st))
            else st
        | None => st
        end
    | property =>
        match parent symbol with
        | Some p =>
            if truthy p
            then mkSeparated (structuralSymbols st)
                   (pushLine p (lineText symbol) (propertiesByParent st))
                   (portsByParent st)
            else st
        | None => st
        end
    end.

Definition separate (config : ViewConfig) (symbols : list DiagramSymbol)
  : Separated :=
  fold_left (separateStep config) symbols (mkSeparated [] ∅ ∅).

Section Builder.

(** The values of the table [NODE_TYPES] of the package
    [@opensyster/diagram-core], which is not part of this repository. *)
Variable NODE_TYPES : list string.

Definition isValidNodeType (nodeType : string) : bool :=
  bool_decide (nodeType ∈ NODE_TYPES).

(** [symbol.parent ? this.toNodeId(symbol.parent) : undefined] *)
Definition parentIdOf (symbol : DiagramSymbol) : option string :=
  match parent symbol with
  | Some p => if truthy p then Some (toNodeId p) else None
  | None => None
  end.

(** The first loop of [buildNodes]: the ids that some symbol names as its
    parent. *)
Definition hasChildrenOf (symbols : list DiagramSymbol) : gset string :=
  fold_left
    (λ (acc : gset string) symbol,
       match parent symbol with
       | Some p => if truthy p then {[toNodeId p]} ∪ acc else acc
       | None => acc
       end)
    symbols ∅.

(** [[...properties, ...(ports.length > 0 ? ['---', ...ports] : []),
      ...(symbol.features || [])].filter(f => f)] *)
Definition allFeaturesOf (properties ports : list string)
  (symbol : DiagramSymbol) : list string :=
  List.filter truthy
    (properties
     ++ (if (0 <? length ports)%nat then "---" :: ports else [])
     ++ default [] (features symbol)).

Definition buildNode (nodeIds hasChildren : gset string)
  (propertiesByParent portsByParent : gmap string (list string))
  (symbol : DiagramSymbol) : Node :=
  let id := toNodeId (qualifiedName symbol) in
  let parentId := parentIdOf symbol in
  let nodeType :=
    if isValidNodeType (nodeType symbol) then nodeType symbol else "default" in
  let qn := qualifiedName symbol in
  let properties := default [] (propertiesByParent !! qn) in
  let ports := default [] (portsByParent !! qn) in
  let allFeatures := allFeaturesOf properties ports symbol in
  let isContainer := bool_decide (id ∈ hasChildren) in
  let size := Sizing.calculateNodeSize allFeatures isContainer in
  let linked :=
    match parentId with
    | Some p => truthy p && bool_decide (p ∈ nodeIds)
    | None => false
    end in
  mkNode id nodeType (mkPosition 0 0)
    (mkData (name symbol) (Some (qualifiedName symbol))
       (if (0 <? length allFeatures)%nat then Some allFeatures else None)
       (typedBy symbol) (direction symbol))
    (Some (mkStyle (Some (Sizing.width size)) (Some (Sizing.height size))))
    None
    (if linked then parentId else None)
    (if linked then Some "parent" else None).

Definition buildNodes (symbols : list DiagramSymbol)
  (propertiesByParent portsByParent : gmap string (list string))
  : list Node :=
  let nodeIds : gset string :=
    list_to_set (map (λ s, toNodeId (qualifiedName s)) symbols) in
  let hasChildren := hasChildrenOf symbols in
  map (buildNode nodeIds hasChildren propertiesByParent portsByParent) symbols.

(** The edge pushed for the relationship at index [i]. *)
Definition edgeOf (i : nat) (rel : DiagramRelationship) : Edge :=
  mkEdge ("edge_" +:+ pretty i) (toNodeId (source rel)) (toNodeId (target rel))
    (Some (rel_type rel)) (Some (rel_type rel)).

(** The loop of [buildEdges], from index [i] on. *)
Fixpoint buildEdgesFrom (i : nat) (relationships : list DiagramRelationship)
  (nodeIds : gset string) : list Edge :=
  match relationships with
  | [] => []
  | rel :: rest =>
      let sourceId := toNodeId (source rel) in
      let targetId := toNodeId (target rel) in
      if bool_decide (sourceId ∈ nodeIds) && bool_decide (targetId ∈ nodeIds)
      then edgeOf i rel :: buildEdgesFrom (S i) rest nodeIds
      else buildEdgesFrom (S i) rest nodeIds
  end.

Definition buildEdges (relationships : list DiagramRelationship)
  (nodes : list Node) : list Edge :=
  let nodeIds : gset string := list_to_set (map id nodes) in
  buildEdgesFrom 0 relationships nodeIds.

(** Steps 1 to 3 of [apply]: the nodes and the edges that are handed to the
    layout engine.  Step 4 awaits the engine, which moves and resizes the
    nodes, and returns the edges as they are. *)
Record Built := mkBuilt { nodes : list Node; edges : list Edge }.

Definition build (symbols : list DiagramSymbol)
  (relationships : list DiagramRelationship) (config : ViewConfig) : Built :=
  let st := separate config symbols in
  let nodes :=
    buildNodes (structuralSymbols st) (propertiesByParent st)
      (portsByParent st) in
  let filteredRelationships :=
    List.filter (λ r, shouldShowEdgeType (rel_type r) config) relationships in
  let edges := buildEdges filteredRelationships nodes in
  mkBuilt nodes edges.

End Builder.

(** *** Notions used in the statements *)

Definition isStructural (nodeType : string) : bool :=
  match getNodeCategory nodeType with structural => true | _ => false end.

(** The symbols that become nodes: shown by the view and structural. *)
Definition retained (config : ViewConfig) (s : DiagramSymbol) : bool :=
  shouldShowNodeType (nodeType s) config && isStructural (nodeType s).

Definition sameCategory (a b : NodeCategory) : bool :=
  match a, b with
  | structural, structural | property, property | port, port => true
  | _, _ => false
  end.

(** The symbols whose line goes to the parent [p]: shown by the view, of the
    category [cat], and declaring the non-empty parent [p]. *)
Definition childOf (config : ViewConfig) (cat : NodeCategory) (p : string)
  (s : DiagramSymbol) : bool :=
  shouldShowNodeType (nodeType s) config
  && sameCategory (getNodeCategory (nodeType s)) cat
  && truthy p
  && bool_decide (parent s = Some p).

Definition childLines (config : ViewConfig) (cat : NodeCategory) (p : string)
  (symbols : list DiagramSymbol) : list string :=
  map lineText (List.filter (childOf config cat p) symbols).

(** The decoding that undoes [toNodeId] on names without underscore. *)
Fixpoint fromNodeId (s : string) : string :=
  match s with
  | EmptyString => EmptyString
  | String c rest =>
      if bool_decide (c = underscore)
      then String colon (String colon (fromNodeId rest))
      else String c (fromNodeId rest)
  end.

(** The content lines shown in a node: [data.features], or none. *)
Definition content (n : Node) : list string :=
  default [] (d_features (data n)).

(** The line of a child in the words of the specification: the direction
    and a space when there is a direction, the name, and [" : "] with the
    last segment of [typedBy] when [typedBy] is there and not empty. *)
Definition specLine (s : DiagramSymbol) : string :=
  match direction s with
  | Some d => direction_text d +:+ " "
  | None => EmptyString
  end
  +:+ name s
  +:+ match typedBy s with
      | Some t => if truthy t then " : " +:+ lastSegment t else EmptyString
      | None => EmptyString
      end.

(** The merged content in the words of the specification: the property
    lines, then a separator and the port lines when there is a port, then
    the features the symbol came with. *)
Definition specMergedContent (config : ViewConfig)
  (symbols : list DiagramSymbol) (P : DiagramSymbol) : list string :=
  let properties := childLines config property (qualifiedName P) symbols in
  let ports := childLines config port (qualifiedName P) symbols in
  properties
  ++ match ports with [] => [] | _ => "---" :: ports end
  ++ default [] (features P).

End GeneralView.

(** ** layout/elk-layout.ts: the request sent to the layout engine *)

Module ElkLayout.
Import JsString GeneralView.

(** [ElkExtendedEdge], as far as the adapter fills it. *)
Record ElkEdge := mkElkEdge {
  ee_id : string;
  ee_sources : list string;
  ee_targets : list string;
}.

(** [ElkNode], as far as the adapter fills it; an absent property is [None]. *)
#[local] Unset Elimination Schemes.
Inductive ElkNode := mkElkNode {
  elk_id : string;
  elk_width : option Z;
  elk_height : option Z;
  elk_layoutOptions : option (list (string * string));
  elk_children : option (list ElkNode);
  elk_edges : option (list ElkEdge);
}.
#[local] Set Elimination Schemes.

(** The value of a key of a [Record<string, string>]. *)
Fixpoint optionOf (key : string) (o : list (string * string)) : option string :=
  match o with
  | [] => None
  | (k, v) :: rest => if bool_decide (k = key) then Some v else optionOf key rest
  end.

(** A number is truthy when it is not zero. *)
Definition truthyNumber (n : option Z) : option Z :=
  match n with
  | Some v => if (v =? 0)%Z then None else Some v
  | None => None
  end.

(** [(node.style?.width as number) || node.measured?.width || fallback] *)
Definition dimension (get : Style → option Z) (node : Node) (fallback : Z) : Z :=
  match truthyNumber (style node ≫= get) with
  | Some v => v
  | None => default fallback (truthyNumber (measured node ≫= get))
  end.

(** The first loop of [buildElkGraph]: the nodes by [parentId]. *)
Definition addChild (childrenMap : gmap (option string) (list Node))
  (node : Node) : gmap (option string) (list Node) :=
  <[parentId node := default [] (childrenMap !! parentId node) ++ [node]]>
    childrenMap.

Definition childrenMapOf (nodes : list Node)
  : gmap (option string) (list Node) :=
  fold_left addChild nodes ∅.

(** [`[top=${topPadding},left=20,bottom=30,right=20]`] *)
Definition containerPadding (topPadding : Z) : string :=
  "[top=" +:+ pretty topPadding +:+ ",left=20,bottom=30,right=20]".

Definition containerLayoutOptions (topPadding : Z) : list (string * string) :=
  [("elk.algorithm", "rectpacking");
   ("elk.spacing.nodeNode", "30");
   ("elk.padding", containerPadding topPadding);
   ("elk.rectpacking.widthApproximation.targetWidth", "600");
   ("elk.nodeSize.constraints", "MINIMUM_SIZE")].

(** [buildElkNode] calls itself on the children of the node; [fuel] bounds
    the depth of the calls, and [None] is a recursion deeper than [fuel]. *)
Fixpoint buildElkNode (fuel : nat)
  (childrenMap : gmap (option string) (list Node)) (node : Node)
  : option ElkNode :=
  match fuel with
  | O => None
  | S fuel' =>
      let children := default [] (childrenMap !! Some (id node)) in
      let width := dimension style_width node 180 in
      let height := dimension style_height node 80 in
      let features := default [] (d_features (data node)) in
      let topPadding := Sizing.calculateElkTopPadding features in
      if (0 <? length children)%nat then
        kids ← mapM (buildElkNode fuel' childrenMap) children;
        Some (mkElkNode (id node) (Some width) (Some height)
                (Some (containerLayoutOptions topPadding)) (Some kids) None)
      else
        Some (mkElkNode (id node) (Some width) (Some height) None None None)
  end.

Definition buildElkGraph (fuel : nat) (nodes : list Node) (edges : list Edge)
  (options : list (string * string)) : option ElkNode :=
  let childrenMap := childrenMapOf nodes in
  let rootNodes := default [] (childrenMap !! None) in
  elkChildren ← mapM (buildElkNode fuel childrenMap) rootNodes;
  let nodeIds : gset string := list_to_set (map id nodes) in
  let elkEdges :=
    map (λ edge, mkElkEdge (edge_id edge) [edge_source edge] [edge_target edge])
      (List.filter
         (λ e, bool_decide (edge_source e ∈ nodeIds)
               && bool_decide (edge_target e ∈ nodeIds))
         edges) in
  Some (mkElkNode "root" None None (Some options) (Some elkChildren)
          (Some elkEdges)).

(** *** applyElkLayout: the options of the engine *)

Definition DEFAULT_OPTIONS : list (string * string) :=
  [("elk.algorithm", "layered");
   ("elk.direction", "DOWN");
   ("elk.spacing.nodeNode", "40");
   ("elk.spacing.edgeNode", "20");
   ("elk.layered.spacing.nodeNodeBetweenLayers", "60");
   ("elk.layered.spacing.edgeNodeBetweenLayers", "20");
   ("elk.hierarchyHandling", "INCLUDE_CHILDREN");
   ("elk.padding", "[top=20,left=20,bottom=20,right=20]");
   ("elk.layered.crossingMinimization.strategy", "LAYER_SWEEP");
   ("elk.layered.nodePlacement.strategy", "NETWORK_SIMPLEX");
   ("elk.separateConnectedComponents", "true");
   ("elk.aspectRatio", "1.6");
   ("elk.layered.wrapping.strategy", "MULTI_EDGE");
   ("elk.layered.wrapping.additionalEdgeSpacing", "20")].

Inductive ElkDirection := DOWN | RIGHT | UP | LEFT.

Definition elkDirection_text (d : ElkDirection) : string :=
  match d with
  | DOWN => "DOWN" | RIGHT => "RIGHT" | UP => "UP" | LEFT => "LEFT"
  end.

(** [ElkLayoutOptions].  A property that is absent and one that is
    [undefined] are both falsy in the tests of [applyElkLayout], and both
    are [None].  The spacings and the padding are whole numbers: a number
    with a fraction has no counterpart here.  [String] prints a whole number
    in full decimal, as [pretty] does, as long as it is a safe integer (at
    most 2^53 - 1 in absolute value, see [safeInteger]); beyond that
    [String] rounds, and from 10^21 on it prints an exponent: the
    statements about the printed options are made for safe integers. *)
Record ElkLayoutOptions := mkElkLayoutOptions {
  o_algorithm : option string;
  o_direction : option ElkDirection;
  o_nodeSpacing : option Z;
  o_layerSpacing : option Z;
  o_padding : option Z;
}.

(** [o[key] = value]: the value of a key that is there is replaced in
    place, a new key goes to the end. *)
Fixpoint setOption (key value : string) (o : list (string * string))
  : list (string * string) :=
  match o with
  | [] => [(key, value)]
  | (k, v) :: rest =>
      if bool_decide (k = key) then (k, value) :: rest
      else (k, v) :: setOption key value rest
  end.

(** [`[top=${p},left=${p},bottom=${p},right=${p}]`] *)
Definition uniformPadding (p : Z) : string :=
  "[top=" +:+ pretty p +:+ ",left=" +:+ pretty p +:+ ",bottom="
  +:+ pretty p +:+ ",right=" +:+ pretty p +:+ "]".

(** The options that [applyElkLayout] builds from the user's. *)
Definition elkOptionsOf (options : ElkLayoutOptions)
  : list (string * string) :=
  let elkOptions := DEFAULT_OPTIONS in
  let elkOptions :=
    match o_algorithm options with
    | Some a =>
        if truthy a then setOption "elk.algorithm" a elkOptions
        else elkOptions
    | None => elkOptions
    end in
  let elkOptions :=
    match o_direction options with
    | Some d => setOption "elk.direction" (elkDirection_text d) elkOptions
    | None => elkOptions
    end in
  let elkOptions :=
    match truthyNumber (o_nodeSpacing options) with
    | Some n => setOption "elk.spacing.nodeNode" (pretty n) elkOptions
    | None => elkOptions
    end in
  let elkOptions :=
    match truthyNumber (o_layerSpacing options) with
    | Some n =>
        setOption "elk.layered.spacing.nodeNodeBetweenLayers" (pretty n)
          elkOptions
    | None => elkOptions
    end in
  match truthyNumber (o_padding options) with
  | Some p => setOption "elk.padding" (uniformPadding p) elkOptions
  | None => elkOptions
  end.

(** *** applyLayoutToNodes *)

(** An [ElkNode] as the engine returns it: the coordinates and the size may
    be absent; [children] is the list [elkNode.children || []]; the sizes
    are integers, as in [Style]. *)
#[local] Unset Elimination Schemes.
Inductive LaidOutNode := mkLaidOut {
  lo_id : string;
  lo_x : option Q;
  lo_y : option Q;
  lo_width : option Z;
  lo_height : option Z;
  lo_children : list LaidOutNode;
}.
#[local] Set Elimination Schemes.

(** An entry of [positionMap]. *)
Record Placed := mkPlaced {
  p_x : Q;
  p_y : Q;
  p_width : option Z;
  p_height : option Z;
}.

Definition placedOf (e : LaidOutNode) : Placed :=
  mkPlaced (default 0%Q (lo_x e)) (default 0%Q (lo_y e)) (lo_width e)
    (lo_height e).

Fixpoint collectPositions (elkNode : LaidOutNode)
  (positionMap : gmap string Placed) : gmap string Placed :=
  let positionMap :=
    if bool_decide (lo_id elkNode = "root") then positionMap
    else <[lo_id elkNode := placedOf elkNode]> positionMap in
  fold_left (λ m child, collectPositions child m) (lo_children elkNode)
    positionMap.

(** [{ ...node.style, ...(pos.width && { width }), ...(pos.height && { height }) }] *)
Definition placedStyle (old : option Style) (pos : Placed) : Style :=
  let base := default (mkStyle None None) old in
  mkStyle
    (match truthyNumber (p_width pos) with
     | Some w => Some w
     | None => style_width base
     end)
    (match truthyNumber (p_height pos) with
     | Some h => Some h
     | None => style_height base
     end).

Definition placeNode (positionMap : gmap string Placed) (node : Node) : Node :=
  match positionMap !! id node with
  | None => node
  | Some pos =>
      mkNode (id node) (type node) (mkPosition (p_x pos) (p_y pos))
        (data node) (Some (placedStyle (style node) pos)) (measured node)
        (parentId node) (extent node)
  end.

Definition applyLayoutToNodes (nodes : list Node) (layoutedGraph : LaidOutNode)
  : list Node :=
  let positionMap := collectPositions layoutedGraph ∅ in
  map (placeNode positionMap) nodes.

(** *** applyElkLayout *)

(** [elk.layout] is the engine, which is not part of this repository:
    [None] is a rejected promise.  A recursion of [buildElkNode] deeper
    than [fuel] rejects as well. *)
Definition applyElkLayout (engine : ElkNode → option LaidOutNode)
  (fuel : nat) (nodes : list Node) (edges : list Edge)
  (options : ElkLayoutOptions) : option (list Node) :=
  match nodes with
  | [] => Some nodes
  | _ :: _ =>
      elkGraph ← buildElkGraph fuel nodes edges (elkOptionsOf options);
      layoutedGraph ← engine elkGraph;
      Some (applyLayoutToNodes nodes layoutedGraph)
  end.

(** *** Notions used in the statements *)

(** The padding of a container in the notation of the engine. *)
Definition elkPadding (top left bottom right : Z) : string :=
  "[top=" +:+ pretty top +:+ ",left=" +:+ pretty left +:+ ",bottom="
  +:+ pretty bottom +:+ ",right=" +:+ pretty right +:+ "]".

(** The nodes of a request: the node itself and the nodes of its children. *)
Inductive nodeOf : ElkNode → ElkNode → Prop :=
| nodeOf_here e : nodeOf e e
| nodeOf_child e c kids e' :
    elk_children e = Some kids → c ∈ kids → nodeOf e' c → nodeOf e' e.

(** The nodes of a list under a parent: those whose [parentId] is [parent]
    ([None] for the nodes without one), in the order of the list. *)
Definition nodesUnder (parent : option string) (nodes : list Node)
  : list Node :=
  List.filter (λ n, bool_decide (parentId n = parent)) nodes.

Definition childrenOf (childrenMap : gmap (option string) (list Node))
  (node : Node) : list Node :=
  default [] (childrenMap !! Some (id node)).

(** A chain of recursive calls of [buildElkNode] below a node: a child of
    the node, a child of that child, and so on. *)
Inductive descends (childrenMap : gmap (option string) (list Node))
  : Node → list Node → Prop :=
| descends_nil x : descends childrenMap x []
| descends_cons x c l :
    c ∈ childrenOf childrenMap x → descends childrenMap c l →
    descends childrenMap x (c :: l).

(** The nodes of an answer of the engine, parents before children, in the
    order in which [collectPositions] meets them. *)
Fixpoint laidOutNodes (e : LaidOutNode) : list LaidOutNode :=
  e :: flat_map laidOutNodes (lo_children e).

(** [Number.isSafeInteger]: the whole numbers that [String] prints in full
    decimal. *)
Definition safeInteger (n : Z) : Prop :=
  (- (2 ^ 53 - 1) ≤ n ≤ 2 ^ 53 - 1)%Z.

(** Options whose spacings and padding, where given, are safe integers. *)
Definition safeOptions (options : ElkLayoutOptions) : Prop :=
  (∀ n, o_nodeSpacing options = Some n → safeInteger n) ∧
  (∀ n, o_layerSpacing options = Some n → safeInteger n) ∧
  (∀ n, o_padding options = Some n → safeInteger n).

(** The answer node [e] gives a position to the id [k]. *)
Definition placesId (k : string) (e : LaidOutNode) : bool :=
  bool_decide (lo_id e = k) && negb (bool_decide (lo_id e = "root")).

(** The entry of an id after a walk: the last answer node that places the
    id, in the order of the walk. *)
Definition entryAfter (k : string) (walk : list LaidOutNode)
  (before : option Placed) : option Placed :=
  match last (List.filter (placesId k) walk) with
  | Some e => Some (placedOf e)
  | None => before
  end.

(** Two nodes that differ in [position] and [style] at most. *)
Definition samePlacedNode (n n' : Node) : Prop :=
  id n' = id n ∧ type n' = type n ∧ data n' = data n ∧
  measured n' = measured n ∧ parentId n' = parentId n ∧ extent n' = extent n.

(** The edge of the request for an edge of the graph. *)
Definition elkEdgeOf (edge : Edge) : ElkEdge :=
  mkElkEdge (edge_id edge) [edge_source edge] [edge_target edge].

End ElkLayout.

(** ** layout/general-view.ts: [apply], with the engine *)

Module GeneralViewApply.
Import GeneralView ElkLayout.

(** The options with which [apply] calls [applyElkLayout]. *)
Definition applyOptions : ElkLayoutOptions :=
  mkElkLayoutOptions (Some "layered") (Some DOWN) (Some 60%Z) (Some 80%Z)
    (Some 40%Z).

(** [GeneralViewLayout.apply]: the graph is built, the engine places the
    nodes, the edges are returned as built. *)
Definition apply (NODE_TYPES : list string)
  (engine : ElkNode → option LaidOutNode) (fuel : nat)
  (symbols : list DiagramSymbol) (relationships : list DiagramRelationship)
  (config : ViewConfig) : option Built :=
  let g := build NODE_TYPES symbols relationships config in
  layoutedNodes ←
    applyElkLayout engine fuel (nodes g) (edges g) applyOptions;
  Some (mkBuilt layoutedNodes (edges g)).

End GeneralViewApply.

(** ** views/layoutUtils.ts: level layout and grid layout *)

Module LayoutUtils.
Local Open Scope nat_scope.

(** [DiagramEdge] *)
Record DiagramEdge := mkDiagramEdge {
  e_id : string;
  e_source : string;
  e_target : string;
  e_type : option string;
  e_label : option string;
}.

Inductive LayoutDirection := TB | LR.

(** An optional property of an object: absent, present with the value
    [undefined], or present with a value.  The two first differ under a
    spread: an absent property leaves what is there, an [undefined] one
    replaces it. *)
Inductive Given (A : Type) : Type :=
| Absent
| Undefined
| Value (a : A).

Arguments Absent {A}.
Arguments Undefined {A}.
Arguments Value {A} a.

Record LayoutOptions := mkLayoutOptions {
  nodeWidth : Given Q;
  nodeHeight : Given Q;
  horizontalGap : Given Q;
  verticalGap : Given Q;
  direction : Given LayoutDirection;
}.

(** The object [{ ...DEFAULT_OPTIONS, ...opts }]: every property is present;
    [None] is the value [undefined]. *)
Record ResolvedOptions := mkResolved {
  r_nodeWidth : option Q;
  r_nodeHeight : option Q;
  r_horizontalGap : option Q;
  r_verticalGap : option Q;
  r_direction : option LayoutDirection;
}.

Definition DEFAULT_OPTIONS : ResolvedOptions :=
  mkResolved (Some 160%Q) (Some 80%Q) (Some 80%Q) (Some 100%Q) (Some TB).

(** One property of [{ ...defaults, ...opts }]. *)
Definition spread {A : Type} (dflt : option A) (given : Given A) : option A :=
  match given with
  | Absent => dflt
  | Undefined => None
  | Value a => Some a
  end.

(** [{ ...DEFAULT_OPTIONS, ...opts }]: an option that [opts] does not have
    keeps its default; one that it has with the value [undefined] is
    [undefined]. *)
Definition resolve (opts : LayoutOptions) : ResolvedOptions :=
  mkResolved
    (spread (r_nodeWidth DEFAULT_OPTIONS) (nodeWidth opts))
    (spread (r_nodeHeight DEFAULT_OPTIONS) (nodeHeight opts))
    (spread (r_horizontalGap DEFAULT_OPTIONS) (horizontalGap opts))
    (spread (r_verticalGap DEFAULT_OPTIONS) (verticalGap opts))
    (spread (r_direction DEFAULT_OPTIONS) (direction opts)).

(** The numbers of the layouts: a rational, or [NaN], which is [None] and
    is what arithmetic makes of [undefined].  The arithmetic is that of the
    rationals.  The code computes in doubles, which round and overflow:
    the two agree as long as every intermediate result is a whole number or
    a half below 2^53, which is so for the spacings of [exactSpacing] and
    arrays of any length (below 2^32); the statements about coordinates are
    made for these spacings. *)
Definition Num : Type := option Q.

Definition lift2 (f : Q → Q → Q) (a b : Num) : Num :=
  match a, b with
  | Some x, Some y => Some (f x y)
  | _, _ => None
  end.

Definition nadd : Num → Num → Num := lift2 Qplus.
Definition nsub : Num → Num → Num := lift2 Qminus.
Definition nmul : Num → Num → Num := lift2 Qmult.
Definition ndiv : Num → Num → Num := lift2 Qdiv.

(** [{ x, y }] *)
Record Point := mkPoint { pt_x : Num; pt_y : Num }.

(** *** buildGraph *)

Definition addEdge (graph : gmap string (list string)) (edge : DiagramEdge)
  : gmap string (list string) :=
  <[e_source edge := default [] (graph !! e_source edge) ++ [e_target edge]]>
    graph.

Definition buildGraph (edges : list DiagramEdge) : gmap string (list string) :=
  fold_left addEdge edges ∅.

(** [graph.get(id) ?? []] *)
Definition neighborsOf (graph : gmap string (list string)) (id : string)
  : list string :=
  default [] (graph !! id).

(** *** The breadth-first loop of [calculateLevels] *)

(** The body of the inner loop, on the levels and the queue. *)
Definition visit (level : nat)
  (st : gmap string nat * list (string * nat)) (neighbor : string)
  : gmap string nat * list (string * nat) :=
  match st.1 !! neighbor with
  | Some _ => st
  | None => (<[neighbor := S level]> st.1, st.2 ++ [(neighbor, S level)])
  end.

(** The loop [while (queue.length > 0)]: one step takes the head of the
    queue and visits its neighbours. *)
Inductive whileQueue (graph : gmap string (list string))
  : list (string * nat) → gmap string nat → gmap string nat → Prop :=
| whileQueue_done levels : whileQueue graph [] levels levels
| whileQueue_step id level rest levels st result :
    fold_left (visit level) (neighborsOf graph id) (levels, rest) = st →
    whileQueue graph st.2 st.1 result →
    whileQueue graph ((id, level) :: rest) levels result.

(** The loop as a function: [fuel] bounds the number of iterations; the
    loop is cut when it is used up. *)
Fixpoint bfs (fuel : nat) (graph : gmap string (list string))
  (queue : list (string * nat)) (levels : gmap string nat)
  : gmap string nat :=
  match queue, fuel with
  | [], _ => levels
  | _ :: _, O => levels
  | (id, level) :: rest, S fuel' =>
      let st := fold_left (visit level) (neighborsOf graph id) (levels, rest) in
      bfs fuel' graph st.2 st.1
  end.

(** [Math.max(0, ...levels.values())] *)
Definition maxLevelOf (levels : gmap string nat) : nat :=
  max_list (map snd (map_to_list levels)).

Section Nodes.

(** [DiagramNode] belongs to the package [@opensyster/diagram-core]: [Data]
    is the type of its [data], [Rest] holds its properties other than [id],
    [type], [position] and [data]. *)
Context {Data Rest : Type}.

Record DiagramNode := mkDiagramNode {
  n_id : string;
  n_type : option string;
  n_position : option Point;
  n_data : Data;
  n_rest : Rest;
}.

(** [{ ...node, position }] *)
Definition withPosition (p : Point) (node : DiagramNode) : DiagramNode :=
  mkDiagramNode (n_id node) (n_type node) (Some p) (n_data node) (n_rest node).

(** *** calculateLevels *)

Definition hasIncomingOf (edges : list DiagramEdge) : gset string :=
  list_to_set (map e_target edges).

(** [startNodeIds ?? nodes.filter(n => !hasIncoming.has(n.id)).map(n => n.id)] *)
Definition startsOf (nodes : list DiagramNode) (edges : list DiagramEdge)
  (startNodeIds : option (list string)) : list string :=
  match startNodeIds with
  | Some ids => ids
  | None =>
      map n_id
        (List.filter (λ n, negb (bool_decide (n_id n ∈ hasIncomingOf edges)))
           nodes)
  end.

(** [nodes.forEach(n => { if (!levels.has(n.id)) levels.set(n.id, maxLevel) })] *)
Definition assignUnvisited (maxLevel : nat) (levels : gmap string nat)
  (n : DiagramNode) : gmap string nat :=
  match levels !! n_id n with
  | Some _ => levels
  | None => <[n_id n := maxLevel]> levels
  end.

(** The loop runs at most once for each start and once for each id that
    some edge points to: that many iterations are granted, and the loop is
    never cut. *)
Definition calculateLevels (nodes : list DiagramNode)
  (edges : list DiagramEdge) (startNodeIds : option (list string))
  : gmap string nat :=
  let graph := buildGraph edges in
  let hasIncoming := hasIncomingOf edges in
  let starts := startsOf nodes edges startNodeIds in
  let queue := map (λ id, (id, 0)) starts in
  let levels := fold_left (λ lv id, <[id := 0]> lv) starts ∅ in
  let levels := bfs (length queue + size hasIncoming) graph queue levels in
  let maxLevel := maxLevelOf levels in
  fold_left (assignUnvisited maxLevel) nodes levels.

(** *** applyLevelLayout *)

(** [levelNodes.indexOf(node)] looks for the object [node].  Here an object
    is named by its index in [nodes], and a group of [byLevel] is the list
    of the indices of its nodes: this is the [indexOf] of the code when the
    objects of the array are distinct, as they are when no two nodes of the
    list are equal.  For an object that is in the array twice the code
    finds its first occurrence both times; the statements about the places
    in a row are made for lists without repetition. *)
Fixpoint indexOf (x : nat) (l : list nat) : Z :=
  match l with
  | [] => (-1)%Z
  | y :: rest =>
      if bool_decide (y = x) then 0%Z
      else let i := indexOf x rest in if (i <? 0)%Z then (-1)%Z else (i + 1)%Z
  end.

Definition levelOf (levels : gmap string nat) (n : DiagramNode) : nat :=
  default 0 (levels !! n_id n).

(** The loop that groups the nodes by level, from the node of index [i] on. *)
Fixpoint groupByLevel (levels : gmap string nat) (i : nat)
  (nodes : list DiagramNode) (byLevel : gmap nat (list nat))
  : gmap nat (list nat) :=
  match nodes with
  | [] => byLevel
  | n :: rest =>
      let lvl := levelOf levels n in
      groupByLevel levels (S i) rest
        (<[lvl := default [] (byLevel !! lvl) ++ [i]]> byLevel)
  end.

Definition ofNat (n : nat) : Q := inject_Z (Z.of_nat n).

(** [direction === 'TB' ? { x, y } : { x: y, y: x }]: every direction other
    than ['TB'], [undefined] too, exchanges the coordinates. *)
Definition levelPosition (o : ResolvedOptions) (levels : gmap string nat)
  (byLevel : gmap nat (list nat)) (i : nat) (node : DiagramNode) : Point :=
  let level := levelOf levels node in
  let levelNodes := default [] (byLevel !! level) in
  let index : Num := Some (inject_Z (indexOf i levelNodes)) in
  let len : Num := Some (ofNat (length levelNodes)) in
  let totalWidth :=
    nadd (nmul len (r_nodeWidth o))
      (nmul (nsub len (Some 1%Q)) (r_horizontalGap o)) in
  let x :=
    nadd
      (nsub (nmul index (nadd (r_nodeWidth o) (r_horizontalGap o)))
         (ndiv totalWidth (Some 2%Q)))
      (Some 300%Q) in
  let y :=
    nadd (nmul (Some (ofNat level)) (nadd (r_nodeHeight o) (r_verticalGap o)))
      (Some 50%Q) in
  match r_direction o with
  | Some TB => mkPoint x y
  | _ => mkPoint y x
  end.

Definition applyLevelLayout (nodes : list DiagramNode)
  (edges : list DiagramEdge) (opts : LayoutOptions) : list DiagramNode :=
  let o := resolve opts in
  let levels := calculateLevels nodes edges None in
  let byLevel := groupByLevel levels 0 nodes ∅ in
  imap (λ i node, withPosition (levelPosition o levels byLevel i node) node)
    nodes.

(** *** applyGridLayout *)

(** [Math.ceil(Math.sqrt(n))] for the length [n] of an array: [n] is an
    integer below 2^32, where the rounded square root is an integer exactly
    when [n] is a square; so the ceiling is the integer square root, plus
    one when [n] is not a square. *)
Definition ceilSqrt (n : nat) : nat :=
  let r := Nat.sqrt n in
  if (r * r =? n)%nat then r else S r.

Definition gridPosition (o : ResolvedOptions) (columns i : nat) : Point :=
  mkPoint
    (nmul (Some (ofNat (i mod columns)))
       (nadd (r_nodeWidth o) (r_horizontalGap o)))
    (nmul (Some (ofNat (i / columns)))
       (nadd (r_nodeHeight o) (r_verticalGap o))).

Definition applyGridLayout (nodes : list DiagramNode) (opts : LayoutOptions)
  : list DiagramNode :=
  let o := resolve opts in
  let columns := ceilSqrt (length nodes) in
  imap (λ i node, withPosition (gridPosition o columns i) node) nodes.

(** *** Notions used in the statements *)

(** The levels when the loop of [calculateLevels] has ended. *)
Definition traversed (nodes : list DiagramNode) (edges : list DiagramEdge)
  (startNodeIds : option (list string)) : gmap string nat :=
  let starts := startsOf nodes edges startNodeIds in
  let queue := map (λ id, (id, 0)) starts in
  bfs (length queue + size (hasIncomingOf edges)) (buildGraph edges) queue
    (fold_left (λ lv id, <[id := 0]> lv) starts ∅).

(** Two nodes that agree on every property other than [position]. *)
Definition sameButPosition (n n' : DiagramNode) : Prop :=
  n_id n' = n_id n ∧ n_type n' = n_type n ∧ n_data n' = n_data n ∧
  n_rest n' = n_rest n.

(** The options with the direction set. *)
Definition withDirection (d : LayoutDirection) (opts : LayoutOptions)
  : LayoutOptions :=
  mkLayoutOptions (nodeWidth opts) (nodeHeight opts) (horizontalGap opts)
    (verticalGap opts) (Value d).

(** The options with the direction present and [undefined]. *)
Definition withoutDirection (opts : LayoutOptions) : LayoutOptions :=
  mkLayoutOptions (nodeWidth opts) (nodeHeight opts) (horizontalGap opts)
    (verticalGap opts) Undefined.

(** The node with the coordinates of its position exchanged. *)
Definition transposed (n : DiagramNode) : DiagramNode :=
  match n_position n with
  | Some p => withPosition (mkPoint (pt_y p) (pt_x p)) n
  | None => n
  end.

(** The options [{}], and the argument that is left out. *)
Definition noOptions : LayoutOptions :=
  mkLayoutOptions Absent Absent Absent Absent Absent.

(** Spacings for which the arithmetic of the code is exact: the four are
    the whole numbers [w], [h], [g] and [v], of at most 65536 in absolute
    value. *)
Definition exactSpacing (o : ResolvedOptions) (w h g v : Z) : Prop :=
  r_nodeWidth o = Some (inject_Z w) ∧ r_nodeHeight o = Some (inject_Z h) ∧
  r_horizontalGap o = Some (inject_Z g) ∧
  r_verticalGap o = Some (inject_Z v) ∧
  Forall (λ z, (Z.abs z ≤ 65536)%Z) [w; h; g; v].

(** The coordinate across the levels of the place [rank] in a row of [len]
    nodes, and the coordinate along the levels of a level. *)
Definition rowAcross (w g : Z) (rank len : nat) : Q :=
  (ofNat rank * (inject_Z w + inject_Z g)
   - (ofNat len * inject_Z w + (ofNat len - 1) * inject_Z g) / 2 + 300)%Q.

Definition levelAlong (h v : Z) (level : nat) : Q :=
  (ofNat level * (inject_Z h + inject_Z v) + 50)%Q.

End Nodes.

Arguments DiagramNode : clear implicits.

(** *** categorizeNodes *)

Section Categorize.

Context {Data Rest : Type}.

(** [Record<T, (node) => boolean>]: the entries of the object, in the
    order of [Object.keys] and [Object.entries]. *)
Definition Categories : Type :=
  list (string * (DiagramNode Data Rest → bool)).

(** [result[key].push(node)]; every key that is pushed to has been set to
    an array before. *)
Definition pushTo (key : string) (node : DiagramNode Data Rest)
  (result : gmap string (list (DiagramNode Data Rest)))
  : gmap string (list (DiagramNode Data Rest)) :=
  <[key := default [] (result !! key) ++ [node]]> result.

(** The inner loop: the key of the first entry whose matcher accepts the
    node, where the loop breaks. *)
Fixpoint firstMatch (entries : Categories) (node : DiagramNode Data Rest)
  : option string :=
  match entries with
  | [] => None
  | (key, matcher) :: rest =>
      if matcher node then Some key else firstMatch rest node
  end.

Definition categorizeStep (categories : Categories)
  (result : gmap string (list (DiagramNode Data Rest)))
  (node : DiagramNode Data Rest)
  : gmap string (list (DiagramNode Data Rest)) :=
  match firstMatch categories node with
  | Some key => pushTo key node result
  | None => pushTo "other" node result
  end.

Definition categorizeNodes (nodes : list (DiagramNode Data Rest))
  (categories : Categories)
  : gmap string (list (DiagramNode Data Rest)) :=
  let result := <["other" := []]> ∅ in
  let result :=
    fold_left (λ r k, <[k := []]> r) (map fst categories) result in
  fold_left (categorizeStep categories) nodes result.

(** The bucket a node goes to. *)
Definition bucketOf (categories : Categories) (node : DiagramNode Data Rest)
  : string :=
  default "other" (firstMatch categories node).

End Categorize.

(** *** stripEdgeLabels and stripNodeData *)

(** [{ ...e, label: undefined }] *)
Definition stripEdgeLabels (edges : list DiagramEdge) : list DiagramEdge :=
  map (λ e, mkDiagramEdge (e_id e) (e_source e) (e_target e) (e_type e) None)
    edges.

(** [data] is an object here: the list of its entries, in the order of
    [Object.entries]. *)
Definition stripNodeData {V Rest : Type}
  (nodes : list (DiagramNode (list (string * V)) Rest)) (keys : list string)
  : list (DiagramNode (list (string * V)) Rest) :=
  map (λ node,
         mkDiagramNode (n_id node) (n_type node) (n_position node)
           (List.filter (λ kv, negb (bool_decide (kv.1 ∈ keys))) (n_data node))
           (n_rest node))
    nodes.

(** The nodes of a list that have a level, and the rank of a node in its
    row: the number of nodes of its level before it. *)
Definition rowOf {Data Rest : Type} (levels : gmap string nat) (level : nat)
  (nodes : list (DiagramNode Data Rest)) : list (DiagramNode Data Rest) :=
  List.filter (λ n, bool_decide (levelOf levels n = level)) nodes.

Definition rankOf {Data Rest : Type} (levels : gmap string nat) (i : nat)
  (nodes : list (DiagramNode Data Rest)) (n : DiagramNode Data Rest) : nat :=
  length (rowOf levels (levelOf levels n) (take i nodes)).

(** The indices of the nodes of a level, for a list whose first node has
    the index [i]. *)
Fixpoint rowIndices {Data Rest : Type} (levels : gmap string nat)
  (level i : nat) (nodes : list (DiagramNode Data Rest)) : list nat :=
  match nodes with
  | [] => []
  | n :: rest =>
      (if bool_decide (levelOf levels n = level) then [i] else [])
      ++ rowIndices levels level (S i) rest
  end.

(** Some edge goes from [u] to [v]. *)
Definition adjacent (edges : list DiagramEdge) (u v : string) : Prop :=
  ∃ e, e ∈ edges ∧ e_source e = u ∧ e_target e = v.

(** [hops edges n r v]: [v] is [n] edge hops away from [r]. *)
Inductive hops (edges : list DiagramEdge) : nat → string → string → Prop :=
| hops_O r : hops edges 0 r r
| hops_S n r u v :
    hops edges n r u → adjacent edges u v → hops edges (S n) r v.

(** [v] is [n] edge hops away from some root. *)
Definition reaches (edges : list DiagramEdge) (roots : list string)
  (n : nat) (v : string) : Prop :=
  ∃ r, r ∈ roots ∧ hops edges n r v.

(** The ids the traversal is to start from: the ids that are supplied, or,
    when none is supplied, the ids of the nodes that no edge points to. *)
Definition isStart {Data Rest : Type} (nodes : list (DiagramNode Data Rest))
  (edges : list DiagramEdge) (startNodeIds : option (list string))
  (r : string) : Prop :=
  match startNodeIds with
  | Some ids => r ∈ ids
  | None => ∃ n, n ∈ nodes ∧ n_id n = r ∧ ∀ e, e ∈ edges → e_target e ≠ r
  end.

(** [v] is [n] edge hops away from an id that satisfies [start]. *)
Definition reachesFrom (edges : list DiagramEdge) (start : string → Prop)
  (n : nat) (v : string) : Prop :=
  ∃ r, start r ∧ hops edges n r v.

(** The levels after the neighbours [ws] of a node of level [level] have
    been visited, and the entries pushed on the queue meanwhile. *)
Fixpoint levelsAfter (level : nat) (ws : list string)
  (levels : gmap string nat) : gmap string nat :=
  match ws with
  | [] => levels
  | w :: ws =>
      match levels !! w with
      | Some _ => levelsAfter level ws levels
      | None => levelsAfter level ws (<[w := S level]> levels)
      end
  end.

Fixpoint pushedBy (level : nat) (ws : list string)
  (levels : gmap string nat) : list (string * nat) :=
  match ws with
  | [] => []
  | w :: ws =>
      match levels !! w with
      | Some _ => pushedBy level ws levels
      | None => (w, S level) :: pushedBy level ws (<[w := S level]> levels)
      end
  end.

(** The levels in the map are lengths of paths from a root; the queue is
    sorted by level and holds the ids whose neighbours are still to be
    visited; no level in the map exceeds that of a queue entry by more than
    one. *)
Record Inv (edges : list DiagramEdge) (roots : list string)
  (queue : list (string * nat)) (levels : gmap string nat) : Prop := mkInv {
  inv_sound : ∀ v l, levels !! v = Some l → reaches edges roots l v;
  inv_queue : ∀ v l, (v, l) ∈ queue → levels !! v = Some l;
  inv_sorted : StronglySorted (λ a b : string * nat, (a.2 ≤ b.2)%nat) queue;
  inv_bound :
    ∀ v l w m, (v, l) ∈ queue → levels !! w = Some m → (m ≤ S l)%nat;
  inv_closed :
    ∀ v l, levels !! v = Some l →
      (v, l) ∈ queue ∨
      ∀ w, adjacent edges v w → ∃ m, levels !! w = Some m ∧ (m ≤ S l)%nat;
  inv_roots : ∀ r, r ∈ roots → levels !! r = Some 0;
}.

End LayoutUtils.

(** ** views/ViewRenderer.tsx: the view that is handed to the frame *)

Module ViewRenderer.
Import LayoutUtils.

Section Renderer.

(** [VIEW_TYPES] belongs to the package [@opensyster/diagram-core]; the
    cases [ACTION_FLOW], [STATE_TRANSITION] and [GENERAL] of
    [getLayoutForViewType] fall through to its default. *)
Variables INTERCONNECTION STATE_TRANSITION GENERAL : string.

Context {V Rest : Type}.

Definition ViewNode : Type := DiagramNode (list (string * V)) Rest.

(** The layout functions are called as
    [layoutFn(nodes, edges, { direction })].  [applyGridLayout] takes the
    nodes and the options: it is given the array of the edges as its
    options, which has none of the properties of [LayoutOptions], all of
    them absent, and the third argument is dropped. *)
Definition getLayoutForViewType (viewType : string)
  : list ViewNode → list DiagramEdge → LayoutOptions → list ViewNode :=
  if bool_decide (viewType = INTERCONNECTION) then
    λ nodes _ _, applyGridLayout nodes noOptions
  else
    λ nodes edges opts, applyLevelLayout nodes edges opts.

Definition getHiddenDataKeys (viewType : string) : list string :=
  if bool_decide (viewType = STATE_TRANSITION) then
    ["entryAction"; "exitAction"; "doActivity"]
  else [].

(** [view.viewType ?? definition.viewType ?? VIEW_TYPES.GENERAL] *)
Definition viewTypeOf (viewViewType definitionViewType : option string)
  : string :=
  default (default GENERAL definitionViewType) viewViewType.

(** [processedView]: the nodes and the edges; the other properties of the
    resolved view are passed on.  An absent [layoutDirection] is ['TB'], an
    absent [showLabels] or [showDetails] is [true]. *)
Definition processedView (viewType : string) (nodes : list ViewNode)
  (edges : list DiagramEdge) (layoutDirection : option LayoutDirection)
  (showLabels showDetails : option bool)
  : list ViewNode * list DiagramEdge :=
  let layoutDirection := default TB layoutDirection in
  let showLabels := default true showLabels in
  let showDetails := default true showDetails in
  let layoutFn := getLayoutForViewType viewType in
  let nodes :=
    layoutFn nodes edges
      (mkLayoutOptions Absent Absent Absent Absent (Value layoutDirection)) in
  let edges := if showLabels then edges else stripEdgeLabels edges in
  let nodes :=
    if showDetails then nodes
    else stripNodeData nodes (getHiddenDataKeys viewType) in
  (nodes, edges).

End Renderer.

End ViewRenderer.

(** * Verification *)

(** ** Lists and strings *)

Module JsStringFacts.
Import JsString.

Lemma elem_of_filter_bool {A} (p : A → bool) (l : list A) x :
  x ∈ List.filter p l ↔ x ∈ l ∧ p x = true.
Proof. rewrite !list_elem_of_In. apply filter_In. Qed.

Lemma filter_all {A} (p : A → bool) (l : list A) :
  (∀ x, x ∈ l → p x = true) → List.filter p l = l.
Proof.
  induction l as [|a l IH]; intros Hl; simpl; [done|].
  rewrite (Hl a) by by left. f_equal. apply IH. intros x Hx. apply Hl.
  by right.
Qed.

Lemma NoDup_map_filter {A B} (f : A → B) (p : A → bool) (l : list A) :
  NoDup (map f l) → NoDup (map f (List.filter p l)).
Proof.
  induction l as [|a l IH]; simpl; [done|].
  rewrite NoDup_cons. intros [Ha Hl].
  destruct (p a); simpl; [|by apply IH].
  apply NoDup_cons. split; [|by apply IH].
  intros (y & Hy & Hin)%(list_elem_of_fmap_1 f).
  apply elem_of_filter_bool in Hin as [Hin _].
  apply Ha. rewrite Hy. by apply (list_elem_of_fmap_2 f).
Qed.

Lemma append_assoc (a b c : string) : (a +:+ b) +:+ c = a +:+ (b +:+ c).
Proof.
  induction a as [|x a IH]; [done|].
  change (String x ((a +:+ b) +:+ c) = String x (a +:+ (b +:+ c))).
  by f_equal.
Qed.

Lemma append_empty_r (a : string) : a +:+ EmptyString = a.
Proof.
  induction a as [|x a IH]; [done|].
  change (String x (a +:+ EmptyString) = String x a). by f_equal.
Qed.

Lemma split_colons_cons c1 c2 s2 :
  split_colons (String c1 (String c2 s2))
  = if is_colon c1 && is_colon c2
    then EmptyString :: split_colons s2
    else consHead c1 (split_colons (String c2 s2)).
Proof. reflexivity. Qed.

Lemma split_colons_nonempty s : split_colons s ≠ [].
Proof.
  destruct s as [|c1 [|c2 s2]]; try done.
  rewrite split_colons_cons. destruct (_ && _); [done|].
  by destruct (split_colons _).
Qed.

Lemma join_consHead c l :
  l ≠ [] → join_colons (consHead c l) = String c (join_colons l).
Proof. destruct l as [|x [|y l]]; done. Qed.

Lemma join_split_aux s :
  join_colons (split_colons s) = s ∧
  ∀ c, join_colons (split_colons (String c s)) = String c s.
Proof.
  induction s as [|a s [IH1 IH2]]; [done|].
  split; [apply IH2|]. intros c. rewrite split_colons_cons.
  destruct (is_colon c && is_colon a) eqn:Hc.
  - apply andb_true_iff in Hc as [H1 H2].
    apply bool_decide_eq_true in H1, H2. subst.
    pose proof (split_colons_nonempty s) as Hne.
    change (join_colons (EmptyString :: split_colons s))
      with (match split_colons s with
            | [] => EmptyString
            | _ => EmptyString +:+ "::" +:+ join_colons (split_colons s)
            end).
    destruct (split_colons s); [done|]. by rewrite IH1.
  - rewrite join_consHead by apply split_colons_nonempty. by rewrite IH2.
Qed.

(** Joining the segments gives the string back. *)
Lemma join_split s : join_colons (split_colons s) = s.
Proof. apply join_split_aux. Qed.

Lemma join_last (l : list string) x :
  last l = Some x →
  ∃ p, join_colons l = p +:+ x ∧ (p = EmptyString ∨ ∃ p', p = p' +:+ "::").
Proof.
  induction l as [|y l IH]; [done|]. destruct l as [|z l].
  - intros [= ->]. exists EmptyString. by split; [|left].
  - intros Hx. destruct (IH Hx) as (p & Hp & Hshape).
    exists (y +:+ "::" +:+ p). split.
    + change (join_colons (y :: z :: l))
        with (y +:+ "::" +:+ join_colons (z :: l)).
      by rewrite Hp, !append_assoc.
    + right. destruct Hshape as [-> | [p' ->]].
      * exists y. by rewrite append_empty_r.
      * exists (y +:+ "::" +:+ p'). by rewrite !append_assoc.
Qed.

Lemma startsWith_sep c s :
  startsWith "::" (String c s) = is_colon c && startsWithColon s.
Proof.
  unfold is_colon, colon. cbn [startsWith].
  rewrite (bool_decide_ext (":"%char = c) (c = ":"%char)) by done.
  f_equal. destruct s as [|d s]; [done|]. cbn [startsWith startsWithColon].
  unfold is_colon, colon.
  rewrite (bool_decide_ext (":"%char = d) (d = ":"%char)) by done.
  by rewrite andb_true_r.
Qed.

Lemma includes_sep_cons c s :
  includes "::" (String c s)
  = is_colon c && startsWithColon s || includes "::" s.
Proof. cbn [includes]. by rewrite startsWith_sep. Qed.

Lemma head_split c s :
  ∃ seg rest, split_colons (String c s) = seg :: rest ∧
    (seg = EmptyString ∨ ∃ r, seg = String c r).
Proof.
  destruct s as [|c2 s2]; [by eexists _, _; split; [|right; eexists]|].
  rewrite split_colons_cons. destruct (_ && _).
  - eexists _, _. split; [done|by left].
  - destruct (split_colons (String c2 s2)); simpl;
      eexists _, _; (split; [done|right; by eexists]).
Qed.

Lemma split_no_sep_aux s :
  Forall (λ seg, includes "::" seg = false) (split_colons s) ∧
  ∀ c, Forall (λ seg, includes "::" seg = false) (split_colons (String c s)).
Proof.
  induction s as [|a s [IH1 IH2]].
  - split; [by repeat constructor|]. intros c. repeat constructor.
    rewrite includes_sep_cons. simpl. by rewrite andb_false_r.
  - split; [apply IH2|]. intros c. rewrite split_colons_cons.
    destruct (is_colon c && is_colon a) eqn:Hc.
    + by constructor.
    + specialize (IH2 a).
      destruct (head_split a s) as (seg & rest & Hsplit & Hseg).
      rewrite Hsplit in IH2 |- *. simpl.
      apply Forall_cons in IH2 as [Hs Hrest]. constructor; [|done].
      rewrite includes_sep_cons, Hs, orb_false_r.
      destruct Hseg as [-> | [r ->]]; simpl; [by rewrite andb_false_r|done].
Qed.

(** No segment contains a separator. *)
Lemma split_no_sep s :
  Forall (λ seg, includes "::" seg = false) (split_colons s).
Proof. apply split_no_sep_aux. Qed.

(** The last segment of a string: the string ends with it, what is before
    it is nothing or ends with a separator, and it holds no separator. *)
Lemma last_segment_spec s :
  ∃ p seg, pop (split_colons s) = Some seg ∧ s = p +:+ seg ∧
           (p = EmptyString ∨ ∃ p', p = p' +:+ "::") ∧ includes "::" seg = false.
Proof.
  destruct (last (split_colons s)) as [seg|] eqn:Hlast.
  - destruct (join_last _ _ Hlast) as (p & Hp & Hshape).
    rewrite join_split in Hp. exists p, seg. repeat split; try done.
    pose proof (split_no_sep s) as Hall. rewrite Forall_forall in Hall.
    apply Hall. apply last_Some in Hlast as [l' ->].
    apply elem_of_app. right. by left.
  - apply last_None in Hlast. by destruct (split_colons_nonempty s).
Qed.

End JsStringFacts.

(** ** The size calculator *)

Module SizingFacts.
Import JsString Sizing.
Local Open Scope Z_scope.

Lemma countFeature_cases c f :
  countFeature c f = mkCounts (parts c) (attrs c) (actions c + 1) ∨
  countFeature c f = mkCounts (parts c) (attrs c + 1) (actions c) ∨
  countFeature c f = mkCounts (parts c + 1) (attrs c) (actions c).
Proof.
  unfold countFeature.
  destruct (_ || _); [by left|].
  destruct (_ || _); [right; by left | right; by right].
Qed.

(** A single line opens exactly one section, whatever it says. *)
Lemma contentHeight_one_line f :
  calculateContentHeight [f] =
  headerHeight + sectionHeaderHeight + itemHeight + bottomPadding.
Proof.
  unfold calculateContentHeight, groupFeatureCounts. simpl fold_left.
  destruct (countFeature_cases (mkCounts 0 0 0) f) as [-> | [-> | ->]];
    reflexivity.
Qed.

Lemma contentHeight_empty : calculateContentHeight [] = headerHeight + 10.
Proof. reflexivity. Qed.

(** C4, as stated, at the line ["x : T"]: a leaf node grows from 90 to 130,
    which is less than one section header plus one item (50) more. *)
Lemma C4_leaf_height_step_counterexample :
  ¬ (height (calculateNodeSize [] false) + sectionHeaderHeight + itemHeight
     ≤ height (calculateNodeSize ["x : T"] false)).
Proof. vm_compute. intros H. apply H. reflexivity. Qed.

(** C4 (amended): with no content line the content height is the header-only
    constant [headerHeight + 10] and a leaf node has the minimum node height;
    the first content line raises the content height by one section header,
    one item and the bottom padding less the 10 of the empty case, which is at
    least one section header plus one item, and strictly raises the height
    of a leaf node, from [minHeight] to the new content height. *)
Theorem C4_height_of_first_content_line :
  calculateContentHeight [] = headerHeight + 10 ∧
  height (calculateNodeSize [] false) = minHeight ∧
  ∀ f : string,
    calculateContentHeight [f]
    = calculateContentHeight [] + sectionHeaderHeight + itemHeight
      + (bottomPadding - 10) ∧
    calculateContentHeight [] + sectionHeaderHeight + itemHeight
    ≤ calculateContentHeight [f] ∧
    height (calculateNodeSize [f] false) = calculateContentHeight [f] ∧
    height (calculateNodeSize [] false) < height (calculateNodeSize [f] false).
Proof.
  split; [reflexivity|]. split; [reflexivity|].
  intros f. unfold calculateNodeSize. cbn [height].
  rewrite contentHeight_one_line, contentHeight_empty.
  vm_compute. repeat split; congruence.
Qed.

(** *** The counts, the sections of the renderer, and the sizes *)

Lemma countFeature_class c f :
  countFeature c f
  = mkCounts (parts c + b2z (isPartLine f)) (attrs c + b2z (isAttributeLine f))
      (actions c + b2z (isActionLine f)).
Proof.
  unfold countFeature, isPartLine, isAttributeLine, isActionLine. cbv zeta.
  destruct (includes "action" _ || includes ":action" _); simpl.
  - by rewrite !Z.add_0_r.
  - destruct (includes "attribute" _ || includes "attr" _ || negb _); simpl;
      by rewrite !Z.add_0_r.
Qed.

Lemma groupFeature_class g f :
  SysMLNode.groupFeature g f
  = SysMLNode.mkGroups
      (SysMLNode.parts g ++ (if isPartLine f then [f] else []))
      (SysMLNode.attributes g ++ (if isAttributeLine f then [f] else []))
      (SysMLNode.actions g ++ (if isActionLine f then [f] else [])).
Proof.
  unfold SysMLNode.groupFeature, isPartLine, isAttributeLine, isActionLine.
  cbv zeta.
  destruct (includes "action" _ || includes ":action" _); simpl.
  - by rewrite !app_nil_r.
  - destruct (includes "attribute" _ || includes "attr" _ || negb _); simpl;
      by rewrite !app_nil_r.
Qed.

Lemma class_exclusive f :
  b2z (isPartLine f) + b2z (isAttributeLine f) + b2z (isActionLine f) = 1.
Proof.
  unfold isPartLine, isAttributeLine.
  by destruct (isActionLine f), (_ || _ || negb _).
Qed.

Lemma counts_fold features c :
  let c' := fold_left countFeature features c in
  parts c' = parts c + Z.of_nat (length (List.filter isPartLine features)) ∧
  attrs c'
  = attrs c + Z.of_nat (length (List.filter isAttributeLine features)) ∧
  actions c'
  = actions c + Z.of_nat (length (List.filter isActionLine features)).
Proof.
  revert c. induction features as [|f features IH]; intros c; simpl.
  - by rewrite !Z.add_0_r.
  - destruct (IH (countFeature c f)) as (Hp & Ha & Hc).
    rewrite Hp, Ha, Hc, countFeature_class. cbn [parts attrs actions].
    destruct (isPartLine f), (isAttributeLine f), (isActionLine f);
      cbn [length b2z]; lia.
Qed.

Lemma groups_fold features g :
  let g' := fold_left SysMLNode.groupFeature features g in
  SysMLNode.parts g' = SysMLNode.parts g ++ List.filter isPartLine features ∧
  SysMLNode.attributes g'
  = SysMLNode.attributes g ++ List.filter isAttributeLine features ∧
  SysMLNode.actions g'
  = SysMLNode.actions g ++ List.filter isActionLine features.
Proof.
  revert g. induction features as [|f features IH]; intros g; simpl.
  - by rewrite !app_nil_r.
  - destruct (IH (SysMLNode.groupFeature g f)) as (Hp & Ha & Hc).
    rewrite Hp, Ha, Hc, groupFeature_class.
    cbn [SysMLNode.parts SysMLNode.attributes SysMLNode.actions].
    rewrite <- !app_assoc.
    by destruct (isPartLine f), (isAttributeLine f), (isActionLine f).
Qed.

Lemma filter_classes_length (features : list string) :
  (length (List.filter isPartLine features)
   + length (List.filter isAttributeLine features)
   + length (List.filter isActionLine features))%nat
  = length features.
Proof.
  induction features as [|f features IH]; simpl; [done|].
  pose proof (class_exclusive f) as Hx.
  destruct (isPartLine f), (isAttributeLine f), (isActionLine f);
    cbn [b2z] in Hx; simpl; lia.
Qed.

(** X1: the size calculator counts what the renderer shows: the three counts
    of [groupFeatureCounts] are the lengths of the three groups of
    [groupFeatures]; each group holds the lines of its section in input
    order; and every line is in exactly one group, so the counts add up to
    the number of lines. *)
Theorem X1_counts_match_rendered_groups (features : list string) :
  let c := groupFeatureCounts features in
  let g := SysMLNode.groupFeatures features in
  parts c = Z.of_nat (length (SysMLNode.parts g)) ∧
  attrs c = Z.of_nat (length (SysMLNode.attributes g)) ∧
  actions c = Z.of_nat (length (SysMLNode.actions g)) ∧
  SysMLNode.parts g = List.filter isPartLine features ∧
  SysMLNode.attributes g = List.filter isAttributeLine features ∧
  SysMLNode.actions g = List.filter isActionLine features ∧
  (∀ f, b2z (isPartLine f) + b2z (isAttributeLine f) + b2z (isActionLine f)
        = 1) ∧
  parts c + attrs c + actions c = Z.of_nat (length features).
Proof.
  intros c g.
  destruct (counts_fold features (mkCounts 0 0 0)) as (Cp & Ca & Cc).
  destruct (groups_fold features (SysMLNode.mkGroups [] [] []))
    as (Gp & Ga & Gc).
  simpl in Cp, Ca, Cc, Gp, Ga, Gc. subst c g.
  unfold groupFeatureCounts, SysMLNode.groupFeatures.
  rewrite Gp, Ga, Gc, Cp, Ca, Cc.
  repeat split; try done; [apply class_exclusive|].
  pose proof (filter_classes_length features). lia.
Qed.

Lemma contentHeight_nonempty features :
  features ≠ [] →
  calculateContentHeight features
  = headerHeight + sectionCountOf (groupFeatureCounts features)
                   * sectionHeaderHeight
    + Z.of_nat (length features) * itemHeight + bottomPadding.
Proof.
  intros Hne. unfold calculateContentHeight, sectionCountOf. cbv zeta.
  destruct (Z.eqb_spec (Z.of_nat (length features)) 0) as [Hz|_]; [|lia].
  destruct features; [done|simpl in Hz; lia].
Qed.

Lemma sectionCount_bounds features :
  features ≠ [] →
  1 ≤ sectionCountOf (groupFeatureCounts features) ≤ 3.
Proof.
  intros Hne.
  destruct (counts_fold features (mkCounts 0 0 0)) as (Cp & Ca & Cc).
  pose proof (filter_classes_length features) as Hsum.
  assert (0 < length features)%nat by (destruct features; [done|simpl; lia]).
  simpl in Cp, Ca, Cc. rewrite Z.add_0_l in Cp, Ca, Cc.
  unfold sectionCountOf, groupFeatureCounts. rewrite Cp, Ca, Cc.
  destruct (Z.ltb_spec 0 (Z.of_nat (length (List.filter isPartLine features)))),
    (Z.ltb_spec 0
       (Z.of_nat (length (List.filter isAttributeLine features)))),
    (Z.ltb_spec 0 (Z.of_nat (length (List.filter isActionLine features))));
    cbn [b2z]; lia.
Qed.

Lemma section_has_line (p : string → bool) (features : list string) :
  (0 <? Z.of_nat (length (List.filter p features))) = existsb p features.
Proof.
  induction features as [|f features IH]; [done|]. simpl.
  destruct (p f); [|done]. simpl length.
  by destruct (Z.ltb_spec 0 (Z.of_nat (S (length (List.filter p features)))));
    [|lia].
Qed.

(** X2: for a content that is not empty, the content height is the header,
    one section header for each section that has a line (at least one, at
    most three), one item height for each line, and the bottom padding. *)
Theorem X2_content_height_bounds (features : list string)
  (Hne : features ≠ []) :
  let n := Z.of_nat (length features) in
  let sections :=
    b2z (existsb isPartLine features)
    + b2z (existsb isAttributeLine features)
    + b2z (existsb isActionLine features) in
  calculateContentHeight features
  = headerHeight + sections * sectionHeaderHeight + n * itemHeight
    + bottomPadding ∧
  1 ≤ sections ≤ 3 ∧
  headerHeight + sectionHeaderHeight + n * itemHeight + bottomPadding
  ≤ calculateContentHeight features
  ≤ headerHeight + 3 * sectionHeaderHeight + n * itemHeight + bottomPadding.
Proof.
  intros n sections.
  assert (Hs : sectionCountOf (groupFeatureCounts features) = sections).
  { destruct (counts_fold features (mkCounts 0 0 0)) as (Cp & Ca & Cc).
    simpl in Cp, Ca, Cc. rewrite Z.add_0_l in Cp, Ca, Cc.
    unfold sectionCountOf, groupFeatureCounts. rewrite Cp, Ca, Cc.
    by rewrite !section_has_line. }
  rewrite contentHeight_nonempty by done.
  pose proof (sectionCount_bounds features Hne) as Hb.
  rewrite Hs in *. fold n. unfold sectionHeaderHeight. lia.
Qed.

Lemma X2_content_height_bounds_witness :
  calculateContentHeight ["x : T"; "in p"]
  = headerHeight + 2 * sectionHeaderHeight + 2 * itemHeight + bottomPadding ∧
  1 ≤ 2 ≤ 3 ∧
  headerHeight + sectionHeaderHeight + 2 * itemHeight + bottomPadding
  ≤ calculateContentHeight ["x : T"; "in p"]
  ≤ headerHeight + 3 * sectionHeaderHeight + 2 * itemHeight + bottomPadding.
Proof. apply (X2_content_height_bounds ["x : T"; "in p"]). discriminate. Defined.

Lemma sectionCount_append features f :
  sectionCountOf (groupFeatureCounts features)
  ≤ sectionCountOf (groupFeatureCounts (features ++ [f])).
Proof.
  unfold groupFeatureCounts. rewrite fold_left_app. simpl.
  destruct (counts_fold features (mkCounts 0 0 0)) as (Cp & Ca & Cc).
  simpl in Cp, Ca, Cc.
  set (c := fold_left countFeature features (mkCounts 0 0 0)) in *.
  rewrite countFeature_class. unfold sectionCountOf. cbn [parts attrs actions].
  destruct (isPartLine f), (isAttributeLine f), (isActionLine f);
    cbn [b2z];
    repeat match goal with
           | |- context [(0 <? ?x)] => destruct (Z.ltb_spec 0 x)
           end; cbn [b2z]; lia.
Qed.

(** X3: one more line at the end never lowers the content height: it grows
    by at least one item height. *)
Theorem X3_content_height_grows (features : list string) (f : string) :
  calculateContentHeight features + itemHeight
  ≤ calculateContentHeight (features ++ [f]).
Proof.
  destruct features as [|f0 features].
  - simpl app. rewrite contentHeight_one_line. by vm_compute.
  - rewrite !contentHeight_nonempty; [|by destruct features|done].
    pose proof (sectionCount_append (f0 :: features) f) as Hs.
    rewrite length_app. simpl length. unfold sectionHeaderHeight, itemHeight.
    lia.
Qed.

(** X4: a node is never lower than its content nor than its minimum (90 for
    a leaf, 200 for a container); a container is as high and as wide as the
    leaf with the same content, or more; and the top padding that the
    engine is given for a container leaves at least 40 of its height below
    it for the children. *)
Theorem X4_node_size_floors (features : list string) :
  let leaf := calculateNodeSize features false in
  let box := calculateNodeSize features true in
  calculateContentHeight features ≤ height leaf ∧ minHeight ≤ height leaf ∧
  calculateContentHeight features + 60 ≤ height box ∧
  minContainerHeight ≤ height box ∧
  height leaf ≤ height box ∧ width leaf ≤ width box ∧
  calculateElkTopPadding features + 40 ≤ height box ∧
  (90 ≤ calculateContentHeight features →
   height leaf = calculateContentHeight features) ∧
  (140 ≤ calculateContentHeight features →
   height box = calculateContentHeight features + 60).
Proof.
  unfold calculateNodeSize, calculateElkTopPadding. cbn [height width].
  unfold minHeight, minContainerHeight, defaultWidth, minContainerWidth,
    childGap.
  repeat split; lia.
Qed.

End SizingFacts.

(** ** The graph builder *)

Module GeneralViewFacts.
Import JsString JsStringFacts GeneralView.

(** *** What the first loop of [apply] computes *)

Lemma pushLine_lookup q t m p :
  default [] (pushLine q t m !! p)
  = default [] (m !! p) ++ (if bool_decide (q = p) then [t] else []).
Proof.
  unfold pushLine. case_bool_decide as Hq.
  - subst. by rewrite lookup_insert_eq.
  - rewrite lookup_insert_ne by done. by rewrite app_nil_r.
Qed.

Lemma truthy_empty s : truthy s = false → s = EmptyString.
Proof. by destruct s. Qed.

Lemma separateStep_structural config st s :
  structuralSymbols (separateStep config st s)
  = structuralSymbols st ++ (if retained config s then [s] else []).
Proof.
  unfold separateStep, retained, isStructural.
  destruct (shouldShowNodeType _ _); simpl; [|by rewrite app_nil_r].
  destruct (getNodeCategory _); simpl; try done;
    destruct (parent s) as [p|]; try destruct (truthy p);
    simpl; by rewrite app_nil_r.
Qed.

Lemma separateStep_properties config st s p :
  default [] (propertiesByParent (separateStep config st s) !! p)
  = default [] (propertiesByParent st !! p)
    ++ (if childOf config property p s then [lineText s] else []).
Proof.
  unfold separateStep, childOf.
  destruct (shouldShowNodeType _ _); simpl; [|by rewrite app_nil_r].
  destruct (getNodeCategory _); simpl; try by rewrite app_nil_r.
  - destruct (parent s) as [q|] eqn:Hq; simpl.
    + destruct (truthy q) eqn:Hqt; simpl.
      * rewrite pushLine_lookup.
        case_bool_decide as H1; case_bool_decide as H2; simplify_eq;
          rewrite ?Hqt, ?andb_false_r; try done.
      * case_bool_decide as H2; simplify_eq;
          rewrite ?Hqt, ?andb_false_r, ?app_nil_r; try done.
    + by rewrite andb_false_r, app_nil_r.
  - destruct (parent s) as [q|]; try destruct (truthy q);
      simpl; by rewrite app_nil_r.
Qed.

Lemma separateStep_ports config st s p :
  default [] (portsByParent (separateStep config st s) !! p)
  = default [] (portsByParent st !! p)
    ++ (if childOf config port p s then [lineText s] else []).
Proof.
  unfold separateStep, childOf.
  destruct (shouldShowNodeType _ _); simpl; [|by rewrite app_nil_r].
  destruct (getNodeCategory _); simpl; try by rewrite app_nil_r.
  - destruct (parent s) as [q|]; try destruct (truthy q);
      simpl; by rewrite app_nil_r.
  - destruct (parent s) as [q|] eqn:Hq; simpl.
    + destruct (truthy q) eqn:Hqt; simpl.
      * rewrite pushLine_lookup.
        case_bool_decide as H1; case_bool_decide as H2; simplify_eq;
          rewrite ?Hqt, ?andb_false_r; try done.
      * case_bool_decide as H2; simplify_eq;
          rewrite ?Hqt, ?andb_false_r, ?app_nil_r; try done.
    + by rewrite andb_false_r, app_nil_r.
Qed.

Lemma separate_fold config symbols st :
  let st' := fold_left (separateStep config) symbols st in
  structuralSymbols st'
  = structuralSymbols st ++ List.filter (retained config) symbols ∧
  (∀ p, default [] (propertiesByParent st' !! p)
        = default [] (propertiesByParent st !! p)
          ++ childLines config property p symbols) ∧
  (∀ p, default [] (portsByParent st' !! p)
        = default [] (portsByParent st !! p)
          ++ childLines config port p symbols).
Proof.
  revert st. induction symbols as [|s symbols IH]; intros st; simpl.
  - unfold childLines; simpl. by setoid_rewrite app_nil_r.
  - destruct (IH (separateStep config st s)) as (Hs & Hp & Hq).
    split; [|split].
    + rewrite Hs, separateStep_structural, <- app_assoc.
      by destruct (retained config s).
    + intros p. rewrite Hp, separateStep_properties, <- app_assoc.
      unfold childLines. simpl. by destruct (childOf config property p s).
    + intros p. rewrite Hq, separateStep_ports, <- app_assoc.
      unfold childLines. simpl. by destruct (childOf config port p s).
Qed.

Lemma separate_structural config symbols :
  structuralSymbols (separate config symbols)
  = List.filter (retained config) symbols.
Proof.
  unfold separate.
  by destruct (separate_fold config symbols (mkSeparated [] ∅ ∅)) as [-> _].
Qed.

Lemma separate_properties config symbols p :
  default [] (propertiesByParent (separate config symbols) !! p)
  = childLines config property p symbols.
Proof.
  destruct (separate_fold config symbols (mkSeparated [] ∅ ∅)) as (_ & H & _).
  unfold separate. rewrite H. simpl. by rewrite lookup_empty.
Qed.

Lemma separate_ports config symbols p :
  default [] (portsByParent (separate config symbols) !! p)
  = childLines config port p symbols.
Proof.
  destruct (separate_fold config symbols (mkSeparated [] ∅ ∅)) as (_ & _ & H).
  unfold separate. rewrite H. simpl. by rewrite lookup_empty.
Qed.

(** *** The encoding of qualified names *)

Lemma fromNodeId_toNodeId_aux s :
  (hasUnderscore s = false → fromNodeId (replace_colons s) = s) ∧
  (∀ c, hasUnderscore (String c s) = false →
        fromNodeId (replace_colons (String c s)) = String c s).
Proof.
  induction s as [|a s [IH1 IH2]].
  - split; [done|]. intros c. simpl.
    by destruct (bool_decide (c = underscore)).
  - split; [apply IH2|]. intros c Hc.
    change (hasUnderscore (String c (String a s)))
      with (bool_decide (c = underscore) || hasUnderscore (String a s)) in Hc.
    apply orb_false_iff in Hc as [Hc Ha].
    change (replace_colons (String c (String a s)))
      with (if is_colon c && is_colon a
            then String underscore (replace_colons s)
            else String c (replace_colons (String a s))).
    destruct (is_colon c && is_colon a) eqn:Hcol.
    + apply andb_true_iff in Hcol as [H1 H2].
      apply bool_decide_eq_true in H1, H2. subst.
      simpl in Ha. simpl. by rewrite IH1.
    + cbn [fromNodeId]. rewrite Hc. f_equal. by apply IH2.
Qed.

Lemma fromNodeId_toNodeId s :
  hasUnderscore s = false → fromNodeId (toNodeId s) = s.
Proof. apply fromNodeId_toNodeId_aux. Qed.

Lemma toNodeId_inj s t :
  hasUnderscore s = false → hasUnderscore t = false →
  toNodeId s = toNodeId t → s = t.
Proof.
  intros Hs Ht Heq.
  rewrite <- (fromNodeId_toNodeId s Hs), <- (fromNodeId_toNodeId t Ht).
  by rewrite Heq.
Qed.

(** *** What [buildNodes] and [buildEdges] compute *)

Section BuilderFacts.

Variable NODE_TYPES : list string.

Lemma buildNodes_ids symbols pp qp :
  map id (buildNodes NODE_TYPES symbols pp qp)
  = map (λ s, toNodeId (qualifiedName s)) symbols.
Proof. unfold buildNodes. rewrite map_map. by apply map_ext. Qed.

Lemma build_node_ids symbols relationships config :
  map id (nodes (build NODE_TYPES symbols relationships config))
  = map (λ s, toNodeId (qualifiedName s))
      (List.filter (retained config) symbols).
Proof. simpl. by rewrite buildNodes_ids, separate_structural. Qed.

Lemma buildNode_content ids hc pp qp s :
  content (buildNode NODE_TYPES ids hc pp qp s)
  = allFeaturesOf (default [] (pp !! qualifiedName s))
      (default [] (qp !! qualifiedName s)) s.
Proof.
  unfold content, buildNode. cbn [data d_features].
  by destruct (allFeaturesOf _ _ _).
Qed.

Lemma buildEdgesFrom_spec k relationships ids e :
  e ∈ buildEdgesFrom k relationships ids ↔
  ∃ j rel, relationships !! j = Some rel ∧ e = edgeOf (k + j) rel ∧
           toNodeId (source rel) ∈ ids ∧ toNodeId (target rel) ∈ ids.
Proof.
  revert k. induction relationships as [|r rest IH]; intros k.
  - simpl. split; [by intros ?%elem_of_nil|]. by intros (j & rel & ? & _).
  - cbn [buildEdgesFrom].
    destruct (bool_decide _ && bool_decide _) eqn:Hc.
    + apply andb_true_iff in Hc as [Hs Ht].
      apply bool_decide_eq_true in Hs, Ht.
      rewrite elem_of_cons, IH. split.
      * intros [-> | (j & rel & Hj & -> & ? & ?)].
        -- exists 0, r. by rewrite Nat.add_0_r.
        -- exists (S j), rel. by rewrite Nat.add_succ_r.
      * intros ([|j] & rel & Hj & -> & ? & ?); simplify_eq/=.
        -- left. by rewrite Nat.add_0_r.
        -- right. exists j, rel. by rewrite Nat.add_succ_r.
    + rewrite IH. split.
      * intros (j & rel & Hj & -> & ? & ?).
        exists (S j), rel. by rewrite Nat.add_succ_r.
      * intros ([|j] & rel & Hj & -> & Hs & Ht); simplify_eq/=.
        -- apply andb_false_iff in Hc as [Hc|Hc];
             by apply bool_decide_eq_false in Hc.
        -- exists j, rel. by rewrite Nat.add_succ_r.
Qed.

(** C1: the ids of the nodes are the encoded qualified names of the retained
    (shown and structural) symbols; for a relationship whose type passes the
    edge-type filter, its edge is in the built graph if and only if both
    encoded endpoints are ids of retained nodes; and every edge of the graph
    is the edge of such a relationship.  The builder is a total function:
    a relationship that fails a condition is skipped. *)
Theorem C1_edge_iff_both_endpoints_retained
  (symbols : list DiagramSymbol) (relationships : list DiagramRelationship)
  (config : ViewConfig) :
  let g := build NODE_TYPES symbols relationships config in
  let retainedIds :=
    map (λ s, toNodeId (qualifiedName s))
      (List.filter (retained config) symbols) in
  let passing :=
    List.filter (λ r, shouldShowEdgeType (rel_type r) config) relationships in
  map id (nodes g) = retainedIds ∧
  (∀ i rel, passing !! i = Some rel →
     (edgeOf i rel ∈ edges g ↔
      toNodeId (source rel) ∈ retainedIds ∧
      toNodeId (target rel) ∈ retainedIds)) ∧
  (∀ e, e ∈ edges g →
     ∃ i rel, passing !! i = Some rel ∧ e = edgeOf i rel ∧
              toNodeId (source rel) ∈ retainedIds ∧
              toNodeId (target rel) ∈ retainedIds).
Proof.
  intros g retainedIds passing.
  assert (Hids : map id (nodes g) = retainedIds) by apply build_node_ids.
  assert (Hedges : ∀ e, e ∈ edges g ↔
            ∃ j rel, passing !! j = Some rel ∧ e = edgeOf j rel ∧
                     toNodeId (source rel) ∈ retainedIds ∧
                     toNodeId (target rel) ∈ retainedIds).
  { intros e. subst g. cbn [edges build]. unfold buildEdges.
    rewrite buildEdgesFrom_spec.
    change (map id (buildNodes NODE_TYPES _ _ _))
      with (map id (nodes (build NODE_TYPES symbols relationships config))).
    rewrite build_node_ids. fold retainedIds. fold passing.
    by setoid_rewrite elem_of_list_to_set. }
  split; [done|]. split.
  - intros i rel Hi. rewrite Hedges. split.
    + intros (j & rel' & _ & Heq & Hs & Ht).
      pose proof (f_equal edge_source Heq) as Es.
      pose proof (f_equal edge_target Heq) as Et.
      cbn in Es, Et. by rewrite Es, Et.
    + intros [Hs Ht]. by exists i, rel.
  - intros e He. by apply Hedges.
Qed.

Lemma build_nodes symbols relationships config :
  let st := separate config symbols in
  nodes (build NODE_TYPES symbols relationships config)
  = map (buildNode NODE_TYPES
           (list_to_set
              (map (λ s, toNodeId (qualifiedName s))
                 (List.filter (retained config) symbols)))
           (hasChildrenOf (List.filter (retained config) symbols))
           (propertiesByParent st) (portsByParent st))
      (List.filter (retained config) symbols).
Proof. simpl. unfold buildNodes. by rewrite separate_structural. Qed.

Lemma lineText_specLine s : lineText s = specLine s.
Proof.
  unfold lineText, specLine.
  destruct (direction s) as [d|], (typedBy s) as [t|];
    try destruct (truthy t);
    by rewrite ?append_assoc, ?append_empty_r.
Qed.

Lemma lastSegment_spec t :
  ∃ p, t = p +:+ lastSegment t ∧ (p = EmptyString ∨ ∃ p', p = p' +:+ "::") ∧
       includes "::" (lastSegment t) = false.
Proof.
  destruct (last_segment_spec t) as (p & seg & Hpop & Ht & Hp & Hseg).
  exists p. unfold lastSegment. by rewrite Hpop.
Qed.

(** C3 (amended): the content of the node of every retained symbol is the
    list of the specification with the empty lines removed: property lines
    in input order, then, when there is a port line, one separator and the
    port lines in input order, then the symbol's own features.  A line is
    the direction and a space, if any, the name, and [" : "] with the last
    segment of a non-empty [typedBy]; the last segment is the end of the
    string after its last separator taken from the left.  For the parent
    [P] with the property [x : T] and the port [in p] the content is
    ["x : T"; "---"; "in p"]. *)
Theorem C3_merged_content :
  (∀ (symbols : list DiagramSymbol)
     (relationships : list DiagramRelationship) (config : ViewConfig),
     map content (nodes (build NODE_TYPES symbols relationships config))
     = map (λ P, List.filter truthy (specMergedContent config symbols P))
         (List.filter (retained config) symbols)) ∧
  (∀ s, lineText s = specLine s) ∧
  (∀ t, ∃ p, t = p +:+ lastSegment t ∧ (p = EmptyString ∨ ∃ p', p = p' +:+ "::") ∧
             includes "::" (lastSegment t) = false) ∧
  map content
    (nodes (build NODE_TYPES
              [mkSymbol "P" "P" "PartDef" None None None None;
               mkSymbol "x" "P::x" "AttributeUsage" (Some "P") None
                 (Some "T") None;
               mkSymbol "p" "P::p" "PortUsage" (Some "P") None None
                 (Some DirIn)]
              [] (mkViewConfig GeneralViewT None None None None)))
  = [["x : T"; "---"; "in p"]].
Proof.
  split; [|split; [apply lineText_specLine|split; [apply lastSegment_spec|]]];
    [|by vm_compute].
  intros symbols relationships config.
  rewrite build_nodes. cbv zeta. rewrite map_map. apply map_ext. intros P.
  rewrite buildNode_content, separate_properties, separate_ports.
  unfold allFeaturesOf, specMergedContent.
  by destruct (childLines config port (qualifiedName P) symbols).
Qed.

(** C9: a symbol that the view shows and that is structural, but whose type
    is not a registered node type, is kept: the graph has a node for it, with
    its encoded qualified name as id, its name, and the type ["default"].
    The builder has no failing case. *)
Theorem C9_unregistered_type_gets_default
  (symbols : list DiagramSymbol) (relationships : list DiagramRelationship)
  (config : ViewConfig) (s : DiagramSymbol)
  (Hin : s ∈ symbols)
  (Hshown : shouldShowNodeType (nodeType s) config = true)
  (Hstructural : getNodeCategory (nodeType s) = structural)
  (Hunregistered : nodeType s ∉ NODE_TYPES) :
  ∃ n, n ∈ nodes (build NODE_TYPES symbols relationships config) ∧
       id n = toNodeId (qualifiedName s) ∧
       type n = "default" ∧
       d_name (data n) = name s ∧
       d_qualifiedName (data n) = Some (qualifiedName s).
Proof.
  rewrite build_nodes. cbv zeta.
  eexists. split.
  - apply (list_elem_of_fmap_2 (buildNode _ _ _ _ _)).
    apply elem_of_filter_bool. split; [done|].
    unfold retained, isStructural. by rewrite Hshown, Hstructural.
  - repeat split. cbn [type buildNode]. unfold isValidNodeType.
    by rewrite bool_decide_eq_false_2.
Qed.

End BuilderFacts.

(** C2, as stated: the qualified names ["A::B"] and ["A_B"] are distinct and
    their two nodes share the id ["A_B"]. *)
Lemma C2_distinct_names_same_id_counterexample :
  let symbols :=
    [mkSymbol "B" "A::B" "PartDef" None None None None;
     mkSymbol "A_B" "A_B" "PartDef" None None None None] in
  NoDup (map qualifiedName symbols) ∧
  ¬ NoDup (map id (nodes (build ["PartDef"] symbols []
                            (mkViewConfig GeneralViewT None None None None)))).
Proof.
  cbv zeta. split; compute_done.
Qed.

(** C3, as stated: a feature that is the empty string is not among the
    content lines of the node. *)
Lemma C3_empty_line_dropped_counterexample :
  let config := mkViewConfig GeneralViewT None None None None in
  let P := mkSymbol "P" "P" "PartDef" None (Some [EmptyString]) None None in
  map content (nodes (build ["PartDef"] [P] [] config))
  ≠ [specMergedContent config [P] P].
Proof. by vm_compute. Qed.

Lemma C9_unregistered_type_gets_default_witness :
  let s := mkSymbol "w" "Pkg::w" "WidgetUsage" None None None None in
  ∃ n, n ∈ nodes (build ["PartDef"; "PartUsage"] [s] []
                    (mkViewConfig GeneralViewT None None None None)) ∧
       id n = "Pkg_w" ∧ type n = "default" ∧
       d_name (data n) = "w" ∧ d_qualifiedName (data n) = Some "Pkg::w".
Proof.
  apply (C9_unregistered_type_gets_default ["PartDef"; "PartUsage"]
           [mkSymbol "w" "Pkg::w" "WidgetUsage" None None None None] []
           (mkViewConfig GeneralViewT None None None None)
           (mkSymbol "w" "Pkg::w" "WidgetUsage" None None None None)).
  - apply list_elem_of_singleton. reflexivity.
  - reflexivity.
  - reflexivity.
  - compute_done.
Defined.

(** *** More on the encoding of qualified names *)

Lemma replace_head c s :
  ∃ r, replace_colons (String c s) = String c r ∨
       (replace_colons (String c s) = String underscore r).
Proof.
  destruct s as [|a s]; [by eexists; left|].
  change (replace_colons (String c (String a s)))
    with (if is_colon c && is_colon a
          then String underscore (replace_colons s)
          else String c (replace_colons (String a s))).
  destruct (is_colon c && is_colon a); eexists; [by right|by left].
Qed.

Lemma replace_no_sep_aux s :
  includes "::" (replace_colons s) = false ∧
  ∀ c, includes "::" (replace_colons (String c s)) = false.
Proof.
  induction s as [|a s [IH1 IH2]].
  - split; [done|]. intros c. simpl replace_colons.
    rewrite includes_sep_cons. simpl. by rewrite andb_false_r.
  - split; [apply IH2|]. intros c.
    change (replace_colons (String c (String a s)))
      with (if is_colon c && is_colon a
            then String underscore (replace_colons s)
            else String c (replace_colons (String a s))).
    destruct (is_colon c && is_colon a) eqn:Hc.
    + by rewrite includes_sep_cons, IH1.
    + rewrite includes_sep_cons, IH2, orb_false_r.
      destruct (replace_head a s) as [r [-> | ->]]; simpl; [done|].
      by rewrite andb_false_r.
Qed.

Lemma replace_without_sep_aux s :
  (includes "::" s = false → replace_colons s = s) ∧
  ∀ c, includes "::" (String c s) = false →
       replace_colons (String c s) = String c s.
Proof.
  induction s as [|a s [IH1 IH2]]; [done|].
  split; [apply IH2|]. intros c Hc.
  rewrite includes_sep_cons in Hc. apply orb_false_iff in Hc as [Hc Ha].
  simpl in Hc.
  change (replace_colons (String c (String a s)))
    with (if is_colon c && is_colon a
          then String underscore (replace_colons s)
          else String c (replace_colons (String a s))).
  rewrite Hc. f_equal. by apply IH2.
Qed.

(** X5: an id never holds the separator ["::"]; encoding an id again
    changes nothing; and a qualified name without separator is its own
    id. *)
Theorem X5_ids_hold_no_separator (qualifiedName : string) :
  includes "::" (toNodeId qualifiedName) = false ∧
  toNodeId (toNodeId qualifiedName) = toNodeId qualifiedName ∧
  (includes "::" qualifiedName = false →
   toNodeId qualifiedName = qualifiedName).
Proof.
  unfold toNodeId.
  pose proof (proj1 (replace_no_sep_aux qualifiedName)) as Hno.
  split; [done|]. split; [|apply replace_without_sep_aux].
  by apply replace_without_sep_aux.
Qed.

Lemma truthy_toNodeId p : truthy p = true → truthy (toNodeId p) = true.
Proof.
  destruct p as [|c p]; [done|]. intros _. unfold toNodeId.
  by destruct (replace_head c p) as [r [-> | ->]].
Qed.

(** *** Invariants of the built graph *)

Lemma elem_of_hasChildren_fold (l : list DiagramSymbol) (acc : gset string) x :
  x ∈ fold_left
        (λ (acc : gset string) symbol,
           match parent symbol with
           | Some p => if truthy p then {[toNodeId p]} ∪ acc else acc
           | None => acc
           end) l acc
  ↔ x ∈ acc ∨ ∃ s, s ∈ l ∧ parentIdOf s = Some x.
Proof.
  revert acc. induction l as [|s l IH]; intros acc; simpl.
  - split; [by left|]. intros [?|(s & Hs & _)]; [done|].
    by apply elem_of_nil in Hs.
  - rewrite IH. unfold parentIdOf at 2. split.
    + intros [Hx | (s' & Hs' & Hp)].
      * destruct (parent s) as [p|] eqn:Hp; [|by left].
        destruct (truthy p) eqn:Ht; [|by left].
        apply elem_of_union in Hx as [->%elem_of_singleton | Hx]; [|by left].
        right. exists s. split; [by left|]. unfold parentIdOf.
        by rewrite Hp, Ht.
      * right. exists s'. split; [by right|done].
    + intros [Hx | (s' & [-> | Hs']%elem_of_cons & Hp)].
      * left. destruct (parent s) as [p|]; [|done].
        destruct (truthy p); [|done]. apply elem_of_union. by right.
      * left. unfold parentIdOf in Hp.
        destruct (parent s) as [p|]; [|done].
        destruct (truthy p); [|done]. simplify_eq.
        apply elem_of_union. left. by apply elem_of_singleton.
      * right. by exists s'.
Qed.

Lemma elem_of_hasChildrenOf (l : list DiagramSymbol) x :
  x ∈ hasChildrenOf l ↔ ∃ s, s ∈ l ∧ parentIdOf s = Some x.
Proof.
  unfold hasChildrenOf. rewrite elem_of_hasChildren_fold. split.
  - intros [Hx|?]; [|done]. by apply not_elem_of_empty in Hx.
  - intros ?. by right.
Qed.

Lemma parentIdOf_truthy s p : parentIdOf s = Some p → truthy p = true.
Proof.
  unfold parentIdOf. destruct (parent s) as [q|]; [|done].
  destruct (truthy q) eqn:Hq; [|done]. intros [= <-].
  by apply truthy_toNodeId.
Qed.

Section BuilderInvariants.

Variable NODE_TYPES : list string.
Variable symbols : list DiagramSymbol.
Variable relationships : list DiagramRelationship.
Variable config : ViewConfig.

(** A node of the built graph is the node of a retained symbol. *)
Lemma elem_of_nodes n :
  n ∈ nodes (build NODE_TYPES symbols relationships config) ↔
  ∃ s, s ∈ List.filter (retained config) symbols ∧
       n = buildNode NODE_TYPES
             (list_to_set
                (map (λ s, toNodeId (qualifiedName s))
                   (List.filter (retained config) symbols)))
             (hasChildrenOf (List.filter (retained config) symbols))
             (propertiesByParent (separate config symbols))
             (portsByParent (separate config symbols)) s.
Proof.
  rewrite build_nodes. cbv zeta. split.
  - intros (s & -> & Hs)%(list_elem_of_fmap_1 (buildNode _ _ _ _ _)).
    by exists s.
  - intros (s & Hs & ->). by apply (list_elem_of_fmap_2 (buildNode _ _ _ _ _)).
Qed.

Lemma buildNode_parentId ids hc pp qp s :
  parentId (buildNode NODE_TYPES ids hc pp qp s)
  = match parentIdOf s with
    | Some p => if bool_decide (p ∈ ids) then Some p else None
    | None => None
    end.
Proof.
  unfold buildNode. cbn [parentId].
  destruct (parentIdOf s) as [p|] eqn:Hp; [|done].
  by rewrite (parentIdOf_truthy _ _ Hp).
Qed.

Lemma buildNode_extent ids hc pp qp s :
  extent (buildNode NODE_TYPES ids hc pp qp s)
  = match parentId (buildNode NODE_TYPES ids hc pp qp s) with
    | Some _ => Some "parent"
    | None => None
    end.
Proof.
  unfold buildNode. cbn [parentId extent].
  destruct (parentIdOf s) as [p|]; [|done]. by destruct (_ && _).
Qed.

Lemma elem_of_node_ids x :
  x ∈ (list_to_set
         (map (λ s, toNodeId (qualifiedName s))
            (List.filter (retained config) symbols)) : gset string)
  ↔ ∃ n, n ∈ nodes (build NODE_TYPES symbols relationships config) ∧
         id n = x.
Proof.
  rewrite elem_of_list_to_set,
    <- (build_node_ids NODE_TYPES symbols relationships config).
  split.
  - intros (n & -> & Hn)%(list_elem_of_fmap_1 id). by exists n.
  - intros (n & Hn & <-). by apply (list_elem_of_fmap_2 id).
Qed.

(** A node is sized as a container exactly when a node of the graph has it
    as parent. *)
Lemma container_iff_parent n :
  n ∈ nodes (build NODE_TYPES symbols relationships config) →
  id n ∈ hasChildrenOf (List.filter (retained config) symbols) ↔
  ∃ n', n' ∈ nodes (build NODE_TYPES symbols relationships config) ∧
        parentId n' = Some (id n).
Proof.
  intros Hn. rewrite elem_of_hasChildrenOf. split.
  - intros (s' & Hs' & Hp). eexists. split.
    + apply elem_of_nodes. by exists s'.
    + rewrite buildNode_parentId, Hp.
      rewrite bool_decide_eq_true_2; [done|].
      apply elem_of_node_ids. by exists n.
  - intros (n' & (s' & Hs' & ->)%elem_of_nodes & Hp).
    rewrite buildNode_parentId in Hp. exists s'. split; [done|].
    destruct (parentIdOf s') as [p|]; [|done]. by case_bool_decide.
Qed.

Lemma node_style n :
  n ∈ nodes (build NODE_TYPES symbols relationships config) →
  let size :=
    Sizing.calculateNodeSize (content n)
      (bool_decide
         (id n ∈ hasChildrenOf (List.filter (retained config) symbols))) in
  style n = Some (mkStyle (Some (Sizing.width size))
                    (Some (Sizing.height size))).
Proof.
  intros (s & Hs & ->)%elem_of_nodes. rewrite buildNode_content. reflexivity.
Qed.

(** X7: the parent links of the built graph are closed: a [parentId] is the
    id of a node of the graph, and [extent] is ["parent"] exactly on the
    nodes that have a [parentId]. *)
Theorem X7_parent_links_closed :
  Forall
    (λ n,
       match parentId n with
       | Some p =>
           (∃ n', n' ∈ nodes (build NODE_TYPES symbols relationships config)
                  ∧ id n' = p) ∧
           extent n = Some "parent"
       | None => extent n = None
       end)
    (nodes (build NODE_TYPES symbols relationships config)).
Proof.
  apply Forall_forall. intros n (s & Hs & ->)%elem_of_nodes.
  rewrite buildNode_extent, buildNode_parentId.
  destruct (parentIdOf s) as [p|]; [|done].
  case_bool_decide as Hp; [|done]. split; [|done].
  by apply elem_of_node_ids.
Qed.

(** X8: a node has the size of its content, as a container exactly when
    some node of the graph has it as parent, and as a leaf otherwise. *)
Theorem X8_container_iff_parent_of_a_node :
  Forall
    (λ n,
       ∃ size,
         style n = Some (mkStyle (Some (Sizing.width size))
                           (Some (Sizing.height size))) ∧
         ((∃ n', n' ∈ nodes (build NODE_TYPES symbols relationships config)
                 ∧ parentId n' = Some (id n)) →
          size = Sizing.calculateNodeSize (content n) true) ∧
         ((¬ ∃ n', n' ∈ nodes (build NODE_TYPES symbols relationships config)
                   ∧ parentId n' = Some (id n)) →
          size = Sizing.calculateNodeSize (content n) false))
    (nodes (build NODE_TYPES symbols relationships config)).
Proof.
  apply Forall_forall. intros n Hn. eexists. split; [by apply node_style|].
  pose proof (container_iff_parent n Hn) as Hiff.
  split; intros Hp.
  - by rewrite bool_decide_eq_true_2 by by apply Hiff.
  - rewrite bool_decide_eq_false_2; [done|]. intros Hin. by apply Hp, Hiff.
Qed.

Lemma buildEdgesFrom_ids k rels (ids : gset string) :
  NoDup (map edge_id (buildEdgesFrom k rels ids)) ∧
  ∀ e, e ∈ buildEdgesFrom k rels ids →
       ∃ j, (k ≤ j)%nat ∧ edge_id e = "edge_" +:+ pretty j.
Proof.
  revert k. induction rels as [|r rels IH]; intros k.
  - split; [constructor|]. by intros e ?%elem_of_nil.
  - destruct (IH (S k)) as [Hnd Hge]. cbn [buildEdgesFrom].
    destruct (_ && _).
    + split.
      * cbn [map]. apply NoDup_cons. split; [|done].
        intros (e & He & Hin)%(list_elem_of_fmap_1 edge_id).
        destruct (Hge e Hin) as (j & Hj & Hid). rewrite Hid in He.
        cbn [edgeOf edge_id] in He.
        apply (inj (String.app "edge_")), (inj pretty) in He. lia.
      * intros e [-> | Hin]%elem_of_cons; [by exists k|].
        destruct (Hge e Hin) as (j & Hj & Hid). exists j. split; [lia|done].
    + split; [done|]. intros e Hin.
      destruct (Hge e Hin) as (j & Hj & Hid). exists j. split; [lia|done].
Qed.

(** X9: no two edges of the built graph share an id. *)
Theorem X9_edge_ids_distinct :
  NoDup (map edge_id (edges (build NODE_TYPES symbols relationships config))).
Proof. apply buildEdgesFrom_ids. Qed.

(** X11: the type of a node is the type of its symbol when that is a
    registered node type, and ["default"] otherwise: no node has a type
    that is neither registered nor ["default"]. *)
Theorem X11_node_types_registered_or_default :
  map type (nodes (build NODE_TYPES symbols relationships config))
  = map (λ s, if bool_decide (nodeType s ∈ NODE_TYPES)
              then nodeType s else "default")
      (List.filter (retained config) symbols) ∧
  Forall (λ n, type n ∈ NODE_TYPES ∨ type n = "default")
    (nodes (build NODE_TYPES symbols relationships config)).
Proof.
  split.
  - rewrite build_nodes. cbv zeta. rewrite map_map. by apply map_ext.
  - apply Forall_forall. intros n (s & Hs & ->)%elem_of_nodes.
    cbn [type buildNode]. unfold isValidNodeType.
    case_bool_decide; [by left|by right].
Qed.

(** X12: the content of a node holds no empty line, and [data.features] is
    absent rather than an empty list. *)
Theorem X12_content_has_no_empty_line :
  Forall
    (λ n, d_features (data n) ≠ Some [] ∧
          Forall (λ line, line ≠ EmptyString) (content n))
    (nodes (build NODE_TYPES symbols relationships config)).
Proof.
  apply Forall_forall. intros n (s & Hs & ->)%elem_of_nodes. split.
  - cbn [data d_features buildNode]. by destruct (allFeaturesOf _ _ _).
  - rewrite buildNode_content. unfold allFeaturesOf.
    apply Forall_forall. intros line [_ Ht]%elem_of_filter_bool.
    by intros ->.
Qed.

(** C2 (amended): for every symbol set, the ids of the nodes are, in order,
    [toNodeId] of the qualified names of the retained symbols, and every
    node carries the qualified name its id is made from.  No two nodes
    share an id exactly when no two retained symbols, at different places,
    have qualified names with the same encoding; this is so when the
    retained qualified names are distinct and none of them contains an
    underscore, and when they are distinct and none of them contains the
    separator. *)
Theorem C2_ids_from_qualified_names :
  let g := build NODE_TYPES symbols relationships config in
  let kept := List.filter (retained config) symbols in
  map id (nodes g) = map (λ s, toNodeId (qualifiedName s)) kept ∧
  (∀ n, n ∈ nodes g →
     ∃ qn, d_qualifiedName (data n) = Some qn ∧ id n = toNodeId qn) ∧
  (NoDup (map id (nodes g)) ↔
   ∀ i j s t, kept !! i = Some s → kept !! j = Some t →
     toNodeId (qualifiedName s) = toNodeId (qualifiedName t) → i = j) ∧
  (NoDup (map qualifiedName kept) →
   Forall (λ s, hasUnderscore (qualifiedName s) = false) kept →
   NoDup (map id (nodes g))) ∧
  (NoDup (map qualifiedName kept) →
   Forall (λ s, includes "::" (qualifiedName s) = false) kept →
   NoDup (map id (nodes g))).
Proof.
  intros g kept.
  assert (Hids : map id (nodes g)
                 = map (λ s, toNodeId (qualifiedName s)) kept).
  { apply build_node_ids. }
  assert (Hinj : ∀ (ok : string → Prop),
            (∀ a b, ok a → ok b → toNodeId a = toNodeId b → a = b) →
            NoDup (map qualifiedName kept) →
            Forall (λ s, ok (qualifiedName s)) kept →
            NoDup (map id (nodes g))).
  { intros ok Hok Hnd Hall. rewrite Hids.
    rewrite <- (map_map qualifiedName toNodeId).
    apply (NoDup_fmap_2_strong toNodeId); [|done].
    intros x y (sx & -> & Hx)%(list_elem_of_fmap_1 qualifiedName)
      (sy & -> & Hy)%(list_elem_of_fmap_1 qualifiedName).
    rewrite Forall_forall in Hall. apply Hok; by apply Hall. }
  split; [done|]. split; [|split; [|split]].
  - intros n (s & Hs & ->)%elem_of_nodes. by exists (qualifiedName s).
  - rewrite Hids.
    change (map ?f kept) with (f <$> kept). rewrite NoDup_alt. split.
    + intros Hnd i j s t Hi Hj Heq.
      apply (Hnd i j (toNodeId (qualifiedName s)));
        rewrite list_lookup_fmap; [by rewrite Hi|by rewrite Hj, Heq].
    + intros Hnd i j x Hi Hj. rewrite list_lookup_fmap in Hi, Hj.
      destruct (kept !! i) as [s|] eqn:Hs; [|done].
      destruct (kept !! j) as [t|] eqn:Ht; [|done].
      simpl in Hi, Hj. apply (Hnd i j s t); [done|done|congruence].
  - apply (Hinj (λ a, hasUnderscore a = false)). apply toNodeId_inj.
  - apply (Hinj (λ a, includes "::" a = false)).
    intros a b Ha Hb. unfold toNodeId.
    by rewrite (proj1 (replace_without_sep_aux a) Ha),
      (proj1 (replace_without_sep_aux b) Hb).
Qed.

(** X10: when no symbol is retained (no symbol at all, or none that is shown
    and structural) the graph has no node and no edge, whatever the
    relationships. *)
Theorem X10_nothing_retained_empty_graph
  (Hnone : List.filter (retained config) symbols = []) :
  build NODE_TYPES symbols relationships config = mkBuilt [] [].
Proof.
  assert (Hn : nodes (build NODE_TYPES symbols relationships config) = []).
  { by rewrite build_nodes, Hnone. }
  unfold build in *. cbv zeta in *. cbn [nodes] in Hn. rewrite Hn. f_equal.
  unfold buildEdges. simpl.
  generalize 0. generalize (List.filter
    (λ r, shouldShowEdgeType (rel_type r) config) relationships).
  intros rels. induction rels as [|r rels IH]; intros k; simpl; [done|].
  rewrite bool_decide_eq_false_2; [apply IH|]. set_solver.
Qed.

End BuilderInvariants.

(** The names [my_part] and [Pkg::other_part]: one has an underscore, the
    other a separator, and their ids differ. *)
Lemma C2_ids_from_qualified_names_witness :
  let symbols :=
    [mkSymbol "my_part" "my_part" "PartDef" None None None None;
     mkSymbol "other_part" "Pkg::other_part" "PartDef" None None None None] in
  let g := build ["PartDef"] symbols []
             (mkViewConfig GeneralViewT None None None None) in
  map id (nodes g) = ["my_part"; "Pkg_other_part"] ∧ NoDup (map id (nodes g)).
Proof.
  intros symbols g.
  destruct (C2_ids_from_qualified_names ["PartDef"] symbols []
              (mkViewConfig GeneralViewT None None None None))
    as (Hids & _ & Hiff & _).
  split; [exact Hids|]. apply Hiff.
  intros [|[|i]] [|[|j]] s t Hs Ht Heq; try discriminate Hs;
    try discriminate Ht; try reflexivity;
    injection Hs as <-; injection Ht as <-; discriminate Heq.
Defined.

Lemma X10_nothing_retained_empty_graph_witness :
  build ["PartDef"]
    [mkSymbol "p" "A::p" "PortUsage" (Some "A") None None None]
    [mkRelationship "Typing" "A::p" "B" None None]
    (mkViewConfig GeneralViewT None None None None)
  = mkBuilt [] [].
Proof. by apply X10_nothing_retained_empty_graph. Defined.

End GeneralViewFacts.

(** ** The request for the layout engine *)

Module ElkLayoutFacts.
Import JsString JsStringFacts GeneralView GeneralViewFacts ElkLayout.

Lemma containerPadding_elkPadding top :
  containerPadding top = elkPadding top 20 30 20.
Proof. reflexivity. Qed.

Lemma addChild_lookup cm n k :
  default [] (addChild cm n !! k)
  = default [] (cm !! k) ++ (if bool_decide (parentId n = k) then [n] else []).
Proof.
  unfold addChild. case_bool_decide as Hk.
  - subst. by rewrite lookup_insert_eq.
  - rewrite lookup_insert_ne by done. by rewrite app_nil_r.
Qed.

Lemma childrenMap_fold nodes cm k :
  default [] (fold_left addChild nodes cm !! k)
  = default [] (cm !! k)
    ++ List.filter (λ n, bool_decide (parentId n = k)) nodes.
Proof.
  revert cm. induction nodes as [|n nodes IH]; intros cm; simpl.
  - by rewrite app_nil_r.
  - rewrite IH, addChild_lookup, <- app_assoc.
    by destruct (bool_decide (parentId n = k)).
Qed.

Lemma childrenMapOf_lookup nodes k :
  default [] (childrenMapOf nodes !! k)
  = List.filter (λ n, bool_decide (parentId n = k)) nodes.
Proof. unfold childrenMapOf. by rewrite childrenMap_fold, lookup_empty. Qed.

Lemma elem_of_children nodes k c :
  c ∈ default [] (childrenMapOf nodes !! k) ↔ c ∈ nodes ∧ parentId c = k.
Proof.
  rewrite childrenMapOf_lookup, elem_of_filter_bool.
  by rewrite bool_decide_eq_true.
Qed.

(** The shape of the node built for [x]. *)
Lemma buildElkNode_Some fuel cm x e :
  buildElkNode fuel cm x = Some e →
  ∃ fuel', fuel = S fuel' ∧
    elk_id e = id x ∧
    match childrenOf cm x with
    | [] => elk_layoutOptions e = None ∧ elk_children e = None
    | _ :: _ =>
        elk_layoutOptions e
        = Some (containerLayoutOptions
                  (Sizing.calculateElkTopPadding (content x))) ∧
        ∃ kids, elk_children e = Some kids ∧
                Forall2 (λ c k, buildElkNode fuel' cm c = Some k)
                  (childrenOf cm x) kids
    end.
Proof.
  destruct fuel as [|fuel']; [done|]. cbn [buildElkNode].
  fold (childrenOf cm x). fold (content x).
  intros H. exists fuel'. split; [done|].
  destruct (childrenOf cm x) as [|c cs] eqn:Hcs.
  - simpl in H. by simplify_eq.
  - cbn [length Nat.ltb Nat.leb] in H.
    destruct (mapM _ (c :: cs)) as [kids|] eqn:Hk; simplify_eq/=.
    repeat split. exists kids. split; [done|]. by apply mapM_Some.
Qed.

(** Every node of the tree built for [x] is built for [x] or for a node
    listed in the children map. *)
Lemma nodeOf_built cm fuel x e e' :
  buildElkNode fuel cm x = Some e → nodeOf e' e →
  ∃ fuel' x',
    (x' = x ∨ ∃ y, x' ∈ childrenOf cm y) ∧
    buildElkNode fuel' cm x' = Some e'.
Proof.
  intros Hb Hn. revert fuel x Hb.
  induction Hn as [e|e c kids e' Hkids Hc Hn IH]; intros fuel x Hb.
  - exists fuel, x. by split; [left|].
  - apply buildElkNode_Some in Hb as (fuel' & -> & _ & Hshape).
    destruct (childrenOf cm x) as [|c0 cs] eqn:Hcs.
    + destruct Hshape as [_ Hnone]. congruence.
    + destruct Hshape as (_ & kids' & Hkids' & Hall).
      assert (kids' = kids) as -> by congruence.
      apply list_elem_of_lookup in Hc as [i Hi].
      destruct (Forall2_lookup_r _ _ _ _ _ Hall Hi) as (child & Hchild & Hbc).
      destruct (IH _ _ Hbc) as (f2 & x2 & Hx2 & Hb2).
      exists f2, x2. split; [|done]. right.
      destruct Hx2 as [-> | Hx2]; [|done].
      exists x. rewrite Hcs. by eapply list_elem_of_lookup_2.
Qed.

(** A call succeeds when the fuel exceeds the length of every chain of
    calls below the node. *)
Lemma buildElkNode_enough_fuel cm fuel x :
  (∀ l, descends cm x l → length l < fuel) →
  is_Some (buildElkNode fuel cm x).
Proof.
  revert x. induction fuel as [|fuel IH]; intros x Hx.
  - specialize (Hx [] (descends_nil _ _)). simpl in Hx. lia.
  - cbn [buildElkNode]. fold (childrenOf cm x).
    destruct (0 <? length (childrenOf cm x))%nat; [|done].
    assert (is_Some (mapM (buildElkNode fuel cm) (childrenOf cm x)))
      as [kids ->]; [|done].
    apply mapM_is_Some, Forall_forall. intros c Hc. apply IH.
    intros l Hl. specialize (Hx (c :: l) (descends_cons _ _ _ _ Hc Hl)).
    simpl in Hx. lia.
Qed.

Lemma descends_lookup cm x l :
  descends cm x l →
  ∀ k a b, (x :: l) !! k = Some a → (x :: l) !! S k = Some b →
           b ∈ childrenOf cm a.
Proof.
  induction 1 as [x|x c l Hc Hl IH]; intros k a b Ha Hb.
  - by destruct k.
  - destruct k as [|k]; simplify_eq/=; [done|]. by eapply IH.
Qed.

Section Acyclic.

Variable nodes : list Node.
Hypothesis ids_distinct : NoDup (map id nodes).

Lemma same_id_same_node a b :
  a ∈ nodes → b ∈ nodes → id a = id b → a = b.
Proof.
  intros [i Hi]%list_elem_of_lookup [j Hj]%list_elem_of_lookup Hid.
  assert (i = j) as ->; [|congruence].
  eapply (NoDup_lookup (map id nodes)); [done| |].
  - change (map id nodes) with (id <$> nodes).
    by rewrite list_lookup_fmap, Hi.
  - change (map id nodes) with (id <$> nodes).
    by rewrite list_lookup_fmap, Hj, Hid.
Qed.

(** Below a root, the nodes of a chain of calls have distinct ids. *)
Lemma chain_ids_distinct x l :
  x ∈ nodes → parentId x = None → descends (childrenMapOf nodes) x l →
  ∀ i j a b, i < j → (x :: l) !! i = Some a → (x :: l) !! j = Some b →
             id a ≠ id b.
Proof.
  intros Hx Hroot Hl.
  pose proof (descends_lookup _ _ _ Hl) as Hstep.
  assert (Hmem : ∀ k a, (x :: l) !! k = Some a → a ∈ nodes).
  { intros [|k] a Ha; [by simplify_eq/=|].
    destruct (lookup_lt_is_Some_2 (x :: l) k) as [a' Ha'].
    { apply lookup_lt_Some in Ha. lia. }
    pose proof (Hstep _ _ _ Ha' Ha) as Hc.
    by apply elem_of_children in Hc as [? _]. }
  assert (Hpar : ∀ k a b, (x :: l) !! k = Some a → (x :: l) !! S k = Some b →
                          parentId b = Some (id a)).
  { intros k a b Ha Hb.
    pose proof (Hstep _ _ _ Ha Hb) as Hc.
    by apply elem_of_children in Hc as [_ ?]. }
  intros i. induction i as [|i IH]; intros j a b Hij Ha Hb Hid.
  - destruct j as [|j]; [lia|]. simplify_eq/=.
    destruct (lookup_lt_is_Some_2 (a :: l) j) as [a' Ha'].
    { apply lookup_lt_Some in Hb. simpl in *. lia. }
    assert (a = b) as ->.
    { apply same_id_same_node; [done| |done]. by apply (Hmem (S j)). }
    specialize (Hpar _ _ _ Ha' Hb). congruence.
  - destruct j as [|j]; [lia|].
    destruct (lookup_lt_is_Some_2 (x :: l) i) as [a' Ha'].
    { apply lookup_lt_Some in Ha. lia. }
    destruct (lookup_lt_is_Some_2 (x :: l) j) as [b' Hb'].
    { apply lookup_lt_Some in Hb. lia. }
    assert (a = b) as ->.
    { apply same_id_same_node; [by eapply Hmem|by eapply Hmem|done]. }
    pose proof (Hpar _ _ _ Ha' Ha) as P1.
    pose proof (Hpar _ _ _ Hb' Hb) as P2.
    apply (IH j a' b'); [lia|done|done|congruence].
Qed.

Lemma chain_short x l :
  x ∈ nodes → parentId x = None → descends (childrenMapOf nodes) x l →
  length l < length nodes.
Proof.
  intros Hx Hroot Hl.
  pose proof (chain_ids_distinct x l Hx Hroot Hl) as Hd.
  pose proof (descends_lookup _ _ _ Hl) as Hstep.
  assert (Hnd : NoDup (id <$> x :: l)).
  { apply NoDup_alt. intros i j y Hi Hj.
    rewrite list_lookup_fmap in Hi, Hj.
    destruct ((x :: l) !! i) as [a|] eqn:Ha; [|done].
    destruct ((x :: l) !! j) as [b|] eqn:Hb; [|done].
    simplify_eq/=.
    destruct (Nat.lt_trichotomy i j) as [Hlt | [-> | Hlt]]; [|done|].
    - by destruct (Hd _ _ _ _ Hlt Ha Hb).
    - destruct (Hd _ _ _ _ Hlt Hb Ha). congruence. }
  assert (Hsub : (id <$> x :: l) ⊆+ (id <$> nodes)).
  { apply NoDup_submseteq; [done|].
    intros y (a & -> & Ha)%list_elem_of_fmap_1.
    apply list_elem_of_fmap_2.
    apply list_elem_of_lookup in Ha as [[|k] Hk]; [by simplify_eq/=|].
    destruct (lookup_lt_is_Some_2 (x :: l) k) as [a' Ha'].
    { apply lookup_lt_Some in Hk. lia. }
    pose proof (Hstep _ _ _ Ha' Hk) as Hc.
    by apply elem_of_children in Hc as [? _]. }
  apply submseteq_length in Hsub. rewrite !length_fmap in Hsub.
  simpl in Hsub. lia.
Qed.

(** With distinct ids the request is built: the calls are never deeper than
    the number of nodes. *)
Lemma buildElkGraph_total edges options :
  is_Some (buildElkGraph (length nodes) nodes edges options).
Proof.
  unfold buildElkGraph. cbv zeta.
  assert (is_Some (mapM (buildElkNode (length nodes) (childrenMapOf nodes))
                     (default [] (childrenMapOf nodes !! None))))
    as [kids ->]; [|done].
  apply mapM_is_Some, Forall_forall. intros x [Hx Hroot]%elem_of_children.
  apply buildElkNode_enough_fuel. intros l Hl. by apply (chain_short x l).
Qed.

End Acyclic.

Lemma container_padding_option top :
  optionOf "elk.padding" (containerLayoutOptions top)
  = Some (elkPadding top 20 30 20).
Proof. reflexivity. Qed.

(** *** More on the request *)

Lemma buildElkNode_dims fuel cm x e :
  buildElkNode fuel cm x = Some e →
  elk_width e = Some (dimension style_width x 180) ∧
  elk_height e = Some (dimension style_height x 80).
Proof.
  destruct fuel as [|fuel']; [done|]. cbn [buildElkNode].
  destruct (0 <? length _)%nat; [|by intros [= <-]].
  destruct (mapM _ _); [|done]. by intros [= <-].
Qed.

Lemma truthyNumber_Some n v : truthyNumber n = Some v → n = Some v ∧ v ≠ 0%Z.
Proof.
  destruct n as [w|]; [|done]. simpl.
  destruct (Z.eqb_spec w 0); [done|]. by intros [= <-].
Qed.

Lemma dimension_nonzero get node fallback :
  fallback ≠ 0%Z → dimension get node fallback ≠ 0%Z.
Proof.
  intros Hf. unfold dimension.
  destruct (truthyNumber (style node ≫= get)) as [v|] eqn:Hs.
  - by apply truthyNumber_Some in Hs as [_ ?].
  - destruct (truthyNumber (measured node ≫= get)) as [v|] eqn:Hm; [|done].
    by apply truthyNumber_Some in Hm as [_ ?].
Qed.

Lemma dimension_style get node st v fallback :
  style node = Some st → get st = Some v → v ≠ 0%Z →
  dimension get node fallback = v.
Proof.
  intros Hst Hget Hv. unfold dimension. rewrite Hst. simpl. rewrite Hget.
  simpl. by destruct (Z.eqb_spec v 0).
Qed.

(** A node of the request below the root is built for a node of the list. *)
Lemma request_node_built fuel nodes edges options r tops top e :
  buildElkGraph fuel nodes edges options = Some r →
  elk_children r = Some tops → top ∈ tops → nodeOf e top →
  ∃ fuel' x, x ∈ nodes ∧
             buildElkNode fuel' (childrenMapOf nodes) x = Some e.
Proof.
  intros Hg Htops Htop He.
  unfold buildElkGraph in Hg. cbv zeta in Hg.
  destruct (mapM _ _) as [elkChildren|] eqn:Hm; simplify_eq/=.
  apply mapM_Some in Hm.
  apply list_elem_of_lookup in Htop as [i Hi].
  destruct (Forall2_lookup_r _ _ _ _ _ Hm Hi) as (x0 & Hx0 & Hb0).
  apply list_elem_of_lookup_2, elem_of_children in Hx0 as [Hx0 _].
  destruct (nodeOf_built _ _ _ _ _ Hb0 He) as (fuel' & x & Hx & Hbx).
  exists fuel', x. split; [|done].
  destruct Hx as [-> | [y Hy]]; [done|].
  by apply elem_of_children in Hy as [? _].
Qed.

(** X14: no node of the request has a zero width or height: a width or
    height that is zero or absent in [style] is taken from [measured], and
    from 180 and 80 when it is zero or absent there too. *)
Theorem X14_request_sizes_not_zero
  (fuel : nat) (nodes : list Node) (edges : list Edge)
  (options : list (string * string)) (r : ElkNode)
  (Hbuilt : buildElkGraph fuel nodes edges options = Some r) :
  ∀ tops top e,
    elk_children r = Some tops → top ∈ tops → nodeOf e top →
    ∃ x w h, x ∈ nodes ∧ elk_id e = id x ∧
      elk_width e = Some w ∧ elk_height e = Some h ∧
      w ≠ 0%Z ∧ h ≠ 0%Z ∧
      w = dimension style_width x 180 ∧ h = dimension style_height x 80 ∧
      (∀ st v, style x = Some st → style_width st = Some v → v ≠ 0%Z →
               w = v) ∧
      (∀ st v, style x = Some st → style_height st = Some v → v ≠ 0%Z →
               h = v).
Proof.
  intros tops top e Htops Htop He.
  destruct (request_node_built _ _ _ _ _ _ _ _ Hbuilt Htops Htop He)
    as (fuel' & x & Hx & Hb).
  destruct (buildElkNode_dims _ _ _ _ Hb) as [Hw Hh].
  apply buildElkNode_Some in Hb as (f & _ & Hid & _).
  exists x, (dimension style_width x 180), (dimension style_height x 80).
  repeat split; try done; try by apply dimension_nonzero.
  - intros st v Hst Hv Hnz. by apply (dimension_style _ _ st).
  - intros st v Hst Hv Hnz. by apply (dimension_style _ _ st).
Qed.

(** X16: the request has the id ["root"] and the options it is given; its
    children are built for the nodes without [parentId], in the order of
    the list; and the children of a node of the request are built for the
    nodes whose [parentId] is its id, in the order of the list. *)
Theorem X16_request_follows_parent_links
  (fuel : nat) (nodes : list Node) (edges : list Edge)
  (options : list (string * string)) (r : ElkNode)
  (Hbuilt : buildElkGraph fuel nodes edges options = Some r) :
  elk_id r = "root" ∧ elk_layoutOptions r = Some options ∧
  (∃ tops, elk_children r = Some tops ∧
     map elk_id tops
     = map id (nodesUnder None nodes)) ∧
  (∀ tops top e,
     elk_children r = Some tops → top ∈ tops → nodeOf e top →
     ∃ x, x ∈ nodes ∧ elk_id e = id x ∧
       map elk_id (default [] (elk_children e))
       = map id (nodesUnder (Some (id x)) nodes)).
Proof.
  assert (Hids : ∀ f cs kids,
            Forall2 (λ c k, buildElkNode f (childrenMapOf nodes) c = Some k)
              cs kids → map elk_id kids = map id cs).
  { intros f cs kids Hall. induction Hall as [|c k cs kids Hb _ IH]; [done|].
    simpl. rewrite IH. f_equal.
    by apply buildElkNode_Some in Hb as (? & _ & ? & _). }
  split; [|split; [|split]].
  - unfold buildElkGraph in Hbuilt. cbv zeta in Hbuilt.
    destruct (mapM _ _); by simplify_eq/=.
  - unfold buildElkGraph in Hbuilt. cbv zeta in Hbuilt.
    destruct (mapM _ _); by simplify_eq/=.
  - unfold buildElkGraph in Hbuilt. cbv zeta in Hbuilt.
    destruct (mapM _ _) as [tops|] eqn:Hm; simplify_eq/=.
    exists tops. split; [done|]. apply mapM_Some in Hm.
    rewrite (Hids _ _ _ Hm). f_equal. apply childrenMapOf_lookup.
  - intros tops top e Htops Htop He.
    destruct (request_node_built _ _ _ _ _ _ _ _ Hbuilt Htops Htop He)
      as (fuel' & x & Hx & Hb).
    exists x. split; [done|].
    apply buildElkNode_Some in Hb as (f & _ & Hid & Hshape).
    split; [done|]. unfold childrenOf in Hshape.
    rewrite childrenMapOf_lookup in Hshape.
    fold (nodesUnder (Some (id x)) nodes) in Hshape.
    destruct (nodesUnder (Some (id x)) nodes) as [|c cs] eqn:Hcs.
    + destruct Hshape as [_ ->]. done.
    + destruct Hshape as (_ & kids & -> & Hall). simpl default.
      by rewrite (Hids _ _ _ Hall).
Qed.

Lemma X14_request_sizes_not_zero_witness :
  let nodes :=
    [mkNode "A" "PartDef" (mkPosition 0 0)
       (mkData "A" None None None None)
       (Some (mkStyle (Some 0%Z) None)) None None None] in
  ∃ r, buildElkGraph 1 nodes [] [] = Some r ∧
    ∀ tops top e,
      elk_children r = Some tops → top ∈ tops → nodeOf e top →
      ∃ x w h, x ∈ nodes ∧ elk_id e = id x ∧
        elk_width e = Some w ∧ elk_height e = Some h ∧
        w ≠ 0%Z ∧ h ≠ 0%Z ∧
        w = dimension style_width x 180 ∧ h = dimension style_height x 80 ∧
        (∀ st v, style x = Some st → style_width st = Some v → v ≠ 0%Z →
                 w = v) ∧
        (∀ st v, style x = Some st → style_height st = Some v → v ≠ 0%Z →
                 h = v).
Proof.
  intros nodes. eexists. split; [by vm_compute|].
  apply (X14_request_sizes_not_zero 1 nodes [] []). by vm_compute.
Defined.

Lemma X16_request_follows_parent_links_witness :
  let nodes :=
    [mkNode "A" "PartDef" (mkPosition 0 0)
       (mkData "A" None None None None) None None None None;
     mkNode "B" "PartDef" (mkPosition 0 0)
       (mkData "B" None None None None) None None (Some "A") None] in
  ∃ r, buildElkGraph 2 nodes [] [] = Some r ∧
    elk_id r = "root" ∧ elk_layoutOptions r = Some [] ∧
    (∃ tops, elk_children r = Some tops ∧
       map elk_id tops
       = map id (nodesUnder None nodes)) ∧
    (∀ tops top e,
       elk_children r = Some tops → top ∈ tops → nodeOf e top →
       ∃ x, x ∈ nodes ∧ elk_id e = id x ∧
         map elk_id (default [] (elk_children e))
         = map id (nodesUnder (Some (id x)) nodes)).
Proof.
  intros nodes. eexists. split; [by vm_compute|].
  apply (X16_request_follows_parent_links 2 nodes [] []). by vm_compute.
Defined.

Lemma built_children_ids fuel nodes cs kids :
  Forall2 (λ c k, buildElkNode fuel (childrenMapOf nodes) c = Some k) cs kids →
  map elk_id kids = map id cs.
Proof.
  intros Hall. induction Hall as [|c k cs kids Hb _ IH]; [done|].
  simpl. rewrite IH. f_equal.
  by apply buildElkNode_Some in Hb as (? & _ & ? & _).
Qed.

(** C8: with distinct node ids the request is built.  In any request that
    is built, the nodes under the root are those of the nodes without
    parent, in their order, and every node of the request is the node of a
    React Flow node.  When nodes of the list have that node as parent, the
    request node has them as children, in their order, and its padding is
    the Size Calculator's top padding for the content of the node (its
    content height, which includes the header, plus the child gap) at the
    top and the constants 20, 30 and 20 at the left, the bottom and the
    right; when none has, the request node has no children and no padding.
    For a part [P] with the attribute [x : T] and the nested part [C], the
    request node of [P] has the child [P_C] and the top padding 150. *)
Theorem C8_container_top_padding
  (nodes : list Node) (edges : list Edge) (options : list (string * string)) :
  (NoDup (map id nodes) →
   is_Some (buildElkGraph (length nodes) nodes edges options)) ∧
  (∀ fuel g,
     buildElkGraph fuel nodes edges options = Some g →
     ∃ tops, elk_children g = Some tops ∧
       map elk_id tops = map id (nodesUnder None nodes) ∧
       ∀ top e, top ∈ tops → nodeOf e top →
         ∃ node, node ∈ nodes ∧ elk_id e = id node ∧
           match nodesUnder (Some (id node)) nodes with
           | [] => elk_children e = None ∧ elk_layoutOptions e = None
           | c :: cs =>
               (∃ kids, elk_children e = Some kids ∧
                        map elk_id kids = map id (c :: cs)) ∧
               elk_layoutOptions e ≫= optionOf "elk.padding"
               = Some (elkPadding
                         (Sizing.calculateElkTopPadding (content node))
                         20 30 20)
           end ∧
           Sizing.calculateElkTopPadding (content node)
           = (Sizing.calculateContentHeight (content node)
              + Sizing.childGap)%Z) ∧
  (let symbols :=
     [mkSymbol "P" "P" "PartDef" None None None None;
      mkSymbol "x" "P::x" "AttributeUsage" (Some "P") None (Some "T") None;
      mkSymbol "C" "P::C" "PartUsage" (Some "P") None None None] in
   let g := build ["PartDef"; "PartUsage"] symbols []
              (mkViewConfig GeneralViewT None None None None) in
   map (λ e, (elk_id e, elk_layoutOptions e ≫= optionOf "elk.padding",
              from_option (map elk_id) [] (elk_children e)))
     (default []
        (buildElkGraph (length (GeneralView.nodes g)) (GeneralView.nodes g)
           (GeneralView.edges g) [] ≫= elk_children))
   = [("P", Some "[top=150,left=20,bottom=30,right=20]", ["P_C"])]).
Proof.
  split; [intros Hnd; by apply buildElkGraph_total|]. split; [|by vm_compute].
  intros fuel g Hg.
  assert (∃ tops, elk_children g = Some tops ∧
            Forall2 (λ c k, buildElkNode fuel (childrenMapOf nodes) c = Some k)
              (nodesUnder None nodes) tops) as (tops & Htops & Hbuilt).
  { unfold buildElkGraph in Hg. cbv zeta in Hg.
    destruct (mapM _ _) as [tops|] eqn:Hm; simplify_eq/=.
    exists tops. split; [done|]. apply mapM_Some in Hm.
    unfold nodesUnder. by rewrite <- childrenMapOf_lookup. }
  exists tops. split; [done|]. split; [by eapply built_children_ids|].
  intros top e Htop He.
  destruct (request_node_built _ _ _ _ _ _ _ _ Hg Htops Htop He)
    as (fuel' & x & Hx & Hb).
  exists x. split; [done|].
  apply buildElkNode_Some in Hb as (f & _ & Hid & Hshape).
  split; [done|]. split; [|done]. unfold childrenOf in Hshape.
  rewrite childrenMapOf_lookup in Hshape.
  fold (nodesUnder (Some (id x)) nodes) in Hshape.
  destruct (nodesUnder (Some (id x)) nodes) as [|c cs] eqn:Hcs.
  - by destruct Hshape as [? ?].
  - destruct Hshape as (Hopts & kids & Hkids & Hall). split.
    + exists kids. split; [done|]. by eapply built_children_ids.
    + rewrite Hopts. apply container_padding_option.
Qed.

(** *** The request built from the graph of the general view *)

Section BuiltGraphRequest.

Variable NODE_TYPES : list string.
Variable symbols : list DiagramSymbol.
Variable relationships : list DiagramRelationship.
Variable config : ViewConfig.

Let g := build NODE_TYPES symbols relationships config.

Lemma built_edge_endpoints e :
  e ∈ edges g →
  edge_source e ∈ (list_to_set (map id (nodes g)) : gset string) ∧
  edge_target e ∈ (list_to_set (map id (nodes g)) : gset string).
Proof.
  unfold g, build. cbv zeta. cbn [edges nodes]. unfold buildEdges. cbv zeta.
  by intros (j & rel & _ & -> & Hs & Ht)%buildEdgesFrom_spec.
Qed.

Lemma built_container x :
  x ∈ nodes g →
  childrenOf (childrenMapOf (nodes g)) x ≠ [] ↔
  id x ∈ hasChildrenOf (List.filter (retained config) symbols).
Proof.
  intros Hx. unfold g. rewrite (container_iff_parent _ _ relationships _ _ Hx).
  unfold childrenOf. split.
  - intros Hne.
    destruct (default [] (childrenMapOf _ !! Some (id x))) as [|c cs] eqn:Hc;
      [done|].
    exists c. apply elem_of_children. rewrite Hc. by left.
  - intros (c & Hc) Hnil. apply elem_of_children in Hc. rewrite Hnil in Hc.
    by apply elem_of_nil in Hc.
Qed.

(** X13: in the request built from the graph of the general view, a node
    with children has the container size the builder gave it: the width 300
    and a height that leaves at least 40 below the top padding it asks for,
    so the padding never exceeds the node.  A node without children has the
    leaf width 200, and no options. *)
Theorem X13_container_padding_fits
  (fuel : nat) (options : list (string * string)) (r : ElkNode)
  (Hbuilt : buildElkGraph fuel (nodes g) (edges g) options = Some r) :
  ∀ tops top e,
    elk_children r = Some tops → top ∈ tops → nodeOf e top →
    ∃ x, x ∈ nodes g ∧ elk_id e = id x ∧
      match elk_children e with
      | Some kids =>
          kids ≠ [] ∧
          elk_layoutOptions e
          = Some (containerLayoutOptions
                    (Sizing.calculateElkTopPadding (content x))) ∧
          elk_width e = Some 300%Z ∧
          ∃ h, elk_height e = Some h ∧
               (Sizing.calculateElkTopPadding (content x) + 40 ≤ h)%Z
      | None =>
          elk_layoutOptions e = None ∧
          elk_width e = Some 200%Z ∧
          elk_height e
          = Some (Z.max 90 (Sizing.calculateContentHeight (content x)))
      end.
Proof.
  intros tops top e Htops Htop He.
  destruct (request_node_built _ _ _ _ _ _ _ _ Hbuilt Htops Htop He)
    as (fuel' & x & Hx & Hb).
  exists x. split; [done|].
  destruct (buildElkNode_dims _ _ _ _ Hb) as [Hw Hh].
  pose proof (node_style _ _ relationships _ _ Hx) as Hst. cbv zeta in Hst.
  pose proof (built_container x Hx) as Hc.
  pose proof (SizingFacts.contentHeight_nonempty (content x)) as Hpos.
  apply buildElkNode_Some in Hb as (f & _ & Hid & Hshape).
  split; [done|].
  destruct (childrenOf (childrenMapOf (nodes g)) x) as [|c cs] eqn:Hcs.
  - destruct Hshape as [Hlo ->]. split; [done|].
    rewrite bool_decide_eq_false_2 in Hst by (intros Hin; by apply Hc in Hin).
    rewrite Hw, Hh.
    rewrite (dimension_style _ _ _ _ _ Hst eq_refl) by done.
    rewrite (dimension_style _ _ _ _ _ Hst eq_refl); [done|].
    unfold Sizing.calculateNodeSize. cbn [Sizing.height].
    unfold Sizing.minHeight. lia.
  - destruct Hshape as (Hlo & kids & -> & Hall). split.
    { intros ->. by apply Forall2_nil_inv_r in Hall. }
    split; [done|].
    rewrite bool_decide_eq_true_2 in Hst by by apply Hc.
    rewrite Hw, Hh.
    rewrite (dimension_style _ _ _ _ _ Hst eq_refl) by done. split; [done|].
    eexists. split.
    + rewrite (dimension_style _ _ _ _ _ Hst eq_refl); [done|].
      unfold Sizing.calculateNodeSize. cbn [Sizing.height].
      unfold Sizing.minContainerHeight. lia.
    + unfold Sizing.calculateNodeSize, Sizing.calculateElkTopPadding.
      cbn [Sizing.height]. unfold Sizing.childGap. lia.
Qed.

(** X15: the edges of the request are the edges of the built graph, one for
    one and in order, each with its id, its source as only source and its
    target as only target: the check that drops edges whose endpoints are
    not nodes drops nothing here. *)
Theorem X15_request_keeps_built_edges
  (fuel : nat) (options : list (string * string)) (r : ElkNode)
  (Hbuilt : buildElkGraph fuel (nodes g) (edges g) options = Some r) :
  elk_edges r = Some (map elkEdgeOf (edges g)).
Proof.
  unfold buildElkGraph in Hbuilt. cbv zeta in Hbuilt.
  destruct (mapM _ _) as [tops|]; simplify_eq/=. f_equal.
  rewrite filter_all; [done|].
  intros e [Hs Ht]%built_edge_endpoints.
  by rewrite !bool_decide_eq_true_2.
Qed.

End BuiltGraphRequest.

Lemma X13_container_padding_fits_witness :
  let g :=
    build ["PartDef"; "PartUsage"]
      [mkSymbol "A" "A" "PartDef" None (Some ["attribute mass"]) None None;
       mkSymbol "b" "A::b" "PartUsage" (Some "A") None None None]
      [] (mkViewConfig GeneralViewT None None None None) in
  ∃ r, buildElkGraph 2 (nodes g) (edges g) [] = Some r ∧
    ∀ tops top e,
      elk_children r = Some tops → top ∈ tops → nodeOf e top →
      ∃ x, x ∈ nodes g ∧ elk_id e = id x ∧
        match elk_children e with
        | Some kids =>
            kids ≠ [] ∧
            elk_layoutOptions e
            = Some (containerLayoutOptions
                      (Sizing.calculateElkTopPadding (content x))) ∧
            elk_width e = Some 300%Z ∧
            ∃ h, elk_height e = Some h ∧
                 (Sizing.calculateElkTopPadding (content x) + 40 ≤ h)%Z
        | None =>
            elk_layoutOptions e = None ∧
            elk_width e = Some 200%Z ∧
            elk_height e
            = Some (Z.max 90 (Sizing.calculateContentHeight (content x)))
        end.
Proof.
  intros g. eexists. split; [by vm_compute|].
  apply (X13_container_padding_fits ["PartDef"; "PartUsage"]
           [mkSymbol "A" "A" "PartDef" None (Some ["attribute mass"]) None None;
            mkSymbol "b" "A::b" "PartUsage" (Some "A") None None None]
           [] (mkViewConfig GeneralViewT None None None None) 2 []).
  by vm_compute.
Defined.

Lemma X15_request_keeps_built_edges_witness :
  let g :=
    build ["PartDef"]
      [mkSymbol "A" "P::A" "PartDef" None None None None;
       mkSymbol "B" "P::B" "PartDef" None None None None]
      [mkRelationship "Specialization" "P::B" "P::A" None None;
       mkRelationship "Typing" "P::B" "Q::C" None None]
      (mkViewConfig GeneralViewT None None None None) in
  ∃ r, buildElkGraph 1 (nodes g) (edges g) [] = Some r ∧
       elk_edges r = Some (map elkEdgeOf (edges g)) ∧
       length (edges g) = 1%nat.
Proof.
  intros g. eexists. split; [by vm_compute|]. split; [|by vm_compute].
  apply (X15_request_keeps_built_edges ["PartDef"]
           [mkSymbol "A" "P::A" "PartDef" None None None None;
            mkSymbol "B" "P::B" "PartDef" None None None None]
           [mkRelationship "Specialization" "P::B" "P::A" None None;
            mkRelationship "Typing" "P::B" "Q::C" None None]
           (mkViewConfig GeneralViewT None None None None) 1 []).
  by vm_compute.
Defined.

(** *** The options of the engine *)

Lemma optionOf_setOption_eq key value o :
  optionOf key (setOption key value o) = Some value.
Proof.
  induction o as [|[k v] o IH]; simpl.
  - by rewrite bool_decide_eq_true_2.
  - case_bool_decide as Hk; simpl.
    + by rewrite bool_decide_eq_true_2.
    + by rewrite bool_decide_eq_false_2.
Qed.

Lemma optionOf_setOption_ne key key' value o :
  key ≠ key' → optionOf key' (setOption key value o) = optionOf key' o.
Proof.
  intros Hne. induction o as [|[k v] o IH]; simpl.
  - by rewrite bool_decide_eq_false_2.
  - case_bool_decide as Hk; simpl.
    + subst. by rewrite !bool_decide_eq_false_2.
    + by rewrite IH.
Qed.

Lemma setOption_keys key value o :
  is_Some (optionOf key o) →
  map fst (setOption key value o) = map fst o.
Proof.
  induction o as [|[k v] o IH]; simpl; [by intros [? ?]|].
  case_bool_decide as Hk; simpl; [done|]. intros Hs. by rewrite IH.
Qed.

(** X17: for spacings and a padding that are safe integers, the options
    handed to the engine have the keys of the defaults, in their order.
    Five of them follow the caller: the algorithm unless it is absent or
    empty, the direction unless it is absent, the two spacings and the
    padding, printed in decimal, unless they are absent or zero, the padding
    being the same on the four sides; every other key keeps its default. *)
Theorem X17_engine_options (options : ElkLayoutOptions)
  (Hsafe : safeOptions options) :
  map fst (elkOptionsOf options) = map fst DEFAULT_OPTIONS ∧
  optionOf "elk.algorithm" (elkOptionsOf options)
  = Some (match o_algorithm options with
          | Some (String c a) => String c a
          | _ => "layered"
          end) ∧
  optionOf "elk.direction" (elkOptionsOf options)
  = Some (match o_direction options with
          | Some d => elkDirection_text d
          | None => "DOWN"
          end) ∧
  optionOf "elk.spacing.nodeNode" (elkOptionsOf options)
  = Some (match o_nodeSpacing options with
          | Some n => if (n =? 0)%Z then "40" else pretty n
          | None => "40"
          end) ∧
  optionOf "elk.layered.spacing.nodeNodeBetweenLayers" (elkOptionsOf options)
  = Some (match o_layerSpacing options with
          | Some n => if (n =? 0)%Z then "60" else pretty n
          | None => "60"
          end) ∧
  optionOf "elk.padding" (elkOptionsOf options)
  = Some (match o_padding options with
          | Some p =>
              if (p =? 0)%Z then "[top=20,left=20,bottom=20,right=20]"
              else elkPadding p p p p
          | None => "[top=20,left=20,bottom=20,right=20]"
          end) ∧
  ∀ key,
    key ∉ ["elk.algorithm"; "elk.direction"; "elk.spacing.nodeNode";
           "elk.layered.spacing.nodeNodeBetweenLayers"; "elk.padding"] →
    optionOf key (elkOptionsOf options) = optionOf key DEFAULT_OPTIONS.
Proof.
  destruct options as [a d n l p]. unfold elkOptionsOf.
  cbn [o_algorithm o_direction o_nodeSpacing o_layerSpacing o_padding].
  assert (Hp : ∀ q, uniformPadding q = elkPadding q q q q) by done.
  set (o1 := match a with
             | Some a' => if truthy a' then setOption _ a' _ else _
             | None => _
             end).
  set (o2 := match d with Some d' => setOption _ _ o1 | None => o1 end).
  set (o3 := match truthyNumber n with
             | Some n' => setOption _ _ o2 | None => o2 end).
  set (o4 := match truthyNumber l with
             | Some n' => setOption _ _ o3 | None => o3 end).
  set (o5 := match truthyNumber p with
             | Some n' => setOption _ _ o4 | None => o4 end).
  assert (K1 : map fst o1 = map fst DEFAULT_OPTIONS).
  { subst o1. destruct a as [[|c a]|]; try done. }
  assert (A1 : ∀ key, key ≠ "elk.algorithm" →
                      optionOf key o1 = optionOf key DEFAULT_OPTIONS).
  { intros key Hk. subst o1. destruct a as [[|c a]|]; try done.
    cbn [truthy]. by rewrite optionOf_setOption_ne. }
  assert (K2 : map fst o2 = map fst DEFAULT_OPTIONS).
  { subst o2. destruct d; [|done]. rewrite setOption_keys; [done|].
    by rewrite A1. }
  assert (A2 : ∀ key, key ≠ "elk.direction" →
                      optionOf key o2 = optionOf key o1).
  { intros key Hk. subst o2. destruct d; [|done].
    by rewrite optionOf_setOption_ne. }
  assert (K3 : map fst o3 = map fst DEFAULT_OPTIONS).
  { subst o3. destruct (truthyNumber n); [|done].
    rewrite setOption_keys; [done|]. by rewrite A2, A1. }
  assert (A3 : ∀ key, key ≠ "elk.spacing.nodeNode" →
                      optionOf key o3 = optionOf key o2).
  { intros key Hk. subst o3. destruct (truthyNumber n); [|done].
    by rewrite optionOf_setOption_ne. }
  assert (K4 : map fst o4 = map fst DEFAULT_OPTIONS).
  { subst o4. destruct (truthyNumber l); [|done].
    rewrite setOption_keys; [done|]. by rewrite A3, A2, A1. }
  assert (A4 : ∀ key, key ≠ "elk.layered.spacing.nodeNodeBetweenLayers" →
                      optionOf key o4 = optionOf key o3).
  { intros key Hk. subst o4. destruct (truthyNumber l); [|done].
    by rewrite optionOf_setOption_ne. }
  assert (K5 : map fst o5 = map fst DEFAULT_OPTIONS).
  { subst o5. destruct (truthyNumber p); [|done].
    rewrite setOption_keys; [done|]. by rewrite A4, A3, A2, A1. }
  assert (A5 : ∀ key, key ≠ "elk.padding" →
                      optionOf key o5 = optionOf key o4).
  { intros key Hk. subst o5. destruct (truthyNumber p); [|done].
    by rewrite optionOf_setOption_ne. }
  split; [done|]. split; [|split; [|split; [|split; [|split]]]].
  - rewrite A5, A4, A3, A2 by done. subst o1.
    by destruct a as [[|c a]|].
  - rewrite A5, A4, A3 by done. subst o2. destruct d.
    + by rewrite optionOf_setOption_eq.
    + by rewrite A1.
  - rewrite A5, A4 by done. subst o3. unfold truthyNumber.
    destruct n as [v|]; [destruct (v =? 0)%Z|].
    + by rewrite A2, A1.
    + by rewrite optionOf_setOption_eq.
    + by rewrite A2, A1.
  - rewrite A5 by done. subst o4. unfold truthyNumber.
    destruct l as [v|]; [destruct (v =? 0)%Z|].
    + by rewrite A3, A2, A1.
    + by rewrite optionOf_setOption_eq.
    + by rewrite A3, A2, A1.
  - subst o5. unfold truthyNumber.
    destruct p as [v|]; [destruct (v =? 0)%Z|].
    + by rewrite A4, A3, A2, A1.
    + by rewrite optionOf_setOption_eq, Hp.
    + by rewrite A4, A3, A2, A1.
  - intros key Hkey.
    rewrite A5, A4, A3, A2, A1; [done|..]; intros ->; apply Hkey;
      set_solver.
Qed.

Lemma X17_engine_options_witness :
  safeOptions GeneralViewApply.applyOptions ∧
  optionOf "elk.spacing.nodeNode" (elkOptionsOf GeneralViewApply.applyOptions)
  = Some "60" ∧
  optionOf "elk.layered.spacing.nodeNodeBetweenLayers"
    (elkOptionsOf GeneralViewApply.applyOptions)
  = Some "80" ∧
  optionOf "elk.padding" (elkOptionsOf GeneralViewApply.applyOptions)
  = Some "[top=40,left=40,bottom=40,right=40]" ∧
  optionOf "elk.hierarchyHandling" (elkOptionsOf GeneralViewApply.applyOptions)
  = Some "INCLUDE_CHILDREN".
Proof.
  assert (Hsafe : safeOptions GeneralViewApply.applyOptions).
  { unfold safeOptions, safeInteger. simpl.
    split; [|split]; intros m Hm; injection Hm as <-; lia. }
  split; [exact Hsafe|].
  destruct (X17_engine_options GeneralViewApply.applyOptions Hsafe)
    as (_ & _ & _ & Hn & Hl & Hp & Hrest).
  split; [exact Hn|]. split; [exact Hl|]. split; [exact Hp|].
  apply (Hrest "elk.hierarchyHandling"). compute_done.
Defined.

(** *** The answer of the engine, applied to the nodes *)

Lemma LaidOutNode_ind (P : LaidOutNode → Prop) :
  (∀ i x y w h cs, Forall P cs → P (mkLaidOut i x y w h cs)) → ∀ e, P e.
Proof.
  intros H. fix IH 1. intros [i x y w h cs]. apply H.
  induction cs as [|c cs IHcs]; constructor; [apply IH | apply IHcs].
Qed.

Lemma entryAfter_app k l1 l2 before :
  entryAfter k (l1 ++ l2) before = entryAfter k l2 (entryAfter k l1 before).
Proof.
  unfold entryAfter. rewrite List.filter_app, last_app.
  by destruct (last (List.filter (placesId k) l2)).
Qed.

Lemma collect_children_lookup k cs :
  Forall (λ c, ∀ m, collectPositions c m !! k
                    = entryAfter k (laidOutNodes c) (m !! k)) cs →
  ∀ m, fold_left (λ m child, collectPositions child m) cs m !! k
       = entryAfter k (flat_map laidOutNodes cs) (m !! k).
Proof.
  induction 1 as [|c cs Hc _ IH]; intros m; [done|].
  cbn [fold_left flat_map]. by rewrite IH, Hc, entryAfter_app.
Qed.

Lemma collectPositions_lookup k e m :
  collectPositions e m !! k = entryAfter k (laidOutNodes e) (m !! k).
Proof.
  revert m. induction e as [i x y w h cs IH] using LaidOutNode_ind.
  intros m. cbn [collectPositions laidOutNodes lo_id lo_children].
  rewrite (collect_children_lookup k cs IH).
  change (mkLaidOut i x y w h cs :: flat_map laidOutNodes cs)
    with ([mkLaidOut i x y w h cs] ++ flat_map laidOutNodes cs).
  rewrite entryAfter_app. f_equal.
  unfold entryAfter, placesId. cbn [List.filter lo_id].
  case_bool_decide as Hroot; cbn [negb].
  - by rewrite andb_false_r.
  - rewrite andb_true_r. case_bool_decide as Hk; cbn [last].
    + subst. by rewrite lookup_insert_eq.
    + by rewrite lookup_insert_ne.
Qed.

Lemma positionMap_lookup k answer :
  collectPositions answer ∅ !! k
  = placedOf <$> last (List.filter (placesId k) (laidOutNodes answer)).
Proof.
  rewrite collectPositions_lookup, lookup_empty. unfold entryAfter.
  by destruct (last _).
Qed.

Lemma placeNode_same m n : samePlacedNode n (placeNode m n).
Proof. unfold placeNode. by destruct (m !! id n). Qed.

Lemma applyLayoutToNodes_same nodes answer :
  Forall2 samePlacedNode nodes (applyLayoutToNodes nodes answer).
Proof.
  unfold applyLayoutToNodes. cbv zeta.
  change (map ?f nodes) with (f <$> nodes).
  apply Forall2_fmap_r, Forall_Forall2_diag, Forall_forall. intros n _.
  apply placeNode_same.
Qed.

(** X18: the nodes come back one for one and in order, each with its id,
    type, data, measured size, parent and extent; a node whose id the
    answer does not carry comes back as it is, and so does a node with the
    id ["root"], whatever the answer says about that id. *)
Theorem X18_unplaced_nodes_unchanged
  (nodes : list Node) (answer : LaidOutNode) :
  Forall2
    (λ n n',
       samePlacedNode n n' ∧
       ((∀ e, e ∈ laidOutNodes answer → lo_id e ≠ id n) → n' = n) ∧
       (id n = "root" → n' = n))
    nodes (applyLayoutToNodes nodes answer).
Proof.
  unfold applyLayoutToNodes. cbv zeta.
  change (map ?f nodes) with (f <$> nodes).
  apply Forall2_fmap_r, Forall_Forall2_diag, Forall_forall. intros n _.
  split; [apply placeNode_same|].
  assert (Hnone : (∀ e, e ∈ laidOutNodes answer → placesId (id n) e = false) →
                  placeNode (collectPositions answer ∅) n = n).
  { intros Hno. unfold placeNode. rewrite positionMap_lookup.
    destruct (last _) as [e|] eqn:He; [|done].
    apply last_Some_elem_of, elem_of_filter_bool in He as [Hin Hp].
    by rewrite (Hno e Hin) in Hp. }
  split.
  - intros Hno. apply Hnone. intros e He. unfold placesId.
    by rewrite (bool_decide_eq_false_2 _ (Hno e He)).
  - intros Hroot. apply Hnone. intros e He. unfold placesId.
    rewrite Hroot. by case_bool_decide.
Qed.

(** X19: a node whose id is carried by an answer node, and is not
    ["root"], is placed by the last such answer node, parents being met
    before their children and children in order: its position is the x and
    y of that node, 0 where they are absent, and a width or height that is
    absent or zero in the answer leaves the one of the node's style. *)
Theorem X19_last_answer_node_places
  (nodes : list Node) (answer : LaidOutNode) (i : nat) (n : Node)
  (before after : list LaidOutNode) (e : LaidOutNode)
  (Hn : nodes !! i = Some n)
  (Hwalk : laidOutNodes answer = before ++ e :: after)
  (He : lo_id e = id n)
  (Hlast : Forall (λ e', lo_id e' ≠ id n) after)
  (Hroot : id n ≠ "root") :
  ∃ n', applyLayoutToNodes nodes answer !! i = Some n' ∧
    position n'
    = mkPosition (default 0%Q (lo_x e)) (default 0%Q (lo_y e)) ∧
    (∃ st, style n' = Some st ∧
       style_width st
       = match lo_width e with
         | Some w => if (w =? 0)%Z then style n ≫= style_width else Some w
         | None => style n ≫= style_width
         end ∧
       style_height st
       = match lo_height e with
         | Some h => if (h =? 0)%Z then style n ≫= style_height else Some h
         | None => style n ≫= style_height
         end).
Proof.
  assert (Hpos : collectPositions answer ∅ !! id n = Some (placedOf e)).
  { rewrite positionMap_lookup, Hwalk, List.filter_app. cbn [List.filter].
    unfold placesId at 2. rewrite He, bool_decide_eq_true_2 by done.
    rewrite (bool_decide_eq_false_2 _ Hroot). cbn [andb negb].
    assert (List.filter (placesId (id n)) after = []) as ->.
    { clear -Hlast. induction Hlast as [|a after Ha _ IH]; [done|].
      cbn [List.filter]. unfold placesId at 1.
      by rewrite (bool_decide_eq_false_2 _ Ha). }
    by rewrite last_snoc. }
  exists (placeNode (collectPositions answer ∅) n). split.
  { unfold applyLayoutToNodes. cbv zeta.
    change (map ?f nodes) with (f <$> nodes).
    by rewrite list_lookup_fmap, Hn. }
  unfold placeNode. rewrite Hpos. cbn [position style]. split; [done|].
  eexists. split; [done|].
  unfold placedStyle, placedOf, truthyNumber.
  cbn [style_width style_height p_width p_height].
  split.
  - destruct (lo_width e) as [w|]; [destruct (w =? 0)%Z|];
      by destruct (style n).
  - destruct (lo_height e) as [h|]; [destruct (h =? 0)%Z|];
      by destruct (style n).
Qed.

Lemma X19_last_answer_node_places_witness :
  let n :=
    mkNode "A" "PartDef" (mkPosition 0 0) (mkData "A" None None None None)
      (Some (mkStyle (Some 200%Z) (Some 90%Z))) None None None in
  let first := mkLaidOut "A" (Some 1%Q) (Some 2%Q) None None [] in
  let second := mkLaidOut "A" (Some 5%Q) None (Some 0%Z) (Some 120%Z) [] in
  let answer := mkLaidOut "root" None None None None [first; second] in
  ∃ n', applyLayoutToNodes [n] answer !! 0%nat = Some n' ∧
    position n' = mkPosition 5 0 ∧
    (∃ st, style n' = Some st ∧
       style_width st = Some 200%Z ∧ style_height st = Some 120%Z).
Proof.
  intros n first second answer.
  apply (X19_last_answer_node_places [n] answer 0 n [answer; first] []
           second); try done.
Defined.

(** X20: without nodes the empty list comes back whatever the engine would
    answer; with nodes, the result is the engine's answer applied to the
    nodes, for the request built with the options of the caller, so an
    engine that rejects makes the layout reject; and with distinct ids an
    engine that answers gives a result, one node for each node. *)
Theorem X20_engine_asked_once_if_nodes
  (engine : ElkNode → option LaidOutNode) (nodes : list Node)
  (edges : list Edge) (options : ElkLayoutOptions) :
  (∀ fuel, nodes = [] →
     applyElkLayout engine fuel nodes edges options = Some []) ∧
  (∀ fuel result, nodes ≠ [] →
     applyElkLayout engine fuel nodes edges options = Some result →
     ∃ request answer,
       buildElkGraph fuel nodes edges (elkOptionsOf options) = Some request ∧
       engine request = Some answer ∧
       result = applyLayoutToNodes nodes answer ∧
       Forall2 samePlacedNode nodes result) ∧
  (∀ fuel, nodes ≠ [] → (∀ request, engine request = None) →
     applyElkLayout engine fuel nodes edges options = None) ∧
  (NoDup (map id nodes) → (∀ request, is_Some (engine request)) →
   ∃ result, applyElkLayout engine (length nodes) nodes edges options
             = Some result ∧
             length result = length nodes).
Proof.
  split; [|split; [|split]].
  - by intros fuel ->.
  - intros fuel result Hne Hres. destruct nodes as [|n ns] eqn:Hnodes; [done|].
    cbn [applyElkLayout] in Hres.
    destruct (buildElkGraph _ _ _ _) as [request|]; [|done].
    cbn [mbind option_bind] in Hres.
    destruct (engine request) as [answer|] eqn:Hans; [|done].
    cbn [mbind option_bind] in Hres. injection Hres as <-.
    exists request, answer. repeat split; try done.
    exact (applyLayoutToNodes_same (n :: ns) answer).
  - intros fuel Hne Hrej. destruct nodes as [|n ns]; [done|].
    cbn [applyElkLayout].
    destruct (buildElkGraph _ _ _ _) as [request|]; [|done].
    cbn [mbind option_bind]. by rewrite Hrej.
  - intros Hnd Hans.
    destruct (buildElkGraph_total nodes Hnd edges (elkOptionsOf options))
      as [request Hreq].
    destruct (Hans request) as [answer Hanswer].
    destruct nodes as [|n ns] eqn:Hnodes; [by exists []|].
    exists (applyLayoutToNodes (n :: ns) answer). split.
    + cbn [applyElkLayout]. rewrite Hreq. cbn [mbind option_bind].
      by rewrite Hanswer.
    + unfold applyLayoutToNodes. cbv zeta. by rewrite length_map.
Qed.

(** *** [apply] of the general view *)

Lemma applyOptions_text :
  elkOptionsOf GeneralViewApply.applyOptions
  = [("elk.algorithm", "layered");
     ("elk.direction", "DOWN");
     ("elk.spacing.nodeNode", "60");
     ("elk.spacing.edgeNode", "20");
     ("elk.layered.spacing.nodeNodeBetweenLayers", "80");
     ("elk.layered.spacing.edgeNodeBetweenLayers", "20");
     ("elk.hierarchyHandling", "INCLUDE_CHILDREN");
     ("elk.padding", "[top=40,left=40,bottom=40,right=40]");
     ("elk.layered.crossingMinimization.strategy", "LAYER_SWEEP");
     ("elk.layered.nodePlacement.strategy", "NETWORK_SIMPLEX");
     ("elk.separateConnectedComponents", "true");
     ("elk.aspectRatio", "1.6");
     ("elk.layered.wrapping.strategy", "MULTI_EDGE");
     ("elk.layered.wrapping.additionalEdgeSpacing", "20")].
Proof. by vm_compute. Qed.

(** X21: what [apply] returns, when it returns: the edges are the edges
    that were built, untouched by the engine; the nodes are the built
    nodes, one for one and in order, each with its id, type, data and
    parent; and when there is a node the engine was asked once, for a
    request under ["root"] with the layered algorithm downwards, 60 between
    nodes, 80 between layers and 40 of padding on the four sides. *)
Theorem X21_apply_keeps_edges_and_identities
  (NODE_TYPES : list string) (engine : ElkNode → option LaidOutNode)
  (fuel : nat) (symbols : list DiagramSymbol)
  (relationships : list DiagramRelationship) (config : ViewConfig)
  (out : Built)
  (Hout : GeneralViewApply.apply NODE_TYPES engine fuel symbols relationships
            config = Some out) :
  edges out = edges (build NODE_TYPES symbols relationships config) ∧
  Forall2 samePlacedNode
    (nodes (build NODE_TYPES symbols relationships config)) (nodes out) ∧
  (nodes (build NODE_TYPES symbols relationships config) ≠ [] →
   ∃ request answer,
     engine request = Some answer ∧
     nodes out
     = applyLayoutToNodes
         (nodes (build NODE_TYPES symbols relationships config)) answer ∧
     elk_id request = "root" ∧
     elk_layoutOptions request
     = Some [("elk.algorithm", "layered");
             ("elk.direction", "DOWN");
             ("elk.spacing.nodeNode", "60");
             ("elk.spacing.edgeNode", "20");
             ("elk.layered.spacing.nodeNodeBetweenLayers", "80");
             ("elk.layered.spacing.edgeNodeBetweenLayers", "20");
             ("elk.hierarchyHandling", "INCLUDE_CHILDREN");
             ("elk.padding", "[top=40,left=40,bottom=40,right=40]");
             ("elk.layered.crossingMinimization.strategy", "LAYER_SWEEP");
             ("elk.layered.nodePlacement.strategy", "NETWORK_SIMPLEX");
             ("elk.separateConnectedComponents", "true");
             ("elk.aspectRatio", "1.6");
             ("elk.layered.wrapping.strategy", "MULTI_EDGE");
             ("elk.layered.wrapping.additionalEdgeSpacing", "20")]).
Proof.
  unfold GeneralViewApply.apply in Hout. cbv zeta in Hout.
  set (g := build NODE_TYPES symbols relationships config) in *.
  destruct (applyElkLayout _ _ _ _ _) as [placed|] eqn:Hplaced; [|done].
  cbn [mbind option_bind] in Hout. injection Hout as <-. cbn [edges nodes].
  split; [done|].
  destruct (nodes g) as [|n ns] eqn:Hnodes.
  { cbn [applyElkLayout] in Hplaced. injection Hplaced as <-.
    split; [constructor|done]. }
  cbn [applyElkLayout] in Hplaced.
  destruct (buildElkGraph _ _ _ _) as [request|] eqn:Hreq; [|done].
  cbn [mbind option_bind] in Hplaced.
  destruct (engine request) as [answer|] eqn:Hans; [|done].
  cbn [mbind option_bind] in Hplaced. injection Hplaced as <-.
  split; [exact (applyLayoutToNodes_same (n :: ns) answer)|].
  intros _. exists request, answer. split; [done|]. split; [done|].
  rewrite applyOptions_text in Hreq.
  unfold buildElkGraph in Hreq. cbv zeta in Hreq.
  destruct (mapM _ _); [|done]. cbn [mbind option_bind] in Hreq.
  by injection Hreq as <-.
Qed.

Lemma X21_apply_keeps_edges_and_identities_witness :
  let engine (request : ElkNode) :=
    Some (mkLaidOut "root" None None None None
            (map (λ c, mkLaidOut (elk_id c) (Some 12%Q) (Some 12%Q)
                         (elk_width c) (elk_height c) [])
               (default [] (elk_children request)))) in
  let symbols :=
    [mkSymbol "A" "P::A" "PartDef" None None None None;
     mkSymbol "B" "P::B" "PartDef" None None None None] in
  let relationships := [mkRelationship "Specialization" "P::B" "P::A" None None] in
  let config := mkViewConfig GeneralViewT None None None None in
  ∃ out,
    GeneralViewApply.apply ["PartDef"] engine 1 symbols relationships config
    = Some out ∧
    edges out = edges (build ["PartDef"] symbols relationships config) ∧
    map id (nodes out) = ["P_A"; "P_B"] ∧
    map position (nodes out) = [mkPosition 12 12; mkPosition 12 12].
Proof.
  intros engine symbols relationships config. eexists.
  split; [by vm_compute|].
  split; [|by vm_compute].
  apply (X21_apply_keeps_edges_and_identities ["PartDef"] engine 1 symbols
           relationships config).
  by vm_compute.
Defined.

End ElkLayoutFacts.

(** ** The level layout and the grid layout *)

Module LayoutUtilsFacts.
Import JsStringFacts LayoutUtils.
Local Open Scope nat_scope.

(** *** The graph of [buildGraph] *)

Lemma addEdge_neighbors graph e u :
  neighborsOf (addEdge graph e) u
  = neighborsOf graph u
    ++ (if bool_decide (e_source e = u) then [e_target e] else []).
Proof.
  unfold neighborsOf, addEdge. case_bool_decide as Hu.
  - subst. by rewrite lookup_insert_eq.
  - rewrite lookup_insert_ne by done. by rewrite app_nil_r.
Qed.

Lemma buildGraph_fold edges graph u :
  neighborsOf (fold_left addEdge edges graph) u
  = neighborsOf graph u
    ++ map e_target (List.filter (λ e, bool_decide (e_source e = u)) edges).
Proof.
  revert graph. induction edges as [|e edges IH]; intros graph; simpl.
  - by rewrite app_nil_r.
  - rewrite IH, addEdge_neighbors, <- app_assoc.
    by destruct (bool_decide (e_source e = u)).
Qed.

Lemma neighborsOf_buildGraph edges u :
  neighborsOf (buildGraph edges) u
  = map e_target (List.filter (λ e, bool_decide (e_source e = u)) edges).
Proof.
  unfold buildGraph. rewrite buildGraph_fold.
  unfold neighborsOf. by rewrite lookup_empty.
Qed.

Lemma elem_of_neighbors edges u v :
  v ∈ neighborsOf (buildGraph edges) u ↔ adjacent edges u v.
Proof.
  rewrite neighborsOf_buildGraph. unfold adjacent. split.
  - intros (e & -> & He)%list_elem_of_fmap_1.
    apply elem_of_filter_bool in He as [He Hs].
    apply bool_decide_eq_true in Hs. by exists e.
  - intros (e & He & Hs & <-). apply list_elem_of_fmap_2.
    apply elem_of_filter_bool.
    by rewrite bool_decide_eq_true.
Qed.

(** *** The inner loop *)

Lemma visit_fold level ws levels queue :
  fold_left (visit level) ws (levels, queue)
  = (levelsAfter level ws levels, queue ++ pushedBy level ws levels).
Proof.
  revert levels queue. induction ws as [|w ws IH]; intros levels queue; simpl.
  - by rewrite app_nil_r.
  - unfold visit at 2. simpl. destruct (levels !! w); [apply IH|].
    by rewrite IH, <- app_assoc.
Qed.

Lemma levelsAfter_lookup level ws levels v :
  levelsAfter level ws levels !! v
  = match levels !! v with
    | Some l => Some l
    | None => if bool_decide (v ∈ ws) then Some (S level) else None
    end.
Proof.
  revert levels. induction ws as [|w ws IH]; intros levels; simpl.
  - by destruct (levels !! v).
  - destruct (levels !! w) as [lw|] eqn:Hw; rewrite IH.
    + destruct (levels !! v) eqn:Hv; [done|].
      assert (v ≠ w) by congruence.
      case_bool_decide as H1; case_bool_decide as H2; try done;
        set_solver.
    + destruct (decide (v = w)) as [->|Hne].
      * rewrite lookup_insert_eq, Hw.
        rewrite (bool_decide_eq_true_2 (w ∈ w :: ws)); [done|set_solver].
      * rewrite lookup_insert_ne by done.
        destruct (levels !! v); [done|].
        case_bool_decide as H1; case_bool_decide as H2; try done;
          set_solver.
Qed.

Lemma elem_of_pushedBy level ws levels v l :
  (v, l) ∈ pushedBy level ws levels
  ↔ l = S level ∧ v ∈ ws ∧ levels !! v = None.
Proof.
  revert levels. induction ws as [|w ws IH]; intros levels; simpl.
  - split; [by intros ?%elem_of_nil|]. intros (_ & ?%elem_of_nil & _). done.
  - destruct (levels !! w) as [lw|] eqn:Hw.
    + rewrite IH, elem_of_cons. split; [naive_solver|].
      intros (-> & [-> | Hin] & Hv); [congruence|done].
    + rewrite elem_of_cons, IH. split.
      * intros [Heq | (-> & Hin & Hv)].
        -- simplify_eq. split; [done|]. split; [set_solver|done].
        -- destruct (decide (v = w)) as [->|Hne].
           ++ by rewrite lookup_insert_eq in Hv.
           ++ rewrite lookup_insert_ne in Hv by done.
              split; [done|]. split; [set_solver|done].
      * intros (-> & Hin & Hv).
        destruct (decide (v = w)) as [->|Hne]; [by left|right].
        split; [done|]. split; [set_solver|].
        by rewrite lookup_insert_ne.
Qed.

(** Every push takes one id out of the ids that are still to be seen. *)
Lemma pushedBy_measure (T : gset string) level ws levels :
  (∀ w, w ∈ ws → w ∈ T) →
  length (pushedBy level ws levels)
  + size (T ∖ dom (levelsAfter level ws levels))
  = size (T ∖ dom levels).
Proof.
  revert levels. induction ws as [|w ws IH]; intros levels Hws; simpl.
  - done.
  - assert (∀ w', w' ∈ ws → w' ∈ T) as Hws' by set_solver.
    destruct (levels !! w) as [lw|] eqn:Hw; [by apply IH|].
    specialize (IH (<[w := S level]> levels) Hws').
    rewrite dom_insert_L in IH.
    assert (w ∈ T) by set_solver.
    assert (w ∉ dom levels) by by apply not_elem_of_dom.
    assert (T ∖ dom levels = {[w]} ∪ T ∖ ({[w]} ∪ dom levels)) as ->.
    { apply set_eq. intros x. destruct (decide (x = w)); set_solver. }
    pose proof (size_union (C:=gset string) {[w]}
                  (T ∖ ({[w]} ∪ dom levels))) as Hsz.
    rewrite size_singleton in Hsz. rewrite Hsz by set_solver.
    simpl. lia.
Qed.

(** *** The loop stops *)

(** With one unit of fuel for each queue entry and each id still to be seen,
    [bfs] computes the result of the loop. *)
Lemma bfs_whileQueue (T : gset string) graph :
  (∀ u w, w ∈ neighborsOf graph u → w ∈ T) →
  ∀ fuel queue levels,
    (length queue + size (T ∖ dom levels) ≤ fuel)%nat →
    whileQueue graph queue levels (bfs fuel graph queue levels).
Proof.
  intros HT fuel. induction fuel as [|fuel IH]; intros queue levels Hfuel.
  - destruct queue as [|[id level] rest]; [constructor|simpl in Hfuel; lia].
  - destruct queue as [|[id level] rest]; [constructor|].
    cbn [bfs]. eapply whileQueue_step; [done|].
    apply IH. rewrite visit_fold. cbn [fst snd].
    rewrite length_app. simpl in Hfuel.
    pose proof (pushedBy_measure T level (neighborsOf graph id) levels
                  (HT id)) as Hm.
    lia.
Qed.

(** *** The invariant of the loop *)

Section Traversal.

Variable edges : list DiagramEdge.
Variable roots : list string.

Lemma sorted_same_level (c : nat) (q : list (string * nat)) :
  (∀ a, a ∈ q → a.2 = c) →
  StronglySorted (λ a b : string * nat, a.2 ≤ b.2) q.
Proof.
  induction q as [|a q IH]; intros Hq; constructor.
  - apply IH. intros b Hb. apply Hq. by right.
  - apply Forall_forall. intros b Hb.
    rewrite (Hq a), (Hq b); [done|by right|by left].
Qed.

Lemma Inv_step id level rest levels :
  Inv edges roots ((id, level) :: rest) levels →
  Inv edges roots (rest ++ pushedBy level (neighborsOf (buildGraph edges) id) levels)
    (levelsAfter level (neighborsOf (buildGraph edges) id) levels).
Proof.
  intros [Hsound Hqueue Hsorted Hbound Hclosed Hroots].
  set (ws := neighborsOf (buildGraph edges) id).
  assert (Hhead : levels !! id = Some level) by (apply Hqueue; by left).
  apply StronglySorted_inv in Hsorted as [Hsorted Hle].
  rewrite Forall_forall in Hle.
  assert (Hnew : ∀ v l, levelsAfter level ws levels !! v = Some l →
            levels !! v = Some l ∨
            (levels !! v = None ∧ v ∈ ws ∧ l = S level)).
  { intros v l. rewrite levelsAfter_lookup.
    destruct (levels !! v); [by left|].
    case_bool_decide; [|done]. intros [= <-]. by right. }
  assert (Hold : ∀ v l, levels !! v = Some l →
            levelsAfter level ws levels !! v = Some l).
  { intros v l Hv. by rewrite levelsAfter_lookup, Hv. }
  split.
  - intros v l [Hv | (Hv & Hin & ->)]%Hnew; [by apply Hsound|].
    destruct (Hsound _ _ Hhead) as (r & Hr & Hhops).
    exists r. split; [done|]. eapply hops_S; [done|].
    by apply elem_of_neighbors.
  - intros v l [Hin | Hin]%elem_of_app.
    + apply Hold, Hqueue. by right.
    + apply elem_of_pushedBy in Hin as (-> & Hin & Hv).
      rewrite levelsAfter_lookup, Hv. by rewrite bool_decide_eq_true_2.
  - apply StronglySorted_app_2; [|done|].
    + intros [v l] [w m] Hv Hw. simpl.
      apply elem_of_pushedBy in Hw as (-> & _ & _).
      eapply (Hbound id level v l); [by left|]. apply Hqueue. by right.
    + apply (sorted_same_level (S level)). intros [v l] Hv.
      by apply elem_of_pushedBy in Hv as (-> & _ & _).
  - intros v l w m Hin Hw.
    assert (m ≤ S level ∨ m = S level) as Hm.
    { apply Hnew in Hw as [Hw | (_ & _ & ->)]; [left|by right].
      eapply (Hbound id level w m); [by left|done]. }
    apply elem_of_app in Hin as [Hin | Hin].
    + apply Hnew in Hw as [Hw | (_ & _ & ->)].
      * eapply Hbound; [by right|done].
      * specialize (Hle _ Hin). simpl in Hle. lia.
    + apply elem_of_pushedBy in Hin as (-> & _ & _). lia.
  - intros v l [Hv | (Hv & Hin & ->)]%Hnew.
    + destruct (Hclosed _ _ Hv) as [Hq | Hc].
      * apply elem_of_cons in Hq as [[= -> ->] | Hq].
        -- right. intros w Hw%elem_of_neighbors. fold ws in Hw.
           rewrite levelsAfter_lookup.
           destruct (levels !! w) as [m|] eqn:Hm.
           ++ exists m. split; [done|].
              eapply (Hbound id level w m); [by left|done].
           ++ rewrite bool_decide_eq_true_2 by done. by exists (S level).
        -- left. apply elem_of_app. by left.
      * right. intros w Hw. destruct (Hc w Hw) as (m & Hm & Hle').
        exists m. split; [by apply Hold|done].
    + left. apply elem_of_app. right. by apply elem_of_pushedBy.
  - intros r Hr. by apply Hold, Hroots.
Qed.

Lemma Inv_whileQueue queue levels result :
  whileQueue (buildGraph edges) queue levels result →
  Inv edges roots queue levels → Inv edges roots [] result.
Proof.
  induction 1 as [levels|id level rest levels st result Hst _ IH];
    intros HI; [done|].
  apply IH. subst st. rewrite visit_fold. cbn [fst snd].
  by apply Inv_step.
Qed.

Lemma starts_lookup (ids : list string) (levels : gmap string nat) v :
  fold_left (λ lv id, <[id := 0]> lv) ids levels !! v
  = if bool_decide (v ∈ ids) then Some 0 else levels !! v.
Proof.
  revert levels. induction ids as [|i ids IH]; intros levels; simpl; [done|].
  rewrite IH. destruct (decide (v = i)) as [->|Hne].
  - rewrite lookup_insert_eq.
    rewrite (bool_decide_eq_true_2 (i ∈ i :: ids)) by by left.
    by case_bool_decide.
  - rewrite lookup_insert_ne by done.
    case_bool_decide as H1; case_bool_decide as H2; try done.
    + destruct H2. by right.
    + apply elem_of_cons in H2 as [?|?]; done.
Qed.

Lemma Inv_start :
  Inv edges roots (map (λ id, (id, 0)) roots)
    (fold_left (λ lv id, <[id := 0]> lv) roots ∅).
Proof.
  assert (Hq : ∀ v l, (v, l) ∈ map (λ id, (id, 0)) roots ↔ v ∈ roots ∧ l = 0).
  { intros v l. split.
    - intros (r & [= -> ->] & Hr)%list_elem_of_fmap_1. done.
    - intros [Hv ->]. by apply (list_elem_of_fmap_2 (λ id, (id, 0))). }
  assert (Hl : ∀ v l,
            fold_left (λ lv id, <[id := 0]> lv) roots (∅ : gmap string nat)
              !! v = Some l ↔ v ∈ roots ∧ l = 0).
  { intros v l. rewrite starts_lookup, lookup_empty.
    case_bool_decide; naive_solver. }
  split.
  - intros v l [Hv ->]%Hl. exists v. split; [done|constructor].
  - intros v l Hv%Hq. by apply Hl.
  - apply (sorted_same_level 0). intros [v l] [_ ->]%Hq. done.
  - intros v l w m _ [_ ->]%Hl. lia.
  - intros v l Hv%Hl. left. by apply Hq.
  - intros r Hr. by apply Hl.
Qed.

(** When the queue is empty the levels are the shortest distances. *)
Lemma Inv_complete levels n v :
  Inv edges roots [] levels → reaches edges roots n v →
  ∃ l, levels !! v = Some l ∧ l ≤ n.
Proof.
  intros HI (r & Hr & Hhops).
  induction Hhops as [r|n r u v _ IH Hadj].
  - exists 0. split; [by apply (inv_roots _ _ _ _ HI)|done].
  - destruct (IH Hr) as (l & Hl & Hle).
    destruct (inv_closed _ _ _ _ HI _ _ Hl) as [Hin | Hc].
    + by apply elem_of_nil in Hin.
    + destruct (Hc v Hadj) as (m & Hm & Hle'). exists m. split; [done|lia].
Qed.

Lemma Inv_shortest levels v l :
  Inv edges roots [] levels → levels !! v = Some l →
  reaches edges roots l v ∧ ∀ n, reaches edges roots n v → l ≤ n.
Proof.
  intros HI Hv. split; [by apply (inv_sound _ _ _ _ HI)|].
  intros n Hn. destruct (Inv_complete _ _ _ HI Hn) as (l' & Hl' & Hle).
  congruence.
Qed.

End Traversal.

(** *** What [calculateLevels] computes *)

Lemma maxLevelOf_upper (levels : gmap string nat) v l :
  levels !! v = Some l → l ≤ maxLevelOf levels.
Proof.
  intros Hv. apply max_list_elem_of_le.
  apply (list_elem_of_fmap_2 snd _ (v, l)). by apply elem_of_map_to_list.
Qed.

Lemma maxLevelOf_attained (levels : gmap string nat) :
  maxLevelOf levels = 0 ∨ ∃ v, levels !! v = Some (maxLevelOf levels).
Proof.
  unfold maxLevelOf. destruct (map_to_list levels) as [|a l] eqn:Hl.
  - by left.
  - right. rewrite <- Hl.
    assert (max_list (map snd (map_to_list levels))
            ∈ map snd (map_to_list levels)) as Hin.
    { apply max_list_elem_of. by rewrite Hl. }
    apply (list_elem_of_fmap_1 snd) in Hin as ([v m] & Hm & Hin).
    exists v. apply elem_of_map_to_list in Hin. simpl in Hm. by rewrite Hm.
Qed.

Section LevelFacts.

Context {Data Rest : Type}.
Implicit Types nodes : list (DiagramNode Data Rest).

Lemma calculateLevels_traversed nodes edges startNodeIds :
  calculateLevels nodes edges startNodeIds
  = fold_left
      (assignUnvisited (maxLevelOf (traversed nodes edges startNodeIds)))
      nodes (traversed nodes edges startNodeIds).
Proof. reflexivity. Qed.

(** The loop ends within the iterations granted. *)
Lemma traversed_whileQueue nodes edges startNodeIds :
  let starts := startsOf nodes edges startNodeIds in
  whileQueue (buildGraph edges) (map (λ id, (id, 0)) starts)
    (fold_left (λ lv id, <[id := 0]> lv) starts ∅)
    (traversed nodes edges startNodeIds).
Proof.
  apply (bfs_whileQueue (hasIncomingOf edges)).
  - intros u w (e & He & _ & <-)%elem_of_neighbors.
    apply elem_of_list_to_set. by apply (list_elem_of_fmap_2 e_target).
  - apply Nat.add_le_mono_l, subseteq_size. set_solver.
Qed.

Lemma traversed_Inv nodes edges startNodeIds :
  Inv edges (startsOf nodes edges startNodeIds) []
    (traversed nodes edges startNodeIds).
Proof.
  eapply Inv_whileQueue; [apply traversed_whileQueue|apply Inv_start].
Qed.

Lemma assignUnvisited_lookup (maxLevel : nat) nodes
  (levels : gmap string nat) v :
  fold_left (assignUnvisited maxLevel) nodes levels !! v
  = match levels !! v with
    | Some l => Some l
    | None =>
        if bool_decide (v ∈ map n_id nodes) then Some maxLevel else None
    end.
Proof.
  revert levels. induction nodes as [|n nodes IH]; intros levels; simpl.
  - by destruct (levels !! v).
  - rewrite IH. unfold assignUnvisited.
    destruct (levels !! n_id n) as [ln|] eqn:Hn.
    + destruct (levels !! v) eqn:Hv; [done|].
      assert (v ≠ n_id n) by congruence.
      case_bool_decide as H1; case_bool_decide as H2; try done.
      * destruct H2. by right.
      * apply elem_of_cons in H2 as [?|?]; done.
    + destruct (decide (v = n_id n)) as [->|Hne].
      * rewrite lookup_insert_eq, Hn.
        by rewrite (bool_decide_eq_true_2 (_ ∈ _ :: _)) by by left.
      * rewrite lookup_insert_ne by done.
        destruct (levels !! v); [done|].
        case_bool_decide as H1; case_bool_decide as H2; try done.
        -- destruct H2. by right.
        -- apply elem_of_cons in H2 as [?|?]; done.
Qed.

Lemma calculateLevels_lookup nodes edges startNodeIds v :
  calculateLevels nodes edges startNodeIds !! v
  = match traversed nodes edges startNodeIds !! v with
    | Some l => Some l
    | None =>
        if bool_decide (v ∈ map n_id nodes)
        then Some (maxLevelOf (traversed nodes edges startNodeIds))
        else None
    end.
Proof. by rewrite calculateLevels_traversed, assignUnvisited_lookup. Qed.

(** A node that no edge points to is a start when no start is supplied. *)
Lemma no_incoming_start nodes edges (n : DiagramNode Data Rest) :
  n ∈ nodes → (∀ e, e ∈ edges → e_target e ≠ n_id n) →
  n_id n ∈ startsOf nodes edges None.
Proof.
  intros Hn Hno. unfold startsOf. apply (list_elem_of_fmap_2 n_id).
  apply elem_of_filter_bool. split; [done|].
  apply negb_true_iff, bool_decide_eq_false.
  intros (e & He & Hin)%elem_of_list_to_set%(list_elem_of_fmap_1 e_target).
  by apply (Hno e).
Qed.

(** The levels, relative to the list of starts of the code. *)
Lemma levels_from_startsOf nodes (edges : list DiagramEdge)
  (startNodeIds : option (list string)) :
  let levels := calculateLevels nodes edges startNodeIds in
  let roots := startsOf nodes edges startNodeIds in
  (∃ visited,
     whileQueue (buildGraph edges) (map (λ id, (id, 0)) roots)
       (fold_left (λ lv id, <[id := 0]> lv) roots ∅) visited ∧
     levels = fold_left (assignUnvisited (maxLevelOf visited)) nodes visited) ∧
  (startNodeIds = None →
   ∀ n, n ∈ nodes → (∀ e, e ∈ edges → e_target e ≠ n_id n) →
        levels !! n_id n = Some 0) ∧
  (∀ r, r ∈ roots → levels !! r = Some 0) ∧
  (∀ v k, reaches edges roots k v →
     ∃ l, levels !! v = Some l ∧ reaches edges roots l v ∧
          ∀ m, reaches edges roots m v → l ≤ m) ∧
  (∃ maxLevel,
     (∀ v k, reaches edges roots k v →
        ∃ l, levels !! v = Some l ∧ l ≤ maxLevel) ∧
     (maxLevel = 0 ∨
      ∃ v, reaches edges roots maxLevel v ∧ levels !! v = Some maxLevel) ∧
     (∀ n, n ∈ nodes → (∀ k, ¬ reaches edges roots k (n_id n)) →
           levels !! n_id n = Some maxLevel)) ∧
  (startNodeIds = None →
   ∀ n, n ∈ nodes →
        (∀ e, e ∈ edges → e_source e ≠ n_id n ∧ e_target e ≠ n_id n) →
        levels !! n_id n = Some 0).
Proof.
  intros levels roots.
  pose proof (traversed_Inv nodes edges startNodeIds) as HI. fold roots in HI.
  set (lv := traversed nodes edges startNodeIds) in *.
  assert (Hkeep : ∀ v l, lv !! v = Some l → levels !! v = Some l).
  { intros v l Hv. subst levels. rewrite calculateLevels_lookup.
    fold lv. by rewrite Hv. }
  assert (Hroots : ∀ r, r ∈ roots → levels !! r = Some 0).
  { intros r Hr. by apply Hkeep, (inv_roots _ _ _ _ HI). }
  assert (Hreach : ∀ v k, reaches edges roots k v →
            ∃ l, lv !! v = Some l ∧ reaches edges roots l v ∧
                 ∀ m, reaches edges roots m v → l ≤ m).
  { intros v k Hk. destruct (Inv_complete _ _ _ _ _ HI Hk) as (l & Hl & _).
    exists l. split; [done|]. by apply (Inv_shortest edges roots lv). }
  assert (Hfirst : startNodeIds = None →
            ∀ n, n ∈ nodes → (∀ e, e ∈ edges → e_target e ≠ n_id n) →
                 levels !! n_id n = Some 0).
  { intros -> n Hn Hno. by apply Hroots, no_incoming_start. }
  split.
  { exists lv. split; [apply traversed_whileQueue|done]. }
  split; [done|]. split; [done|]. split; [|split].
  - intros v k Hk. destruct (Hreach v k Hk) as (l & Hl & Hmin).
    exists l. split; [by apply Hkeep|done].
  - exists (maxLevelOf lv). split; [|split].
    + intros v k Hk. destruct (Hreach v k Hk) as (l & Hl & _).
      exists l. split; [by apply Hkeep|by eapply maxLevelOf_upper].
    + destruct (maxLevelOf_attained lv) as [H0 | [v Hv]]; [by left|right].
      exists v. split; [by apply (inv_sound _ _ _ _ HI)|by apply Hkeep].
    + intros n Hn Hnot. subst levels. rewrite calculateLevels_lookup. fold lv.
      destruct (lv !! n_id n) as [l|] eqn:Hl.
      * destruct (Hnot l). by apply (inv_sound _ _ _ _ HI).
      * rewrite bool_decide_eq_true_2; [done|].
        by apply (list_elem_of_fmap_2 n_id).
  - intros Hnone n Hn Hno. apply Hfirst; [done|done|].
    intros e He. by apply Hno.
Qed.

(** The list of starts of the code holds the ids to start from. *)
Lemma startsOf_isStart nodes (edges : list DiagramEdge)
  (startNodeIds : option (list string)) r :
  r ∈ startsOf nodes edges startNodeIds ↔ isStart nodes edges startNodeIds r.
Proof.
  unfold startsOf, isStart. destruct startNodeIds as [ids|]; [done|].
  split.
  - intros (n & -> & [Hn Hno]%elem_of_filter_bool)%(list_elem_of_fmap_1 n_id).
    exists n. split; [done|]. split; [done|]. intros e He Ht.
    apply negb_true_iff, bool_decide_eq_false in Hno. apply Hno.
    unfold hasIncomingOf. apply elem_of_list_to_set. rewrite <- Ht.
    by apply (list_elem_of_fmap_2 e_target).
  - intros (n & Hn & <- & Hno). by apply no_incoming_start.
Qed.

Lemma reaches_reachesFrom nodes (edges : list DiagramEdge)
  (startNodeIds : option (list string)) k v :
  reaches edges (startsOf nodes edges startNodeIds) k v
  ↔ reachesFrom edges (isStart nodes edges startNodeIds) k v.
Proof.
  unfold reaches, reachesFrom.
  split; intros (r & Hr & Hh); exists r; (split; [|done]);
    by apply startsOf_isStart.
Qed.

(** C5: the traversal starts from the ids that are supplied, or, when none
    is supplied, from the ids of the nodes that no edge points to: these
    are the entries of the queue, at level 0, and the loop of
    [calculateLevels] ends.  Every start has level 0; every id reachable
    from a start has the least number of hops from a start as its level;
    and the nodes that are not reachable all have one level, the greatest
    of the levels of the reachable ids, or 0 when there is none.  In
    particular a node that no edge touches has level 0 when no start is
    supplied; and in the chain A, B, C the levels are 0, 1 and 2. *)
Theorem C5_levels_are_least_hops nodes (edges : list DiagramEdge)
  (startNodeIds : option (list string)) :
  let levels := calculateLevels nodes edges startNodeIds in
  let start := isStart nodes edges startNodeIds in
  (∃ queue visited,
     (∀ r l, (r, l) ∈ queue ↔ start r ∧ l = 0) ∧
     whileQueue (buildGraph edges) queue
       (fold_left (λ lv id, <[id := 0]> lv) (map fst queue) ∅) visited ∧
     levels = fold_left (assignUnvisited (maxLevelOf visited)) nodes visited) ∧
  (startNodeIds = None →
   ∀ n, n ∈ nodes → (∀ e, e ∈ edges → e_target e ≠ n_id n) →
        start (n_id n) ∧ levels !! n_id n = Some 0) ∧
  (∀ r, start r → levels !! r = Some 0) ∧
  (∀ v k, reachesFrom edges start k v →
     ∃ l, levels !! v = Some l ∧ reachesFrom edges start l v ∧
          ∀ m, reachesFrom edges start m v → l ≤ m) ∧
  (∃ maxLevel,
     (∀ v k, reachesFrom edges start k v →
        ∃ l, levels !! v = Some l ∧ l ≤ maxLevel) ∧
     (maxLevel = 0 ∨
      ∃ v, reachesFrom edges start maxLevel v ∧
           levels !! v = Some maxLevel) ∧
     (∀ n, n ∈ nodes → (∀ k, ¬ reachesFrom edges start k (n_id n)) →
           levels !! n_id n = Some maxLevel)) ∧
  (startNodeIds = None →
   ∀ n, n ∈ nodes →
        (∀ e, e ∈ edges → e_source e ≠ n_id n ∧ e_target e ≠ n_id n) →
        levels !! n_id n = Some 0) ∧
  (∀ (d : Data) (r : Rest),
     let chain := [mkDiagramNode "A" None None d r;
                   mkDiagramNode "B" None None d r;
                   mkDiagramNode "C" None None d r] in
     map (λ n, calculateLevels chain
                 [mkDiagramEdge "e1" "A" "B" None None;
                  mkDiagramEdge "e2" "B" "C" None None] None !! n_id n)
       chain
     = [Some 0; Some 1; Some 2]).
Proof.
  intros levels start. subst start.
  destruct (levels_from_startsOf nodes edges startNodeIds)
    as ((visited & Hloop & Hlevels) & Hfirst & Hroots & Hleast & Hmax & Hfree).
  fold levels in Hlevels, Hfirst, Hroots, Hleast, Hmax, Hfree.
  assert (Hiff : ∀ k v,
            reaches edges (startsOf nodes edges startNodeIds) k v
            ↔ reachesFrom edges (isStart nodes edges startNodeIds) k v).
  { intros k v. apply reaches_reachesFrom. }
  split; [|split; [|split; [|split; [|split; [|split]]]]].
  - exists (map (λ id, (id, 0)) (startsOf nodes edges startNodeIds)), visited.
    split; [|split].
    + intros r l. rewrite <- startsOf_isStart. split.
      * intros (r' & [= -> ->] & Hr)%(list_elem_of_fmap_1 _). by split.
      * intros [Hr ->]. by apply (list_elem_of_fmap_2 (λ id, (id, 0))).
    + rewrite map_map. simpl. by rewrite map_id.
    + done.
  - intros Hnone n Hn Hno. split; [|by apply Hfirst].
    subst startNodeIds. by exists n.
  - intros r Hr. by apply Hroots, startsOf_isStart.
  - intros v k Hk. destruct (Hleast v k) as (l & Hl & Hreach & Hmin).
    { by apply Hiff. }
    exists l. split; [done|]. split; [by apply Hiff|].
    intros m Hm. by apply Hmin, Hiff.
  - destruct Hmax as (maxLevel & Hle & Hatt & Hrest). exists maxLevel.
    split; [|split].
    + intros v k Hk. apply (Hle v k). by apply Hiff.
    + destruct Hatt as [?|(v & Hv & Hl)]; [by left|right].
      exists v. split; [by apply Hiff|done].
    + intros n Hn Hnot. apply Hrest; [done|]. intros k Hk.
      by apply (Hnot k), Hiff.
  - done.
  - intros d r chain. by vm_compute.
Qed.

End LevelFacts.

(** *** More on the levels *)

Lemma buildGraph_key edges graph u :
  fold_left addEdge edges graph !! u = None ↔
  graph !! u = None ∧ ∀ e, e ∈ edges → e_source e ≠ u.
Proof.
  revert graph. induction edges as [|e edges IH]; intros graph; simpl.
  - split; [|by intros [? _]]. intros H. split; [done|].
    by intros e ?%elem_of_nil.
  - rewrite IH. unfold addEdge. split.
    + intros [Hins Hrest].
      destruct (decide (e_source e = u)) as [<-|Hne].
      { by rewrite lookup_insert_eq in Hins. }
      rewrite lookup_insert_ne in Hins by done. split; [done|].
      intros e' [->|He']%elem_of_cons; [done|]. by apply Hrest.
    + intros [Hg Hall]. split.
      * rewrite lookup_insert_ne; [done|]. apply Hall. by left.
      * intros e' He'. apply Hall. by right.
Qed.

(** X6: the graph has a key for an id exactly when some edge leaves it;
    the list under the key holds the targets of the edges that leave it, in
    the order of the edges, one for each edge, so an edge that is given
    twice is there twice; and the ids of the nodes play no part. *)
Theorem X6_adjacency_lists (edges : list DiagramEdge) :
  (∀ u, buildGraph edges !! u = None ↔ ∀ e, e ∈ edges → e_source e ≠ u) ∧
  (∀ u, neighborsOf (buildGraph edges) u
        = map e_target
            (List.filter (λ e, bool_decide (e_source e = u)) edges)) ∧
  (∀ u targets, buildGraph edges !! u = Some targets → targets ≠ []) ∧
  (∀ u v, v ∈ neighborsOf (buildGraph edges) u ↔ adjacent edges u v).
Proof.
  split; [|split; [|split]].
  - intros u. unfold buildGraph. rewrite buildGraph_key, lookup_empty.
    naive_solver.
  - apply neighborsOf_buildGraph.
  - intros u targets Hu ->.
    assert (Hsome : buildGraph edges !! u ≠ None) by by rewrite Hu.
    unfold buildGraph in Hsome. rewrite buildGraph_key, lookup_empty in Hsome.
    pose proof (neighborsOf_buildGraph edges u) as Hn.
    unfold neighborsOf in Hn. rewrite Hu in Hn. simpl in Hn.
    destruct (List.filter _ edges) as [|e rest] eqn:Hf; [|done].
    apply Hsome. split; [done|]. intros e He Hsrc.
    assert (e ∈ List.filter (λ e, bool_decide (e_source e = u)) edges) as Hin.
    { apply elem_of_filter_bool. split; [done|]. by apply bool_decide_eq_true. }
    rewrite Hf in Hin. by apply elem_of_nil in Hin.
  - intros u v. apply elem_of_neighbors.
Qed.

Section MoreLevelFacts.

Context {Data Rest : Type}.
Implicit Types nodes : list (DiagramNode Data Rest).

(** X22: an id has a level exactly when it is the id of a node or can be
    reached from a start; the levels leave no gap: below a level that is
    used, every level is used; and an edge that leaves a reachable id
    leads to a level that is at most one greater. *)
Theorem X22_levels_cover_without_gaps nodes (edges : list DiagramEdge)
  (startNodeIds : option (list string)) :
  let levels := calculateLevels nodes edges startNodeIds in
  let roots := startsOf nodes edges startNodeIds in
  (∀ v, is_Some (levels !! v) ↔
        v ∈ map n_id nodes ∨ ∃ k, reaches edges roots k v) ∧
  (∀ v l, levels !! v = Some (S l) → ∃ u, levels !! u = Some l) ∧
  (∀ e k, e ∈ edges → reaches edges roots k (e_source e) →
     ∃ lu lv, levels !! e_source e = Some lu ∧
              levels !! e_target e = Some lv ∧ lv ≤ S lu).
Proof.
  intros levels roots.
  pose proof (traversed_Inv nodes edges startNodeIds) as HI. fold roots in HI.
  set (lv := traversed nodes edges startNodeIds) in *.
  assert (Hkeep : ∀ v l, lv !! v = Some l → levels !! v = Some l).
  { intros v l Hv. subst levels. rewrite calculateLevels_lookup.
    fold lv. by rewrite Hv. }
  assert (Hgap : ∀ v l, lv !! v = Some (S l) → ∃ u, lv !! u = Some l).
  { intros v l Hv.
    destruct (Inv_shortest _ _ _ _ _ HI Hv) as [(r & Hr & Hhops) Hmin].
    inversion Hhops as [|n r' u v' Hu Hadj]; subst.
    assert (reaches edges roots l u) as Hreach by by exists r.
    destruct (Inv_complete _ _ _ _ _ HI Hreach) as (m & Hm & Hle).
    exists u. rewrite Hm. f_equal.
    destruct (inv_sound _ _ _ _ HI _ _ Hm) as (r' & Hr' & Hhops').
    assert (S l ≤ S m); [|lia].
    apply Hmin. exists r'. split; [done|]. by econstructor. }
  split; [|split].
  - intros v. subst levels. rewrite calculateLevels_lookup. fold lv. split.
    + destruct (lv !! v) as [l|] eqn:Hl.
      * intros _. right. exists l. by apply (inv_sound _ _ _ _ HI).
      * case_bool_decide; [by left|by intros [? ?]].
    + intros [Hin | [k Hk]].
      * destruct (lv !! v); [done|]. by rewrite bool_decide_eq_true_2.
      * destruct (Inv_complete _ _ _ _ _ HI Hk) as (l & -> & _). done.
  - intros v l Hv. subst levels. rewrite calculateLevels_lookup in Hv.
    fold lv in Hv. destruct (lv !! v) as [l'|] eqn:Hl.
    + simplify_eq. destruct (Hgap v l Hl) as [u Hu]. exists u.
      by apply Hkeep.
    + case_bool_decide; [|done]. simplify_eq.
      destruct (maxLevelOf_attained lv) as [H0 | [w Hw]]; [lia|].
      rewrite Hv in Hw. destruct (Hgap w l Hw) as [u Hu]. exists u.
      by apply Hkeep.
  - intros e k He Hk.
    destruct (Inv_complete _ _ _ _ _ HI Hk) as (lu & Hlu & _).
    destruct (inv_closed _ _ _ _ HI _ _ Hlu) as [Hin | Hc].
    { by apply elem_of_nil in Hin. }
    destruct (Hc (e_target e)) as (m & Hm & Hle); [by exists e|].
    exists lu, m. split; [by apply Hkeep|]. split; [by apply Hkeep|done].
Qed.

(** X23: when no start is supplied and every node has an edge that points
    to it, there is no start, the loop does nothing, and every node has
    the level 0: the ids of the nodes are the only ids with a level. *)
Theorem X23_no_start_all_level_zero nodes (edges : list DiagramEdge)
  (Hincoming : ∀ n, n ∈ nodes → ∃ e, e ∈ edges ∧ e_target e = n_id n) :
  startsOf nodes edges None = [] ∧
  ∀ v, calculateLevels nodes edges None !! v
       = if bool_decide (v ∈ map n_id nodes) then Some 0 else None.
Proof.
  assert (Hstarts : startsOf nodes edges None = []).
  { unfold startsOf.
    assert (List.filter
              (λ n : DiagramNode Data Rest,
                 negb (bool_decide (n_id n ∈ hasIncomingOf edges))) nodes
            = []) as ->; [|done].
    induction nodes as [|n nodes IH]; [done|]. simpl.
    destruct (Hincoming n) as (e & He & Ht); [by left|].
    rewrite bool_decide_eq_true_2.
    - simpl. apply IH. intros n' Hn'. apply Hincoming. by right.
    - unfold hasIncomingOf. apply elem_of_list_to_set. rewrite <- Ht.
      by apply (list_elem_of_fmap_2 e_target). }
  split; [done|]. intros v. rewrite calculateLevels_lookup.
  assert (traversed nodes edges None = ∅) as ->.
  { unfold traversed. cbv zeta. rewrite Hstarts. simpl.
    by destruct (size _). }
  by rewrite lookup_empty.
Qed.

End MoreLevelFacts.

Lemma X23_no_start_all_level_zero_witness :
  let nodes := [mkDiagramNode "A" None None tt tt;
                mkDiagramNode "B" None None tt tt] in
  let edges := [mkDiagramEdge "e1" "A" "B" None None;
                mkDiagramEdge "e2" "B" "A" None None] in
  startsOf nodes edges None = [] ∧
  ∀ v, calculateLevels nodes edges None !! v
       = if bool_decide (v ∈ map n_id nodes) then Some 0 else None.
Proof.
  intros nodes edges. apply X23_no_start_all_level_zero.
  intros n Hn. apply list_elem_of_In in Hn. simpl in Hn.
  destruct Hn as [<- | [<- | []]].
  - exists (mkDiagramEdge "e2" "B" "A" None None). split; [|done].
    apply list_elem_of_In. simpl. tauto.
  - exists (mkDiagramEdge "e1" "A" "B" None None). split; [|done].
    apply list_elem_of_In. simpl. tauto.
Defined.

(** *** The positions of the level layout and of the grid layout *)

Lemma ceilSqrt_spec n :
  0 < n →
  (ceilSqrt n - 1) * (ceilSqrt n - 1) < n ∧ n ≤ ceilSqrt n * ceilSqrt n.
Proof.
  intros Hn. unfold ceilSqrt.
  pose proof (Nat.sqrt_specif n) as [Hlo Hhi].
  destruct (Nat.eqb_spec (Nat.sqrt n * Nat.sqrt n) n) as [Heq|Hne].
  - split; [|lia]. destruct (Nat.sqrt n) as [|r]; [simpl in Heq; lia|].
    simpl. rewrite Nat.sub_0_r. nia.
  - split; [|lia]. simpl. rewrite Nat.sub_0_r. lia.
Qed.

Lemma ofNat_inj_mult (a b : nat) (p : Q) :
  (0 < p)%Q → (ofNat a * p == ofNat b * p)%Q → a = b.
Proof.
  intros Hp Heq. apply Qmult_inj_r in Heq.
  2: { intros H0. apply (Qlt_not_eq _ _ Hp). by symmetry. }
  unfold ofNat in Heq. by apply inject_Z_injective, Nat2Z.inj in Heq.
Qed.

Lemma ofNat_plus_1 (n : nat) : (ofNat (S n) == ofNat n + 1)%Q.
Proof.
  unfold ofNat. rewrite Nat2Z.inj_succ, <- Z.add_1_r.
  by rewrite inject_Z_plus.
Qed.

Lemma pitch_pos (a b : Z) : (0 < a + b)%Z → (0 < inject_Z a + inject_Z b)%Q.
Proof.
  intros H. rewrite <- inject_Z_plus. change 0%Q with (inject_Z 0).
  by rewrite <- Zlt_Qlt.
Qed.

Lemma default_spacing_exact :
  exactSpacing (resolve noOptions) 160 80 80 100.
Proof.
  unfold exactSpacing. repeat split; try reflexivity.
  repeat constructor; lia.
Qed.

Section LayoutFacts.

Context {Data Rest : Type}.
Implicit Types nodes : list (DiagramNode Data Rest).
Implicit Types n : DiagramNode Data Rest.

Lemma Forall2_imap {A B} (R : A → B → Prop) (f : nat → A → B) (l : list A) :
  (∀ i x, R x (f i x)) → Forall2 R l (imap f l).
Proof.
  revert f. induction l as [|x l IH]; intros f Hf; simpl; constructor.
  - apply Hf.
  - apply IH. intros i y. apply Hf.
Qed.

Lemma ofNat_lt (a b : nat) : a < b → (ofNat a < ofNat b)%Q.
Proof. intros H. unfold ofNat. rewrite <- Zlt_Qlt. lia. Qed.

Lemma groupByLevel_lookup levels i nodes byLevel lvl :
  default [] (groupByLevel levels i nodes byLevel !! lvl)
  = default [] (byLevel !! lvl) ++ rowIndices levels lvl i nodes.
Proof.
  revert i byLevel. induction nodes as [|n nodes IH]; intros i byLevel.
  - simpl. by rewrite app_nil_r.
  - cbn [groupByLevel rowIndices]. rewrite IH. case_bool_decide as Hl.
    + subst. rewrite lookup_insert_eq. simpl. by rewrite <- app_assoc.
    + rewrite lookup_insert_ne by done. done.
Qed.

Lemma rowIndices_length levels lvl i nodes :
  length (rowIndices levels lvl i nodes) = length (rowOf levels lvl nodes).
Proof.
  revert i. induction nodes as [|n nodes IH]; intros i; [done|].
  cbn [rowIndices]. unfold rowOf. cbn [List.filter]. fold (rowOf levels lvl nodes).
  rewrite length_app, IH. by case_bool_decide.
Qed.

Lemma indexOf_rowIndices levels i j nodes n :
  nodes !! j = Some n →
  indexOf (i + j) (rowIndices levels (levelOf levels n) i nodes)
  = Z.of_nat (length (rowOf levels (levelOf levels n) (take j nodes))).
Proof.
  revert i j. induction nodes as [|m nodes IH]; intros i j Hj; [done|].
  destruct j as [|j].
  - simplify_eq/=. rewrite bool_decide_eq_true_2 by done. simpl.
    by rewrite bool_decide_eq_true_2 by lia.
  - simpl in Hj. cbn [rowIndices take]. unfold rowOf. cbn [List.filter].
    fold (rowOf levels (levelOf levels n) (take j nodes)).
    specialize (IH (S i) j Hj).
    replace (S i + j) with (i + S j) in IH by lia.
    case_bool_decide as Hm.
    + cbn [app indexOf]. rewrite bool_decide_eq_false_2 by lia.
      rewrite IH. cbn [length].
      destruct (Z.ltb_spec (Z.of_nat (length (rowOf levels (levelOf levels n)
                                                (take j nodes)))) 0); lia.
    + done.
Qed.

Lemma rank_lt_row levels i nodes n :
  nodes !! i = Some n →
  rankOf levels i nodes n < length (rowOf levels (levelOf levels n) nodes).
Proof.
  intros Hi. unfold rankOf.
  rewrite <- (take_drop_middle nodes i n Hi) at 2.
  unfold rowOf. rewrite List.filter_app, length_app. cbn [List.filter].
  rewrite bool_decide_eq_true_2 by done. simpl. lia.
Qed.

Lemma rank_mono levels i j nodes ni nj :
  nodes !! i = Some ni → nodes !! j = Some nj → i < j →
  levelOf levels ni = levelOf levels nj →
  rankOf levels i nodes ni < rankOf levels j nodes nj.
Proof.
  intros Hi Hj Hij Hl. unfold rankOf. rewrite <- Hl.
  assert (take j nodes !! i = Some ni) as Hti.
  { by rewrite lookup_take_lt. }
  rewrite <- (take_drop_middle (take j nodes) i ni Hti).
  rewrite take_take, Nat.min_l by lia.
  unfold rowOf. rewrite List.filter_app, length_app. cbn [List.filter].
  rewrite bool_decide_eq_true_2 by done. simpl. lia.
Qed.

(** With exact spacings no coordinate is [NaN]. *)
Lemma exact_level_position opts w h g v nodes edges i n :
  exactSpacing (resolve opts) w h g v → nodes !! i = Some n →
  let levels := calculateLevels nodes edges None in
  let across :=
    Some (rowAcross w g (rankOf levels i nodes n)
            (length (rowOf levels (levelOf levels n) nodes))) in
  let along := Some (levelAlong h v (levelOf levels n)) in
  levelPosition (resolve opts) levels (groupByLevel levels 0 nodes ∅) i n
  = match r_direction (resolve opts) with
    | Some TB => mkPoint across along
    | _ => mkPoint along across
    end.
Proof.
  intros (Hw & Hh & Hg & Hv & _) Hi levels across along.
  unfold levelPosition. cbv zeta.
  rewrite groupByLevel_lookup, lookup_empty. cbn [default app].
  rewrite rowIndices_length.
  pose proof (indexOf_rowIndices levels 0 i nodes n Hi) as Hidx.
  rewrite Nat.add_0_l in Hidx. fold levels. rewrite Hidx, Hw, Hh, Hg, Hv.
  reflexivity.
Qed.

Lemma exact_grid_position opts w h g v columns i :
  exactSpacing (resolve opts) w h g v →
  gridPosition (resolve opts) columns i
  = mkPoint
      (Some (ofNat (i mod columns) * (inject_Z w + inject_Z g))%Q)
      (Some (ofNat (i / columns) * (inject_Z h + inject_Z v))%Q).
Proof.
  intros (Hw & Hh & Hg & Hv & _). unfold gridPosition.
  by rewrite Hw, Hh, Hg, Hv.
Qed.

Lemma level_layout_lookup nodes edges opts i n :
  nodes !! i = Some n →
  applyLevelLayout nodes edges opts !! i
  = Some (withPosition
            (levelPosition (resolve opts) (calculateLevels nodes edges None)
               (groupByLevel (calculateLevels nodes edges None) 0 nodes ∅)
               i n) n).
Proof.
  intros Hi. unfold applyLevelLayout. cbv zeta.
  by rewrite list_lookup_imap, Hi.
Qed.

Lemma grid_layout_lookup nodes opts i n :
  nodes !! i = Some n →
  applyGridLayout nodes opts !! i
  = Some (withPosition
            (gridPosition (resolve opts) (ceilSqrt (length nodes)) i) n).
Proof.
  intros Hi. unfold applyGridLayout. cbv zeta.
  by rewrite list_lookup_imap, Hi.
Qed.

(** C6: the default spacing is exact, 180 from one level to the next, and
    the default direction is downwards.  Downwards, for the default and
    every other exact spacing whose node height and vertical gap have a
    positive sum, the [y] of a node is 50 and its level times that sum, so
    a node of a greater level has a greater [y]; for the chain A, B, C the
    levels are 0, 1, 2 and the [y] are 50, 230 and 410.  The layout in the
    direction LR is the layout in the direction TB with [x] and [y]
    exchanged in every node, whatever the spacing; and so is the layout for
    a direction that is present and [undefined]. *)
Theorem C6_level_axis_and_direction :
  (exactSpacing (resolve noOptions) 160 80 80 100 ∧
   r_direction (resolve noOptions) = Some TB) ∧
  (∀ nodes edges opts w h g v i j ni nj,
     let levels := calculateLevels nodes edges None in
     exactSpacing (resolve opts) w h g v →
     r_direction (resolve opts) = Some TB →
     (0 < h + v)%Z →
     nodes !! i = Some ni → nodes !! j = Some nj →
     levelOf levels ni < levelOf levels nj →
     ∃ oi oj pi pj,
       applyLevelLayout nodes edges opts !! i = Some oi ∧
       applyLevelLayout nodes edges opts !! j = Some oj ∧
       n_position oi = Some pi ∧ n_position oj = Some pj ∧
       pt_y pi = Some (levelAlong h v (levelOf levels ni)) ∧
       pt_y pj = Some (levelAlong h v (levelOf levels nj)) ∧
       (levelAlong h v (levelOf levels ni)
        < levelAlong h v (levelOf levels nj))%Q) ∧
  (∀ (d : Data) (r : Rest),
     let nodes := [mkDiagramNode "A" None None d r;
                   mkDiagramNode "B" None None d r;
                   mkDiagramNode "C" None None d r] in
     let edges := [mkDiagramEdge "e1" "A" "B" None None;
                   mkDiagramEdge "e2" "B" "C" None None] in
     map (λ n, calculateLevels nodes edges None !! n_id n) nodes
     = [Some 0; Some 1; Some 2] ∧
     map (λ n, n_position n ≫= pt_y)
       (applyLevelLayout nodes edges noOptions)
     = [Some 50%Q; Some 230%Q; Some 410%Q]) ∧
  (∀ nodes edges opts,
     applyLevelLayout nodes edges (withDirection LR opts)
     = map transposed (applyLevelLayout nodes edges (withDirection TB opts)) ∧
     applyLevelLayout nodes edges (withoutDirection opts)
     = applyLevelLayout nodes edges (withDirection LR opts)).
Proof.
  split; [|split; [|split]].
  - split; [apply default_spacing_exact|reflexivity].
  - intros nodes edges opts w h g v i j ni nj levels Hexact Hd Hpitch Hi Hj Hlt.
    rewrite (level_layout_lookup _ _ _ _ _ Hi),
      (level_layout_lookup _ _ _ _ _ Hj).
    rewrite !(exact_level_position opts w h g v) by done. cbv zeta.
    rewrite Hd. fold levels.
    eexists _, _, _, _. do 4 (split; [reflexivity|]).
    split; [reflexivity|]. split; [reflexivity|].
    unfold levelAlong. apply Qplus_lt_l, Qmult_lt_compat_r.
    + by apply pitch_pos.
    + by apply ofNat_lt.
  - intros d r nodes edges. split; by vm_compute.
  - intros nodes edges opts. split.
    + unfold applyLevelLayout. cbv zeta.
      apply list_eq. intros i.
      change (map transposed ?l) with (transposed <$> l).
      rewrite list_lookup_fmap, !list_lookup_imap.
      destruct (nodes !! i) as [n|]; [|done]. simpl. f_equal.
    + reflexivity.
Qed.

(** C7: the grid has [ceil(sqrt(n))] columns, the least number whose square
    is at least [n]; the node of index [i] is in the column [i mod columns]
    of the row [i / columns], so the nodes fill the rows in input order;
    for an exact spacing its [x] is the column times the node width and
    the horizontal gap, and its [y] the row times the node height and the
    vertical gap; no edge is looked at.  For 4 nodes and the default
    spacing there are 2 columns and the positions are (0, 0), (240, 0),
    (0, 180) and (240, 180): the third node is in the row 1, not 0. *)
Theorem C7_grid_positions :
  (∀ nodes opts w h g v i n,
     let columns := ceilSqrt (length nodes) in
     exactSpacing (resolve opts) w h g v →
     nodes !! i = Some n →
     (columns - 1) * (columns - 1) < length nodes ≤ columns * columns ∧
     i = (i / columns) * columns + i mod columns ∧ i mod columns < columns ∧
     ∃ n', applyGridLayout nodes opts !! i = Some n' ∧
       sameButPosition n n' ∧
       n_position n'
       = Some (mkPoint
                 (Some (ofNat (i mod columns)
                        * (inject_Z w + inject_Z g))%Q)
                 (Some (ofNat (i / columns)
                        * (inject_Z h + inject_Z v))%Q))) ∧
  (∀ (a b c d : DiagramNode Data Rest),
     ceilSqrt (length [a; b; c; d]) = 2 ∧
     map n_position (applyGridLayout [a; b; c; d] noOptions)
     = [Some (mkPoint (Some 0%Q) (Some 0%Q));
        Some (mkPoint (Some 240%Q) (Some 0%Q));
        Some (mkPoint (Some 0%Q) (Some 180%Q));
        Some (mkPoint (Some 240%Q) (Some 180%Q))] ∧
     2 / ceilSqrt (length [a; b; c; d]) ≠ 0 / ceilSqrt (length [a; b; c; d])).
Proof.
  split.
  - intros nodes opts w h g v i n columns Hexact Hi.
    assert (0 < length nodes) as Hlen.
    { apply lookup_lt_Some in Hi. lia. }
    pose proof (ceilSqrt_spec _ Hlen) as Hc. fold columns in Hc.
    assert (columns ≠ 0) by (intros Hz; rewrite Hz in Hc; simpl in Hc; lia).
    split; [lia|]. split; [|split].
    + rewrite Nat.mul_comm. apply Nat.div_mod_eq.
    + by apply Nat.mod_upper_bound.
    + rewrite (grid_layout_lookup _ _ _ _ Hi).
      rewrite (exact_grid_position opts w h g v) by done.
      eexists. split; [reflexivity|]. by split.
  - intros a b c d. split; [reflexivity|]. split; by vm_compute.
Qed.

(** C10: both layouts return as many nodes as they are given, in the same
    order, and each returned node has the [id], the [type], the [data] and
    the other properties of the node at its place: only [position] is
    set. *)
Theorem C10_layouts_change_position_only nodes edges opts :
  length (applyLevelLayout nodes edges opts) = length nodes ∧
  Forall2 sameButPosition nodes (applyLevelLayout nodes edges opts) ∧
  length (applyGridLayout nodes opts) = length nodes ∧
  Forall2 sameButPosition nodes (applyGridLayout nodes opts) ∧
  (∀ i n, nodes !! i = Some n →
     ∃ p q,
       applyLevelLayout nodes edges opts !! i = Some (withPosition p n) ∧
       applyGridLayout nodes opts !! i = Some (withPosition q n)).
Proof.
  unfold applyLevelLayout, applyGridLayout. cbv zeta.
  rewrite !length_imap.
  split; [done|]. split; [by apply Forall2_imap|].
  split; [done|]. split; [by apply Forall2_imap|].
  intros i n Hi. eexists _, _. by rewrite !list_lookup_imap, Hi.
Qed.

End LayoutFacts.

(** *** Rows of the level layout and cells of the grid *)

Section RowFacts.

Context {Data Rest : Type}.
Implicit Types nodes : list (DiagramNode Data Rest).
Implicit Types n : DiagramNode Data Rest.

(** X24: for a list without repetition and an exact spacing, a row of the
    level layout is made of the nodes of one level in the order of the
    list: the node of index [i] is at the place given by the number of
    nodes of its level before it, which is less than the number of nodes
    of the level, so [indexOf] never misses; the row is as wide as these
    nodes and the gaps between them, and is centred on 300 across the
    direction of the levels. *)
Theorem X24_rows_in_input_order nodes (edges : list DiagramEdge)
  (opts : LayoutOptions) (w h g v : Z)
  (Hdistinct : NoDup nodes)
  (Hexact : exactSpacing (resolve opts) w h g v) :
  let levels := calculateLevels nodes edges None in
  (∀ i n, nodes !! i = Some n →
     let rank := rankOf levels i nodes n in
     let len := length (rowOf levels (levelOf levels n) nodes) in
     let across := Some (rowAcross w g rank len) in
     let along := Some (levelAlong h v (levelOf levels n)) in
     rank < len ∧
     ∃ n', applyLevelLayout nodes edges opts !! i = Some n' ∧
       n_position n'
       = Some (match r_direction (resolve opts) with
               | Some TB => mkPoint across along
               | _ => mkPoint along across
               end)) ∧
  (∀ len, 0 < len →
     (rowAcross w g 0 len + (rowAcross w g (len - 1) len + inject_Z w)
      == 300 + 300)%Q).
Proof.
  intros levels. split.
  - intros i n Hi rank len across along. split; [by apply rank_lt_row|].
    rewrite (level_layout_lookup _ _ _ _ _ Hi).
    rewrite (exact_level_position opts w h g v) by done.
    eexists. split; reflexivity.
  - intros len Hlen. unfold rowAcross. destruct len as [|len]; [lia|].
    replace (S len - 1) with len by lia.
    rewrite ofNat_plus_1.
    assert (ofNat 0 == 0)%Q as -> by done.
    field.
Qed.

(** X25: for a list without repetition and an exact spacing with a positive
    extent of a node and a gap across and along the levels, no two nodes
    are put at the same position; and downwards, of two nodes of one level,
    the later in the list lies to the right, by their distance in the row
    times the extent across. *)
Theorem X25_level_positions_distinct nodes (edges : list DiagramEdge)
  (opts : LayoutOptions) (w h g v : Z)
  (Hdistinct : NoDup nodes)
  (Hexact : exactSpacing (resolve opts) w h g v)
  (Hacross : (0 < w + g)%Z) (Halong : (0 < h + v)%Z) :
  let levels := calculateLevels nodes edges None in
  ∀ i j ni nj, i < j → nodes !! i = Some ni → nodes !! j = Some nj →
    ∃ pi pj xi yi xj yj,
      (applyLevelLayout nodes edges opts !! i) ≫= n_position = Some pi ∧
      (applyLevelLayout nodes edges opts !! j) ≫= n_position = Some pj ∧
      pt_x pi = Some xi ∧ pt_y pi = Some yi ∧
      pt_x pj = Some xj ∧ pt_y pj = Some yj ∧
      ¬ ((xi == xj)%Q ∧ (yi == yj)%Q) ∧
      (r_direction (resolve opts) = Some TB →
       levelOf levels ni = levelOf levels nj →
       rankOf levels i nodes ni < rankOf levels j nodes nj ∧
       (xj - xi
        == (ofNat (rankOf levels j nodes nj) - ofNat (rankOf levels i nodes ni))
           * (inject_Z w + inject_Z g))%Q ∧
       (xi + (inject_Z w + inject_Z g) <= xj)%Q).
Proof.
  intros levels i j ni nj Hij Hi Hj.
  rewrite (level_layout_lookup _ _ _ _ _ Hi),
    (level_layout_lookup _ _ _ _ _ Hj).
  cbn [mbind option_bind withPosition n_position].
  rewrite !(exact_level_position opts w h g v) by done. cbv zeta.
  fold levels.
  pose proof (pitch_pos _ _ Hacross) as Hpa.
  pose proof (pitch_pos _ _ Halong) as Hpl.
  assert (Hsame : levelOf levels ni = levelOf levels nj →
            rankOf levels i nodes ni < rankOf levels j nodes nj).
  { intros Hl. by apply (rank_mono levels i j nodes ni nj). }
  assert (Hdiff :
    ¬ ((rowAcross w g (rankOf levels i nodes ni)
          (length (rowOf levels (levelOf levels ni) nodes))
        == rowAcross w g (rankOf levels j nodes nj)
             (length (rowOf levels (levelOf levels nj) nodes)))%Q ∧
       (levelAlong h v (levelOf levels ni)
        == levelAlong h v (levelOf levels nj))%Q)).
  { intros [Hx Hy]. unfold levelAlong in Hy.
    assert (levelOf levels ni = levelOf levels nj) as Hl.
    { apply (ofNat_inj_mult _ _ _ Hpl). lra. }
    specialize (Hsame Hl). rewrite Hl in Hx. unfold rowAcross in Hx.
    assert (rankOf levels i nodes ni = rankOf levels j nodes nj); [|lia].
    apply (ofNat_inj_mult _ _ _ Hpa). lra. }
  destruct (r_direction (resolve opts)) as [[|]|] eqn:Hd;
    eexists _, _, _, _, _, _; cbn [pt_x pt_y];
    (do 6 (split; [reflexivity|])); (split; [tauto|]); try done.
  intros _ Hl. specialize (Hsame Hl). split; [done|].
  unfold rowAcross. rewrite Hl. split; [field|].
  assert (ofNat (rankOf levels i nodes ni) + 1
          <= ofNat (rankOf levels j nodes nj))%Q as Hstep.
  { unfold ofNat. change 1%Q with (inject_Z 1).
    rewrite <- inject_Z_plus, <- Zle_Qle. lia. }
  nra.
Qed.

(** X26: for an exact spacing with a positive width and height of a cell,
    the grid puts no two nodes at the same position, and no node in a
    column beyond the last. *)
Theorem X26_grid_positions_distinct nodes (opts : LayoutOptions)
  (w h g v : Z)
  (Hexact : exactSpacing (resolve opts) w h g v)
  (Hwidth : (0 < w + g)%Z) (Hheight : (0 < h + v)%Z) :
  ∀ i j ni nj, i ≠ j → nodes !! i = Some ni → nodes !! j = Some nj →
    ∃ pi pj xi yi xj yj,
      (applyGridLayout nodes opts !! i) ≫= n_position = Some pi ∧
      (applyGridLayout nodes opts !! j) ≫= n_position = Some pj ∧
      pt_x pi = Some xi ∧ pt_y pi = Some yi ∧
      pt_x pj = Some xj ∧ pt_y pj = Some yj ∧
      ¬ ((xi == xj)%Q ∧ (yi == yj)%Q) ∧
      (xi <= ofNat (ceilSqrt (length nodes) - 1)
             * (inject_Z w + inject_Z g))%Q.
Proof.
  intros i j ni nj Hne Hi Hj.
  rewrite (grid_layout_lookup _ _ _ _ Hi), (grid_layout_lookup _ _ _ _ Hj).
  cbn [mbind option_bind withPosition n_position].
  rewrite !(exact_grid_position opts w h g v) by done.
  pose proof (pitch_pos _ _ Hwidth) as Hpw.
  pose proof (pitch_pos _ _ Hheight) as Hph.
  eexists _, _, _, _, _, _. cbn [pt_x pt_y].
  do 6 (split; [reflexivity|]).
  assert (0 < length nodes) as Hlen.
  { apply lookup_lt_Some in Hi. lia. }
  pose proof (ceilSqrt_spec _ Hlen) as Hc.
  set (columns := ceilSqrt (length nodes)) in *.
  assert (columns ≠ 0) as Hcol
    by (intros Hz; rewrite Hz in Hc; simpl in Hc; lia).
  split.
  - intros [Hx Hy]. apply Hne.
    apply (ofNat_inj_mult _ _ _ Hpw) in Hx.
    apply (ofNat_inj_mult _ _ _ Hph) in Hy.
    rewrite (Nat.div_mod_eq i columns), (Nat.div_mod_eq j columns). lia.
  - apply Qmult_le_compat_r; [|lra].
    unfold ofNat. rewrite <- Zle_Qle.
    pose proof (Nat.mod_upper_bound i columns Hcol). lia.
Qed.

End RowFacts.

Lemma X24_rows_in_input_order_witness :
  let a := mkDiagramNode "A" None None tt tt in
  let b := mkDiagramNode "B" None None tt tt in
  let c := mkDiagramNode "C" None None tt tt in
  let nodes := [a; b; c] in
  let edges := [mkDiagramEdge "e1" "A" "B" None None;
                mkDiagramEdge "e2" "A" "C" None None] in
  ∃ n', applyLevelLayout nodes edges noOptions !! 2 = Some n' ∧
        n_position n'
        = Some (mkPoint (Some (rowAcross 160 80 1 2))
                  (Some (levelAlong 80 100 1))) ∧
        (rowAcross 160 80 0 2 + (rowAcross 160 80 1 2 + 160) == 300 + 300)%Q.
Proof.
  intros a b c nodes edges.
  assert (Hdistinct : NoDup nodes).
  { repeat (apply NoDup_cons; split;
            [rewrite ?elem_of_cons, elem_of_nil; intros H;
             repeat (destruct H as [H|H]; [discriminate H|]); exact H|]).
    apply NoDup_nil_2. }
  destruct (X24_rows_in_input_order nodes edges noOptions 160 80 80 100
              Hdistinct default_spacing_exact) as [Hplace Hcentre].
  destruct (Hplace 2 c eq_refl) as [_ (n' & Hn' & Hp)].
  exists n'. split; [exact Hn'|]. split; [exact Hp|].
  apply (Hcentre 2). lia.
Defined.

Lemma X25_level_positions_distinct_witness :
  let a := mkDiagramNode "A" None None tt tt in
  let b := mkDiagramNode "B" None None tt tt in
  let c := mkDiagramNode "C" None None tt tt in
  let nodes := [a; b; c] in
  let edges := [mkDiagramEdge "e1" "A" "B" None None;
                mkDiagramEdge "e2" "A" "C" None None] in
  ∃ pi pj xi yi xj yj,
    (applyLevelLayout nodes edges noOptions !! 1) ≫= n_position = Some pi ∧
    (applyLevelLayout nodes edges noOptions !! 2) ≫= n_position = Some pj ∧
    pt_x pi = Some xi ∧ pt_y pi = Some yi ∧
    pt_x pj = Some xj ∧ pt_y pj = Some yj ∧
    ¬ ((xi == xj)%Q ∧ (yi == yj)%Q) ∧
    (xi + (160 + 80) <= xj)%Q.
Proof.
  intros a b c nodes edges.
  assert (Hdistinct : NoDup nodes).
  { repeat (apply NoDup_cons; split;
            [rewrite ?elem_of_cons, elem_of_nil; intros H;
             repeat (destruct H as [H|H]; [discriminate H|]); exact H|]).
    apply NoDup_nil_2. }
  destruct (X25_level_positions_distinct nodes edges noOptions 160 80 80 100
              Hdistinct default_spacing_exact eq_refl eq_refl 1 2 b c)
    as (pi & pj & xi & yi & xj & yj & H1 & H2 & H3 & H4 & H5 & H6 & H7 & H8);
    [lia|reflexivity|reflexivity|].
  exists pi, pj, xi, yi, xj, yj. do 7 (split; [assumption|]).
  apply H8; reflexivity.
Defined.

Lemma X26_grid_positions_distinct_witness :
  let a := mkDiagramNode "A" None None tt tt in
  let c := mkDiagramNode "C" None None tt tt in
  let nodes := [a; mkDiagramNode "B" None None tt tt; c] in
  ∃ pi pj xi yi xj yj,
    (applyGridLayout nodes noOptions !! 0) ≫= n_position = Some pi ∧
    (applyGridLayout nodes noOptions !! 2) ≫= n_position = Some pj ∧
    pt_x pi = Some xi ∧ pt_y pi = Some yi ∧
    pt_x pj = Some xj ∧ pt_y pj = Some yj ∧
    ¬ ((xi == xj)%Q ∧ (yi == yj)%Q) ∧
    (xi <= ofNat (ceilSqrt (length nodes) - 1)
           * (inject_Z 160 + inject_Z 80))%Q.
Proof.
  intros a c nodes.
  apply (X26_grid_positions_distinct nodes noOptions 160 80 80 100
           default_spacing_exact eq_refl eq_refl 0 2 a c);
    [lia|reflexivity|reflexivity].
Defined.

(** *** Buckets, and nodes and edges without labels or details *)

Section BucketFacts.

Context {Data Rest : Type}.
Implicit Types nodes : list (DiagramNode Data Rest).
Implicit Types n : DiagramNode Data Rest.
Implicit Types categories : @Categories Data Rest.

Lemma firstMatch_Some categories n key :
  firstMatch categories n = Some key ↔
  ∃ i matcher, categories !! i = Some (key, matcher) ∧ matcher n = true ∧
    ∀ j entry, j < i → categories !! j = Some entry → entry.2 n = false.
Proof.
  induction categories as [|[k m] categories IH]; simpl.
  - split; [done|]. by intros (i & matcher & ? & _).
  - destruct (m n) eqn:Hm.
    + split.
      * intros [= <-]. exists 0, m. repeat split; try done. lia.
      * intros ([|i] & matcher & Hi & Hacc & Hrej).
        -- by simplify_eq/=.
        -- specialize (Hrej 0 (k, m)). simpl in Hrej.
           rewrite Hrej in Hm; [done|lia|done].
    + rewrite IH. split.
      * intros (i & matcher & Hi & Hacc & Hrej).
        exists (S i), matcher. repeat split; try done.
        intros [|j] entry Hj Hentry; simplify_eq/=; [done|].
        apply (Hrej j); [lia|done].
      * intros ([|i] & matcher & Hi & Hacc & Hrej); simplify_eq/=.
        { congruence. }
        exists i, matcher. repeat split; try done.
        intros j entry Hj Hentry. apply (Hrej (S j)); [lia|done].
Qed.

Lemma firstMatch_None categories n :
  firstMatch categories n = None ↔
  ∀ entry, entry ∈ categories → entry.2 n = false.
Proof.
  induction categories as [|[k m] categories IH]; simpl.
  - split; [|done]. by intros _ entry ?%elem_of_nil.
  - destruct (m n) eqn:Hm.
    + split; [done|]. intros Hall. specialize (Hall (k, m)). simpl in Hall.
      rewrite Hall in Hm; [done|by left].
    + rewrite IH. split.
      * intros Hall entry [->|Hin]%elem_of_cons; [done|by apply Hall].
      * intros Hall entry Hin. apply Hall. by right.
Qed.

Lemma bucketOf_key categories n :
  bucketOf categories n = "other" ∨ bucketOf categories n ∈ map fst categories.
Proof.
  unfold bucketOf. destruct (firstMatch categories n) as [key|] eqn:Hm;
    [right|by left].
  apply firstMatch_Some in Hm as (i & matcher & Hi & _). simpl.
  apply (list_elem_of_fmap_2 fst _ (key, matcher)).
  by eapply list_elem_of_lookup_2.
Qed.

Lemma init_buckets_lookup (keys : list string)
  (result : gmap string (list (DiagramNode Data Rest))) k :
  fold_left (λ r k, <[k := []]> r) keys result !! k
  = if bool_decide (k ∈ keys) then Some [] else result !! k.
Proof.
  revert result. induction keys as [|key keys IH]; intros result;
    cbn [fold_left].
  - case_bool_decide as Hk; [by apply elem_of_nil in Hk|done].
  - rewrite IH. case_bool_decide as Hk.
    + by rewrite bool_decide_eq_true_2 by by right.
    + destruct (decide (k = key)) as [->|Hne].
      * rewrite lookup_insert_eq. by rewrite bool_decide_eq_true_2 by by left.
      * rewrite lookup_insert_ne by done.
        rewrite bool_decide_eq_false_2; [done|].
        by intros [?|?]%elem_of_cons.
Qed.

Lemma categorize_fold_lookup categories nodes
  (result : gmap string (list (DiagramNode Data Rest))) k :
  fold_left (categorizeStep categories) nodes result !! k
  = match List.filter (λ n, bool_decide (bucketOf categories n = k)) nodes with
    | [] => result !! k
    | l => Some (default [] (result !! k) ++ l)
    end.
Proof.
  revert result. induction nodes as [|n nodes IH]; intros result; [done|].
  cbn [fold_left List.filter]. rewrite IH.
  assert (categorizeStep categories result n
          = pushTo (bucketOf categories n) n result) as ->.
  { unfold categorizeStep, bucketOf. by destruct (firstMatch categories n). }
  unfold pushTo. case_bool_decide as Hk.
  - subst k. rewrite lookup_insert_eq. simpl.
    destruct (List.filter _ nodes); [done|]. by rewrite <- app_assoc.
  - by rewrite lookup_insert_ne.
Qed.

(** X27: the result has a bucket for ["other"] and for every key of the
    categories, and for nothing else; a node goes to the bucket of the
    first category, in the order of the keys, whose matcher accepts it,
    and to ["other"] when none does; a bucket holds its nodes in the order
    of the list, so every node is in one bucket and in no other. *)
Theorem X27_first_matching_category nodes categories :
  let result := categorizeNodes nodes categories in
  (∀ k, is_Some (result !! k) ↔ k = "other" ∨ k ∈ map fst categories) ∧
  (∀ k, default [] (result !! k)
        = List.filter (λ n, bool_decide (bucketOf categories n = k)) nodes) ∧
  (∀ n key, firstMatch categories n = Some key ↔
     ∃ i matcher, categories !! i = Some (key, matcher) ∧ matcher n = true ∧
       ∀ j entry, j < i → categories !! j = Some entry →
                  entry.2 n = false) ∧
  (∀ n, (∀ entry, entry ∈ categories → entry.2 n = false) →
        bucketOf categories n = "other").
Proof.
  intros result.
  assert (Hinit : ∀ k,
            fold_left (λ r k, <[k := []]> r) (map fst categories)
              (<["other" := []]> (∅ : gmap string (list (DiagramNode Data Rest))))
              !! k
            = if bool_decide (k = "other" ∨ k ∈ map fst categories)
              then Some [] else None).
  { intros k. rewrite init_buckets_lookup.
    case_bool_decide as Hk.
    - by rewrite bool_decide_eq_true_2 by by right.
    - destruct (decide (k = "other")) as [->|Hne].
      + rewrite lookup_insert_eq. by rewrite bool_decide_eq_true_2 by by left.
      + rewrite lookup_insert_ne, lookup_empty by done.
        rewrite bool_decide_eq_false_2; [done|]. by intros [?|?]. }
  assert (Hres : ∀ k,
            result !! k
            = match List.filter
                      (λ n, bool_decide (bucketOf categories n = k)) nodes with
              | [] => if bool_decide (k = "other" ∨ k ∈ map fst categories)
                      then Some [] else None
              | l => Some (default []
                             (if bool_decide
                                   (k = "other" ∨ k ∈ map fst categories)
                              then Some [] else None) ++ l)
              end).
  { intros k. subst result. unfold categorizeNodes. cbv zeta.
    by rewrite categorize_fold_lookup, Hinit. }
  split; [|split; [|split]].
  - intros k. rewrite Hres.
    destruct (List.filter _ nodes) as [|n l] eqn:Hf.
    + case_bool_decide; [done|]. split; [by intros [? ?]|done].
    + split; [intros _|done].
      assert (n ∈ List.filter
                    (λ n, bool_decide (bucketOf categories n = k)) nodes)
        as [_ Hb%bool_decide_eq_true]%elem_of_filter_bool.
      { rewrite Hf. by left. }
      rewrite <- Hb. apply bucketOf_key.
  - intros k. rewrite Hres.
    destruct (List.filter _ nodes) as [|n l] eqn:Hf.
    + by case_bool_decide.
    + assert (n ∈ List.filter
                    (λ n, bool_decide (bucketOf categories n = k)) nodes)
        as [_ Hb%bool_decide_eq_true]%elem_of_filter_bool.
      { rewrite Hf. by left. }
      rewrite bool_decide_eq_true_2; [done|].
      rewrite <- Hb. apply bucketOf_key.
  - intros n key. apply firstMatch_Some.
  - intros n Hall. unfold bucketOf.
    by rewrite (proj2 (firstMatch_None categories n) Hall).
Qed.

End BucketFacts.

Lemma buildGraph_stripEdgeLabels edges graph :
  fold_left addEdge (stripEdgeLabels edges) graph = fold_left addEdge edges graph.
Proof.
  revert graph. induction edges as [|e edges IH]; intros graph; [done|].
  simpl. rewrite <- IH. done.
Qed.

Lemma hasIncomingOf_stripEdgeLabels edges :
  hasIncomingOf (stripEdgeLabels edges) = hasIncomingOf edges.
Proof.
  unfold hasIncomingOf, stripEdgeLabels. by rewrite map_map.
Qed.

(** X28: stripping the labels leaves every edge at its place with its id,
    source, target and type, and takes the label from each; an edge list
    without labels is left as it is; and the graph, the levels and the
    level layout are those of the edges with their labels. *)
Theorem X28_labels_play_no_part {Data Rest : Type}
  (nodes : list (DiagramNode Data Rest)) (edges : list DiagramEdge)
  (startNodeIds : option (list string)) (opts : LayoutOptions) :
  Forall2
    (λ e e', e_id e' = e_id e ∧ e_source e' = e_source e ∧
             e_target e' = e_target e ∧ e_type e' = e_type e ∧
             e_label e' = None)
    edges (stripEdgeLabels edges) ∧
  (Forall (λ e, e_label e = None) edges → stripEdgeLabels edges = edges) ∧
  buildGraph (stripEdgeLabels edges) = buildGraph edges ∧
  calculateLevels nodes (stripEdgeLabels edges) startNodeIds
  = calculateLevels nodes edges startNodeIds ∧
  applyLevelLayout nodes (stripEdgeLabels edges) opts
  = applyLevelLayout nodes edges opts.
Proof.
  assert (Hlevels : ∀ s, calculateLevels nodes (stripEdgeLabels edges) s
                         = calculateLevels nodes edges s).
  { intros s. unfold calculateLevels, startsOf, buildGraph.
    by rewrite buildGraph_stripEdgeLabels, hasIncomingOf_stripEdgeLabels. }
  split; [|split; [|split; [|split]]].
  - unfold stripEdgeLabels. change (map ?f edges) with (f <$> edges).
    apply Forall2_fmap_r, Forall_Forall2_diag, Forall_forall. by intros e _.
  - intros Hnone. unfold stripEdgeLabels. clear Hlevels.
    induction Hnone as [|e edges He _ IH]; [done|].
    simpl. rewrite IH. f_equal. destruct e; simpl in *. by subst.
  - apply buildGraph_stripEdgeLabels.
  - apply Hlevels.
  - unfold applyLevelLayout. by rewrite Hlevels.
Qed.

(** X29: stripping data keeps every node at its place with its id, type,
    position and other properties; an entry of its data stays exactly when
    its key is not one of the keys, so no key of the list is left, and the
    entries that stay keep their order; with no key the nodes are left as
    they are; and stripping twice is stripping once with both lists of
    keys. *)
Theorem X29_only_listed_keys_removed {V Rest : Type}
  (nodes : list (DiagramNode (list (string * V)) Rest))
  (keys keys' : list string) :
  Forall2
    (λ n n',
       n_id n' = n_id n ∧ n_type n' = n_type n ∧
       n_position n' = n_position n ∧ n_rest n' = n_rest n ∧
       n_data n' `sublist_of` n_data n ∧
       (∀ k v, (k, v) ∈ n_data n' ↔ (k, v) ∈ n_data n ∧ k ∉ keys) ∧
       (∀ k, k ∈ keys → k ∉ map fst (n_data n')))
    nodes (stripNodeData nodes keys) ∧
  stripNodeData nodes [] = nodes ∧
  stripNodeData (stripNodeData nodes keys) keys'
  = stripNodeData nodes (keys ++ keys').
Proof.
  assert (Hmem : ∀ (data : list (string * V)) k v,
            (k, v) ∈ List.filter (λ kv, negb (bool_decide (kv.1 ∈ keys))) data
            ↔ (k, v) ∈ data ∧ k ∉ keys).
  { intros data k v. rewrite elem_of_filter_bool. simpl.
    by rewrite negb_true_iff, bool_decide_eq_false. }
  split; [|split].
  - unfold stripNodeData. change (map ?f nodes) with (f <$> nodes).
    apply Forall2_fmap_r, Forall_Forall2_diag, Forall_forall. intros n _.
    simpl. do 4 (split; [done|]). split; [|split].
    + induction (n_data n) as [|kv data IH]; simpl; [done|].
      destruct (negb _); [by constructor|by constructor].
    + intros k v. apply Hmem.
    + intros k Hk ([k' v] & -> & Hin)%(list_elem_of_fmap_1 fst).
      by apply Hmem in Hin as [_ ?].
  - assert (Hall : ∀ data : list (string * V),
              List.filter (λ kv, negb (bool_decide (kv.1 ∈ @nil string))) data
              = data).
    { intros data. apply filter_all. intros kv _.
      apply negb_true_iff, bool_decide_eq_false, not_elem_of_nil. }
    unfold stripNodeData. induction nodes as [|n nodes IH]; [done|].
    cbn [map]. rewrite IH, Hall. by destruct n.
  - unfold stripNodeData. rewrite map_map. apply map_ext. intros n. simpl.
    f_equal. induction (n_data n) as [|kv d IHd]; [done|]. simpl.
    destruct (decide (kv.1 ∈ keys)) as [Hin|Hout].
    + rewrite (bool_decide_eq_true_2 (kv.1 ∈ keys)) by done.
      rewrite (bool_decide_eq_true_2 (kv.1 ∈ keys ++ keys')).
      * done.
      * apply elem_of_app. by left.
    + rewrite (bool_decide_eq_false_2 (kv.1 ∈ keys)) by done. simpl.
      destruct (decide (kv.1 ∈ keys')) as [Hin'|Hout'].
      * rewrite (bool_decide_eq_true_2 (kv.1 ∈ keys')) by done.
        rewrite (bool_decide_eq_true_2 (kv.1 ∈ keys ++ keys')).
        -- done.
        -- apply elem_of_app. by right.
      * rewrite (bool_decide_eq_false_2 (kv.1 ∈ keys')) by done.
        rewrite (bool_decide_eq_false_2 (kv.1 ∈ keys ++ keys')).
        -- simpl. by rewrite IHd.
        -- by intros [?|?]%elem_of_app.
Qed.

End LayoutUtilsFacts.

(** ** The view that is handed to the frame *)

Module ViewRendererFacts.
Import JsStringFacts LayoutUtils LayoutUtilsFacts ViewRenderer.

Section RendererFacts.

Variables INTERCONNECTION STATE_TRANSITION : string.
Context {V Rest : Type}.
Implicit Types nodes : list (DiagramNode (list (string * V)) Rest).

Lemma stripNodeData_frame nodes keys :
  map n_id (stripNodeData nodes keys) = map n_id nodes ∧
  map n_position (stripNodeData nodes keys) = map n_position nodes.
Proof. unfold stripNodeData. by rewrite !map_map. Qed.

Lemma stripNodeData_gone nodes keys n k :
  n ∈ stripNodeData nodes keys → k ∈ keys → k ∉ map fst (n_data n).
Proof.
  unfold stripNodeData.
  intros (m & -> & _)%(list_elem_of_fmap_1 _) Hk. simpl.
  intros ([k' v] & -> & Hin)%(list_elem_of_fmap_1 fst).
  apply elem_of_filter_bool in Hin as [_ Hout]. simpl in Hout.
  by apply negb_true_iff, bool_decide_eq_false in Hout.
Qed.

Lemma stripNodeData_nil nodes : stripNodeData nodes [] = nodes.
Proof.
  unfold stripNodeData. rewrite <- (map_id nodes) at 2.
  apply map_ext. intros [i t p d r]. cbn [n_id n_type n_position n_data n_rest].
  f_equal. apply filter_all. intros kv _.
  apply negb_true_iff, bool_decide_eq_false, not_elem_of_nil.
Qed.

Lemma layout_ids {Data} (f : nat → DiagramNode Data Rest → Point)
  (l : list (DiagramNode Data Rest)) :
  map n_id (imap (λ i node, withPosition (f i node) node) l) = map n_id l.
Proof.
  apply list_eq. intros i.
  change (map n_id ?x) with (n_id <$> x).
  rewrite !list_lookup_fmap, list_lookup_imap. by destruct (l !! i).
Qed.

(** X30: the view that is handed to the frame has the nodes of the
    resolved view, one for one, at the positions of the layout of its view
    type: the grid in an interconnection view, the levels in every other;
    the edges keep their ids, ends and types, and lose their labels only
    when labels are turned off.  In an interconnection view neither the
    direction nor the edges change the nodes, and the cells have the
    default size.  Turning the details off changes the nodes of a state
    transition view at most, where no entry action, exit action or do
    activity is left. *)
Theorem X30_view_handed_to_frame (viewType : string) nodes
  (edges : list DiagramEdge) (layoutDirection : option LayoutDirection)
  (showLabels showDetails : option bool) :
  let view :=
    processedView INTERCONNECTION STATE_TRANSITION viewType nodes edges
      layoutDirection showLabels showDetails in
  map n_id view.1 = map n_id nodes ∧
  map n_position view.1
  = map n_position
      (if bool_decide (viewType = INTERCONNECTION)
       then applyGridLayout nodes noOptions
       else applyLevelLayout nodes edges
              (withDirection (default TB layoutDirection) noOptions)) ∧
  Forall2
    (λ e e', e_id e' = e_id e ∧ e_source e' = e_source e ∧
             e_target e' = e_target e ∧ e_type e' = e_type e ∧
             e_label e'
             = if default true showLabels then e_label e else None)
    edges view.2 ∧
  (viewType = INTERCONNECTION →
   view.1
   = (processedView INTERCONNECTION STATE_TRANSITION viewType nodes [] None
        showLabels showDetails).1) ∧
  (viewType ≠ STATE_TRANSITION →
   view.1
   = (processedView INTERCONNECTION STATE_TRANSITION viewType nodes edges
        layoutDirection showLabels (Some true)).1) ∧
  (viewType = STATE_TRANSITION → showDetails = Some false →
   Forall
     (λ n, ∀ k, k ∈ ["entryAction"; "exitAction"; "doActivity"] →
                k ∉ map fst (n_data n))
     view.1).
Proof.
  intros view. subst view. unfold processedView. cbv zeta. cbn [fst snd].
  unfold getLayoutForViewType, withDirection, noOptions.
  cbn [nodeWidth nodeHeight horizontalGap verticalGap].
  split; [|split; [|split; [|split; [|split]]]].
  - destruct (default true showDetails);
      [|rewrite (proj1 (stripNodeData_frame _ _))];
      case_bool_decide; unfold applyGridLayout, applyLevelLayout; cbv zeta;
      apply layout_ids.
  - destruct (default true showDetails);
      [|rewrite (proj2 (stripNodeData_frame _ _))]; by case_bool_decide.
  - destruct (default true showLabels).
    + apply Forall_Forall2_diag, Forall_forall. by intros e _.
    + unfold stripEdgeLabels. change (map ?f edges) with (f <$> edges).
      apply Forall2_fmap_r, Forall_Forall2_diag, Forall_forall. by intros e _.
  - intros ->. by rewrite bool_decide_eq_true_2.
  - intros Hne. unfold getHiddenDataKeys.
    rewrite (bool_decide_eq_false_2 _ Hne).
    destruct (default true showDetails); [done|].
    apply stripNodeData_nil.
  - intros -> ->. change (default true (Some false)) with false.
    cbv iota. unfold getHiddenDataKeys.
    rewrite (bool_decide_eq_true_2 (STATE_TRANSITION = STATE_TRANSITION))
      by done.
    apply Forall_forall. intros n Hn k Hk.
    by apply (stripNodeData_gone _ _ _ _ Hn).
Qed.

End RendererFacts.

End ViewRendererFacts.
